(** * SalesHub mobile: the offline queue and the sync service

    A shallow embedding of [saleshub-mobile/src/services/offline.ts]
    ([OfflineStorage]) and [saleshub-mobile/src/services/sync.ts]
    ([SyncService]), followed by the properties of the offline
    synchronisation engine.

    Conventions of the embedding:
    - JavaScript numbers that hold timestamps are [Z]; counters are [nat].
    - [JSON.parse (JSON.stringify x)] is taken to be the identity, so the
      blobs kept by [AsyncStorage] are typed slots.
    - An [async] method is a computation in the monad [M]: it threads the
      [World] (storage, the two static flags, the clock, the log of
      observable calls) and either returns or throws.
    - The collaborators (remote backend, storage faults, network probe)
      are oracles of an [Env]; each may depend on the log so far. *)

From Stdlib Require Import List String Ascii ZArith NArith Bool Arith Lia.
From Stdlib Require Import Permutation Sorted DecimalString.
Import ListNotations.
Open Scope string_scope.
Open Scope list_scope.

Set Implicit Arguments.

(** ** Data model (offline.ts, lines 8-24) *)

Inductive Table := products | sales | sellers.
Inductive OpType := create | update | delete.
Inductive Priority := low | normal | high | critical.

Definition Table_str (t : Table) : string :=
  match t with
  | products => "products"
  | sales => "sales"
  | sellers => "sellers"
  end.

Definition OpType_str (o : OpType) : string :=
  match o with
  | create => "create"
  | update => "update"
  | delete => "delete"
  end.

(** [data: any].  Only [data.id] and [data.name] are ever inspected by the
    queue; everything else travels in [p_fields]. *)
Record Payload := mkPayload {
  p_id : option string;
  p_name : option string;
  p_fields : string
}.

Record OfflineQueueItem := mkItem {
  q_id : string;
  q_type : OpType;
  q_table : Table;
  q_data : Payload;
  q_timestamp : Z;
  q_retryCount : nat;
  q_priority : option Priority
}.

(** A row of a remote collection as the cache stores it; [r_created_at] is
    [new Date(row.created_at).getTime()]. *)
Record Row := mkRow {
  r_id : string;
  r_status : option string;
  r_created_at : Z;
  r_fields : string
}.

Record CachedData := mkCached {
  cd_data : list Row;
  cd_lastUpdated : Z;
  cd_version : Z
}.

Record SyncStatus := mkStatus {
  lastSync : Z;
  status_isOnline : bool;
  pendingItems : nat
}.

Record SyncResult := mkResult {
  success : bool;
  syncedItems : nat;
  failedItems : nat;
  errors : list string
}.

Definition Priority_str (p : Priority) : string :=
  match p with
  | low => "low"
  | normal => "normal"
  | high => "high"
  | critical => "critical"
  end.

(** ** JavaScript helpers *)

(** [a || b] on possibly-missing strings: [undefined] and [''] are falsy. *)
Definition js_or (a b : option string) : option string :=
  match a with
  | Some EmptyString => b
  | Some s => Some s
  | None => b
  end.

Definition js_or_default (a : option string) (d : string) : string :=
  match js_or a None with
  | Some s => s
  | None => d
  end.

Definition string_of_nat (n : nat) : string :=
  NilZero.string_of_uint (Nat.to_uint n).

Definition string_of_Z (z : Z) : string :=
  NilZero.string_of_int (Z.to_int z).

(** [Map]: an insertion-ordered map.  [set] on a present key keeps the key's
    position and replaces the value; on a fresh key it appends. *)
Module JsMap.
Section Defs.
Variable V : Type.

Definition t := list (string * V).

Definition empty : t := [].

Fixpoint get (k : string) (m : t) : option V :=
  match m with
  | [] => None
  | (k', v) :: m' => if String.eqb k k' then Some v else get k m'
  end.

Definition has (k : string) (m : t) : bool :=
  match get k m with
  | Some _ => true
  | None => false
  end.

Fixpoint set (k : string) (v : V) (m : t) : t :=
  match m with
  | [] => [(k, v)]
  | (k', v') :: m' =>
      if String.eqb k k' then (k', v) :: m' else (k', v') :: set k v m'
  end.

Definition keys (m : t) : list string := map fst m.

Definition values (m : t) : list V := map snd m.

(** [new Map(entries)] *)
Definition of_entries (l : list (string * V)) : t :=
  fold_left (fun m kv => set (fst kv) (snd kv) m) l empty.
End Defs.
Arguments empty {V}.
End JsMap.

(** What [getQueueStats] returns (offline.ts 335-342); a
    [Record<string, number>] lists its keys in the order they were first
    written. *)
Record QueueStats := mkStats {
  qs_total : nat;
  qs_byPriority : JsMap.t nat;
  qs_byType : JsMap.t nat;
  qs_byTable : JsMap.t nat;
  qs_oldestItem : option Z;
  qs_failedItems : nat
}.

(** [Array.prototype.sort] with a comparator: the stable sort.  [x] is put
    in front of the first element it does not compare greater than. *)
Section ArraySort.
Variable A : Type.
Variable cmp : A -> A -> Z.

Fixpoint sort_insert (x : A) (l : list A) : list A :=
  match l with
  | [] => [x]
  | y :: l' =>
      if (cmp x y <=? 0)%Z then x :: y :: l' else y :: sort_insert x l'
  end.

Definition Array_sort (l : list A) : list A :=
  fold_right sort_insert [] l.
End ArraySort.

(** [Array.prototype.findIndex] followed by an assignment at that index. *)
Fixpoint replace_first {A : Type} (p : A -> bool) (f : A -> A) (l : list A)
  : option (list A) :=
  match l with
  | [] => None
  | x :: l' =>
      if p x then Some (f x :: l')
      else match replace_first p f l' with
           | Some r => Some (x :: r)
           | None => None
           end
  end.

(** ** The pure cores of the queue operations (offline.ts) *)

Definition MAX_RETRY_COUNT : nat := 3.

(** offline.ts 279-281 *)
Definition shouldRetryItem (item : OfflineQueueItem) : bool :=
  Nat.ltb (q_retryCount item) MAX_RETRY_COUNT.

(** offline.ts 293 *)
Definition priorityOrder (p : Priority) : Z :=
  match p with
  | critical => 0
  | high => 1
  | normal => 2
  | low => 3
  end.

(** [a.priority || 'normal'] *)
Definition priority_or_normal (p : option Priority) : Priority :=
  match p with
  | Some p => p
  | None => normal
  end.

(** The comparator of offline.ts 295-302. *)
Definition compareItems (a b : OfflineQueueItem) : Z :=
  let priorityDiff :=
    (priorityOrder (priority_or_normal (q_priority a))
     - priorityOrder (priority_or_normal (q_priority b)))%Z in
  if negb (priorityDiff =? 0)%Z then priorityDiff
  else (q_timestamp a - q_timestamp b)%Z.

Definition prioritized (queue : list OfflineQueueItem)
  : list OfflineQueueItem :=
  Array_sort compareItems queue.

(** offline.ts 314: [`${item.table}_${item.data?.id || item.data?.name || 'unknown'}`] *)
Definition dedupKey (item : OfflineQueueItem) : string :=
  (Table_str (q_table item) ++ "_"
   ++ js_or_default (js_or (p_id (q_data item)) (p_name (q_data item)))
        "unknown")%string.

(** One iteration of the loop of offline.ts 312-325. *)
Definition dedup_visit (seen : JsMap.t OfflineQueueItem)
  (item : OfflineQueueItem) : JsMap.t OfflineQueueItem :=
  let key := dedupKey item in
  if negb (JsMap.has key seen) then JsMap.set key item seen
  else
    match JsMap.get key seen with
    | Some existing =>
        if (q_timestamp item >? q_timestamp existing)%Z
        then JsMap.set key item seen
        else seen
    | None => seen
    end.

(** The loop runs from the last index down to 0; the result is
    [Array.from(seen.values())]. *)
Definition deduplicated (queue : list OfflineQueueItem)
  : list OfflineQueueItem :=
  JsMap.values (fold_left dedup_visit (rev queue) JsMap.empty).

(** offline.ts 369-371, with [now] the value of [Date.now()]. *)
Definition cleanedUp (now : Z) (hoursOld : Z) (queue : list OfflineQueueItem)
  : list OfflineQueueItem :=
  let cutoffTime := (now - hoursOld * 60 * 60 * 1000)%Z in
  filter (fun item => (q_timestamp item >? cutoffTime)%Z) queue.

(** [string.startsWith] *)
Definition startsWith (s p : string) : bool := String.prefix p s.

Definition status_is (r : Row) (s : string) : bool :=
  match r_status r with
  | Some s' => String.eqb s' s
  | None => false
  end.

(** sync.ts 363-373: the list handed to [cacheSales]. *)
Definition resolvedSales (localSales serverSales : list Row) : list Row :=
  let localMap := JsMap.of_entries (map (fun s => (r_id s, s)) localSales) in
  let kept :=
    filter (fun serverSale =>
              match JsMap.get (r_id serverSale) localMap with
              | Some localSale =>
                  negb (status_is localSale "pending"
                        && startsWith (r_id localSale) "temp_")
              | None => true
              end) serverSales in
  let pendingLocalSales :=
    filter (fun sale => startsWith (r_id sale) "temp_"
                        && status_is sale "pending") localSales in
  kept ++ pendingLocalSales.

(** sync.ts 320: [[...serverProducts]], the list handed to [cacheProducts]. *)
Definition resolvedProducts (localProducts serverProducts : list Row)
  : list Row :=
  serverProducts.

(** sync.ts 299-317 and 342-360: the conflicts that are only logged. *)
Definition loggedConflicts (skipTemp : bool) (lastSync : Z)
  (localRows serverRows : list Row) : list (Row * Row) :=
  let localMap := JsMap.of_entries (map (fun s => (r_id s, s)) localRows) in
  flat_map (fun server =>
              match JsMap.get (r_id server) localMap with
              | Some local =>
                  if negb (skipTemp && startsWith (r_id local) "temp_")
                     && (r_created_at server >? lastSync)%Z
                     && (r_created_at local >? lastSync)%Z
                  then [(server, local)] else []
              | None => []
              end) serverRows.

(** ** The world the services run in *)

(** The keys of offline.ts 27-32. *)
Inductive StorageKey :=
  | QUEUE_KEY | PRODUCTS_CACHE_KEY | SALES_CACHE_KEY | SELLERS_CACHE_KEY
  | CATEGORIES_CACHE_KEY | SYNC_STATUS_KEY.

(** [AsyncStorage]; [None] is a key that holds nothing. *)
Record AsyncStorage := mkStorage {
  queue_slot : option (list OfflineQueueItem);
  products_slot : option CachedData;
  sales_slot : option CachedData;
  sellers_slot : option CachedData;
  categories_slot : option CachedData;
  status_slot : option SyncStatus
}.

Definition empty_storage : AsyncStorage :=
  mkStorage None None None None None None.

Definition with_queue (v : option (list OfflineQueueItem)) (d : AsyncStorage) :=
  mkStorage v (products_slot d) (sales_slot d) (sellers_slot d)
    (categories_slot d) (status_slot d).
Definition with_products (v : option CachedData) (d : AsyncStorage) :=
  mkStorage (queue_slot d) v (sales_slot d) (sellers_slot d)
    (categories_slot d) (status_slot d).
Definition with_sales (v : option CachedData) (d : AsyncStorage) :=
  mkStorage (queue_slot d) (products_slot d) v (sellers_slot d)
    (categories_slot d) (status_slot d).
Definition with_sellers (v : option CachedData) (d : AsyncStorage) :=
  mkStorage (queue_slot d) (products_slot d) (sales_slot d) v
    (categories_slot d) (status_slot d).
Definition with_categories (v : option CachedData) (d : AsyncStorage) :=
  mkStorage (queue_slot d) (products_slot d) (sales_slot d) (sellers_slot d)
    v (status_slot d).
Definition with_status (v : option SyncStatus) (d : AsyncStorage) :=
  mkStorage (queue_slot d) (products_slot d) (sales_slot d) (sellers_slot d)
    (categories_slot d) v.

(** What a key holds, and the slot it names. *)
Definition Blob (k : StorageKey) : Type :=
  match k with
  | QUEUE_KEY => list OfflineQueueItem
  | SYNC_STATUS_KEY => SyncStatus
  | _ => CachedData
  end.

Definition read (k : StorageKey) (d : AsyncStorage) : option (Blob k) :=
  match k with
  | QUEUE_KEY => queue_slot d
  | PRODUCTS_CACHE_KEY => products_slot d
  | SALES_CACHE_KEY => sales_slot d
  | SELLERS_CACHE_KEY => sellers_slot d
  | CATEGORIES_CACHE_KEY => categories_slot d
  | SYNC_STATUS_KEY => status_slot d
  end.

Definition write (k : StorageKey) : option (Blob k) -> AsyncStorage -> AsyncStorage :=
  match k with
  | QUEUE_KEY => with_queue
  | PRODUCTS_CACHE_KEY => with_products
  | SALES_CACHE_KEY => with_sales
  | SELLERS_CACHE_KEY => with_sellers
  | CATEGORIES_CACHE_KEY => with_categories
  | SYNC_STATUS_KEY => with_status
  end.

Inductive Collection := all_products | all_sales | all_sellers | all_categories.

(** What the services do to their collaborators, newest first in the log. *)
Inductive Event :=
  | ApiWrite (t : Table) (o : OpType) (d : Payload)
  | ApiGetAll (c : Collection)
  | StorageSet (k : StorageKey)
  | StorageRemove (k : StorageKey)
  | UiSetLoading (loading : bool)
  | UiShowToast (message kind : string).

(** A thrown value: [error instanceof Error] with its message, or not. *)
Inductive Thrown :=
  | ErrorObj (message : string)
  | OtherValue.

(** [error instanceof Error ? error.message : fallback] *)
Definition message_or (e : Thrown) (fallback : string) : string :=
  match e with
  | ErrorObj m => m
  | OtherValue => fallback
  end.

Record Env := mkEnv {
  (** the remote write rejects with the given value, or resolves *)
  api_write : list Event -> Table -> OpType -> Payload -> option Thrown;
  (** the remote read rejects, or resolves with rows *)
  api_getAll : list Event -> Collection -> Thrown + list Row;
  (** [AsyncStorage.getItem] / [setItem] / [removeItem] reject, or resolve *)
  getItem_fault : list Event -> StorageKey -> option Thrown;
  setItem_fault : list Event -> StorageKey -> option Thrown;
  removeItem_fault : list Event -> StorageKey -> option Thrown;
  (** [NetInfo.fetch()]: rejects, or [isConnected], [isInternetReachable] *)
  netInfo : list Event -> option (option bool * option bool)
}.

Record World := mkWorld {
  disk : AsyncStorage;
  isOnline : bool;          (** sync.ts 17 *)
  syncInProgress : bool;    (** sync.ts 18 *)
  clock : Z;                (** what [Date.now()] returns *)
  seed : nat;               (** what [Math.random()] draws from *)
  trace : list Event
}.

(** The state of a freshly started process over a given disk. *)
Definition boot (d : AsyncStorage) (t : Z) : World :=
  mkWorld d true false t 0 [].

Definition with_disk (d : AsyncStorage) (w : World) : World :=
  mkWorld d (isOnline w) (syncInProgress w) (clock w) (seed w) (trace w).
Definition with_isOnline (b : bool) (w : World) : World :=
  mkWorld (disk w) b (syncInProgress w) (clock w) (seed w) (trace w).
Definition with_syncInProgress (b : bool) (w : World) : World :=
  mkWorld (disk w) (isOnline w) b (clock w) (seed w) (trace w).
Definition with_clock (t : Z) (w : World) : World :=
  mkWorld (disk w) (isOnline w) (syncInProgress w) t (seed w) (trace w).
Definition with_seed (n : nat) (w : World) : World :=
  mkWorld (disk w) (isOnline w) (syncInProgress w) (clock w) n (trace w).
Definition emit (e : Event) (w : World) : World :=
  mkWorld (disk w) (isOnline w) (syncInProgress w) (clock w) (seed w)
    (e :: trace w).

(** ** The monad of [async] methods *)

Inductive Outcome (A : Type) :=
  | Ok (a : A)
  | Throw (e : Thrown).
Arguments Ok {A} a.
Arguments Throw {A} e.

Definition M (A : Type) : Type := World -> Outcome A * World.

Definition ret {A} (a : A) : M A := fun w => (Ok a, w).

Definition throw {A} (e : Thrown) : M A := fun w => (Throw e, w).

Definition bind {A B} (m : M A) (k : A -> M B) : M B :=
  fun w =>
    match m w with
    | (Ok a, w') => k a w'
    | (Throw e, w') => (Throw e, w')
    end.

(** [try { m } catch (error) { h error }] *)
Definition try_catch {A} (m : M A) (h : Thrown -> M A) : M A :=
  fun w =>
    match m w with
    | (Ok a, w') => (Ok a, w')
    | (Throw e, w') => h e w'
    end.

(** [try { m } finally { f }], for an [f] that does not throw. *)
Definition finally {A} (m : M A) (f : World -> World) : M A :=
  fun w => let (r, w') := m w in (r, f w').

Definition get_world : M World := fun w => (Ok w, w).

Definition modify (f : World -> World) : M unit := fun w => (Ok tt, f w).

Notation "x <- c1 ;; c2" := (bind c1 (fun x => c2))
  (at level 61, c1 at next level, right associativity).
Notation "c1 ;; c2" := (bind c1 (fun _ => c2))
  (at level 61, right associativity).

(** [for (const x of l) { body }], the loop's local variables in [s]. *)
Fixpoint forEachM {A S} (body : A -> S -> M S) (l : list A) (s : S) : M S :=
  match l with
  | [] => ret s
  | x :: l' => s' <- body x s ;; forEachM body l' s'
  end.

Definition Date_now : M Z := fun w => (Ok (clock w), w).

Definition Math_random : M string :=
  fun w => (Ok ("0." ++ string_of_nat (seed w))%string,
            with_seed (S (seed w)) w).

(** [Promise.all] over promises that are all started: every one runs, the
    first rejection (if any) is the result. *)
Fixpoint Promise_all (ms : list (M unit)) : M unit :=
  match ms with
  | [] => ret tt
  | m :: ms' =>
      fun w =>
        match m w with
        | (Ok _, w') => Promise_all ms' w'
        | (Throw e, w') => (Throw e, snd (Promise_all ms' w'))
        end
  end.

(** ** [OfflineStorage] (offline.ts) *)

Module OfflineStorage.
Section WithEnv.
Variable env : Env.

(** [JSON.parse] of [AsyncStorage.getItem(key)]; [None] is [null]. *)
Definition getItem (k : StorageKey) : M (option (Blob k)) :=
  fun w =>
    match getItem_fault env (trace w) k with
    | Some e => (Throw e, w)
    | None => (Ok (read k (disk w)), w)
    end.

(** [AsyncStorage.setItem(key, JSON.stringify(v))] *)
Definition setItem (k : StorageKey) (v : Blob k) : M unit :=
  fun w =>
    match setItem_fault env (trace w) k with
    | Some e => (Throw e, w)
    | None =>
        (Ok tt, emit (StorageSet k) (with_disk (write k (Some v) (disk w)) w))
    end.

(** [AsyncStorage.removeItem(key)] *)
Definition removeItem (k : StorageKey) : M unit :=
  fun w =>
    match removeItem_fault env (trace w) k with
    | Some e => (Throw e, w)
    | None =>
        (Ok tt, emit (StorageRemove k) (with_disk (write k None (disk w)) w))
    end.

(** offline.ts 55-63 *)
Definition getQueue : M (list OfflineQueueItem) :=
  try_catch
    (queueData <- getItem QUEUE_KEY ;;
     ret (match queueData with Some q => q | None => [] end))
    (fun _ => ret []).

(** offline.ts 36-53 *)
Definition addToQueue (table : Table) (type : OpType) (data : Payload)
  (priority : option Priority) : M unit :=
  try_catch
    (queue <- getQueue ;;
     t1 <- Date_now ;;
     r <- Math_random ;;
     t2 <- Date_now ;;
     let queueItem :=
       mkItem (Table_str table ++ "_" ++ OpType_str type ++ "_"
               ++ string_of_Z t1 ++ "_" ++ r)%string
              type table data t2 0 (Some (priority_or_normal priority)) in
     setItem QUEUE_KEY (queue ++ [queueItem]))
    (fun error => throw error).

(** offline.ts 65-74 *)
Definition removeFromQueue (itemId : string) : M unit :=
  try_catch
    (queue <- getQueue ;;
     let filteredQueue :=
       filter (fun item => negb (String.eqb (q_id item) itemId)) queue in
     setItem QUEUE_KEY filteredQueue)
    (fun error => throw error).

(** offline.ts 76-89; [updates] is the spread of the partial item. *)
Definition updateQueueItem (itemId : string)
  (updates : OfflineQueueItem -> OfflineQueueItem) : M unit :=
  try_catch
    (queue <- getQueue ;;
     match replace_first (fun item => String.eqb (q_id item) itemId)
             updates queue with
     | Some queue' => setItem QUEUE_KEY queue'
     | None => ret tt
     end)
    (fun error => throw error).

(** [{ retryCount: n }] spread over an item. *)
Definition set_retryCount (n : nat) (item : OfflineQueueItem) :=
  mkItem (q_id item) (q_type item) (q_table item) (q_data item)
    (q_timestamp item) n (q_priority item).

(** offline.ts 91-98 *)
Definition clearQueue : M unit :=
  try_catch (removeItem QUEUE_KEY) (fun error => throw error).

(** offline.ts 101-113 *)
Definition cacheProducts (products : list Row) : M unit :=
  try_catch
    (now <- Date_now ;;
     let cache := mkCached products now 1 in
     setItem PRODUCTS_CACHE_KEY cache)
    (fun error => throw error).

(** offline.ts 115-123 *)
Definition getCachedProducts : M (option CachedData) :=
  try_catch (getItem PRODUCTS_CACHE_KEY) (fun _ => ret None).

(** offline.ts 125-137 *)
Definition cacheSales (sales : list Row) : M unit :=
  try_catch
    (now <- Date_now ;;
     let cache := mkCached sales now 1 in
     setItem SALES_CACHE_KEY cache)
    (fun error => throw error).

(** offline.ts 139-147 *)
Definition getCachedSales : M (option CachedData) :=
  try_catch (getItem SALES_CACHE_KEY) (fun _ => ret None).

(** offline.ts 149-161 *)
Definition cacheSellers (sellers : list Row) : M unit :=
  try_catch
    (now <- Date_now ;;
     let cache := mkCached sellers now 1 in
     setItem SELLERS_CACHE_KEY cache)
    (fun error => throw error).

(** offline.ts 163-171 *)
Definition getCachedSellers : M (option CachedData) :=
  try_catch (getItem SELLERS_CACHE_KEY) (fun _ => ret None).

(** offline.ts 173-185 *)
Definition cacheCategories (categories : list Row) : M unit :=
  try_catch
    (now <- Date_now ;;
     let cache := mkCached categories now 1 in
     setItem CATEGORIES_CACHE_KEY cache)
    (fun error => throw error).

(** offline.ts 187-195 *)
Definition getCachedCategories : M (option CachedData) :=
  try_catch (getItem CATEGORIES_CACHE_KEY) (fun _ => ret None).

(** offline.ts 198-209 *)
Definition setSyncStatus (status : SyncStatus) : M unit :=
  try_catch (setItem SYNC_STATUS_KEY status) (fun error => throw error).

(** offline.ts 211-223 *)
Definition getSyncStatus : M (option SyncStatus) :=
  try_catch (getItem SYNC_STATUS_KEY) (fun _ => ret None).

(** offline.ts 226-239 *)
Definition clearAllCache : M unit :=
  try_catch
    (Promise_all
       [ removeItem PRODUCTS_CACHE_KEY;
         removeItem SALES_CACHE_KEY;
         removeItem SELLERS_CACHE_KEY;
         removeItem CATEGORIES_CACHE_KEY;
         removeItem SYNC_STATUS_KEY ])
    (fun error => throw error).

(** offline.ts 284-287 *)
Definition getFailedItems : M (list OfflineQueueItem) :=
  queue <- getQueue ;;
  ret (filter (fun item => negb (shouldRetryItem item)) queue).

(** offline.ts 290-303 *)
Definition getPrioritizedQueue : M (list OfflineQueueItem) :=
  queue <- getQueue ;;
  ret (prioritized queue).

(** offline.ts 306-332 *)
Definition deduplicateQueue : M unit :=
  try_catch
    (queue <- getQueue ;;
     let deduplicatedQueue := deduplicated queue in
     setItem QUEUE_KEY deduplicatedQueue)
    (fun _ => ret tt).

(** offline.ts 366-381 *)
Definition cleanupOldQueueItems (hoursOld : Z) : M unit :=
  try_catch
    (queue <- getQueue ;;
     now <- Date_now ;;
     let filteredQueue := cleanedUp now hoursOld queue in
     setItem QUEUE_KEY filteredQueue)
    (fun _ => ret tt).

(** offline.ts 402: [`${item.table}_${item.data?.id || 'unknown'}`] *)
Definition resourceKey (item : OfflineQueueItem) : string :=
  (Table_str (q_table item) ++ "_"
   ++ js_or_default (p_id (q_data item)) "unknown")%string.

Definition is_type (o : OpType) (item : OfflineQueueItem) : bool :=
  String.eqb (OpType_str (q_type item)) (OpType_str o).

(** offline.ts 384-427 *)
Definition detectConflicts
  : M (list (OfflineQueueItem * OfflineQueueItem * string)) :=
  queue <- getQueue ;;
  let operationsByResource :=
    fold_left
      (fun m item =>
         let k := resourceKey item in
         let m' := if negb (JsMap.has k m) then JsMap.set k [] m else m in
         match JsMap.get k m' with
         | Some ops => JsMap.set k (ops ++ [item]) m'
         | None => m'
         end) queue (@JsMap.empty (list OfflineQueueItem)) in
  ret (flat_map
         (fun operations =>
            if Nat.ltb 1 (List.length operations)
               && existsb (is_type delete) operations
               && (existsb (is_type create) operations
                   || existsb (is_type update) operations)
            then
              match find (is_type delete) operations,
                    find (fun op => negb (is_type delete op)) operations with
              | Some item1, Some item2 =>
                  [(item1, item2,
                    "Delete operation conflicts with create/update")]
              | _, _ => []
              end
            else [])
         (JsMap.values operationsByResource)).

(** [(record[key] || 0) + 1] stored back under [key]. *)
Definition bump (key : string) (record : JsMap.t nat) : JsMap.t nat :=
  JsMap.set key
    (match JsMap.get key record with Some n => n | None => 0 end + 1) record.

(** [Math.min(...xs)] for a non-empty [xs]. *)
Definition Math_min (x : Z) (xs : list Z) : Z := fold_left Z.min xs x.

(** offline.ts 335-363 *)
Definition getQueueStats : M QueueStats :=
  queue <- getQueue ;;
  failedItems <- getFailedItems ;;
  let oldestItem :=
    match map q_timestamp queue with
    | [] => None
    | t :: ts => Some (Math_min t ts)
    end in
  ret (fold_left
         (fun stats item =>
            let priority := Priority_str (priority_or_normal (q_priority item)) in
            mkStats (qs_total stats)
              (bump priority (qs_byPriority stats))
              (bump (OpType_str (q_type item)) (qs_byType stats))
              (bump (Table_str (q_table item)) (qs_byTable stats))
              (qs_oldestItem stats) (qs_failedItems stats))
         queue
         (mkStats (List.length queue) JsMap.empty JsMap.empty JsMap.empty
            oldestItem (List.length failedItems))).

(** [cache && cache.lastUpdated < cutoffTime] *)
Definition is_stale (cache : option CachedData) (cutoffTime : Z) : bool :=
  match cache with
  | Some c => (cd_lastUpdated c <? cutoffTime)%Z
  | None => false
  end.

(** offline.ts 430-459 *)
Definition cleanupOldCache (daysOld : Z) : M unit :=
  try_catch
    (now <- Date_now ;;
     let cutoffTime := (now - daysOld * 24 * 60 * 60 * 1000)%Z in
     productsCache <- getCachedProducts ;;
     salesCache <- getCachedSales ;;
     sellersCache <- getCachedSellers ;;
     categoriesCache <- getCachedCategories ;;
     (if is_stale productsCache cutoffTime
      then removeItem PRODUCTS_CACHE_KEY else ret tt) ;;
     (if is_stale salesCache cutoffTime
      then removeItem SALES_CACHE_KEY else ret tt) ;;
     (if is_stale sellersCache cutoffTime
      then removeItem SELLERS_CACHE_KEY else ret tt) ;;
     (if is_stale categoriesCache cutoffTime
      then removeItem CATEGORIES_CACHE_KEY else ret tt))
    (fun _ => ret tt).
End WithEnv.
End OfflineStorage.

(** ** [SyncService] (sync.ts) *)

Module SyncService.
Section WithEnv.
Variable env : Env.

(** [ApiService.create] / [update] / [delete] (api.ts): one remote write,
    which resolves or rejects. *)
Definition ApiService_write (table : Table) (type : OpType) (data : Payload)
  : M unit :=
  fun w =>
    match api_write env (trace w) table type data with
    | Some e => (Throw e, emit (ApiWrite table type data) w)
    | None => (Ok tt, emit (ApiWrite table type data) w)
    end.

(** [ProductService.getAll()], [SaleService.getAll(..)],
    [SellerService.getAll()], [ApiService.getAll('categories')] *)
Definition Service_getAll (c : Collection) : M (list Row) :=
  fun w =>
    match api_getAll env (trace w) c with
    | inl e => (Throw e, emit (ApiGetAll c) w)
    | inr rows => (Ok rows, emit (ApiGetAll c) w)
    end.

Definition uiStore_setLoading (loading : bool) : M unit :=
  modify (emit (UiSetLoading loading)).

Definition uiStore_showToast (message kind : string) : M unit :=
  modify (emit (UiShowToast message kind)).

(** sync.ts 21-24 *)
Definition initialize : M unit :=
  modify (with_isOnline true).

(** sync.ts 27-36 *)
Definition checkOnlineStatus : M bool :=
  fun w =>
    match netInfo env (trace w) with
    | Some (isConnected, isInternetReachable) =>
        (Ok (match isConnected, isInternetReachable with
             | Some true, Some true => true
             | _, _ => false
             end), w)
    | None => (Ok true, w)
    end.

(** sync.ts 184-231.  The [default:] arm is outside the type of
    [item.table]; the three tables run the same three arms. *)
Definition processQueueItem (table : Table) (type : OpType) (data : Payload)
  : M unit :=
  match table with
  | products =>
      match type with
      | create => ApiService_write products create data
      | update => ApiService_write products update data
      | delete => ApiService_write products delete data
      end
  | sales =>
      match type with
      | create => ApiService_write sales create data
      | update => ApiService_write sales update data
      | delete => ApiService_write sales delete data
      end
  | sellers =>
      match type with
      | create => ApiService_write sellers create data
      | update => ApiService_write sellers update data
      | delete => ApiService_write sellers delete data
      end
  end.

(** The locals [syncedItems], [failedItems], [errors] of a method. *)
Definition Tally : Type := (nat * nat * list string)%type.

Definition result_of (t : Tally) : SyncResult :=
  let '(syncedItems, failedItems, errors) := t in
  mkResult (Nat.eqb failedItems 0) syncedItems failedItems errors.

(** The body of the loop of sync.ts 154-173. *)
Definition drainItem (item : OfflineQueueItem) (t : Tally) : M Tally :=
  let '(syncedItems, failedItems, errors) := t in
  try_catch
    (processQueueItem (q_table item) (q_type item) (q_data item) ;;
     OfflineStorage.removeFromQueue env (q_id item) ;;
     ret (S syncedItems, failedItems, errors))
    (fun error =>
       if shouldRetryItem item then
         OfflineStorage.updateQueueItem env (q_id item)
           (OfflineStorage.set_retryCount (q_retryCount item + 1)) ;;
         ret (syncedItems, failedItems, errors)
       else
         ret (syncedItems, S failedItems,
              errors ++ [("Failed to sync " ++ OpType_str (q_type item)
                          ++ " " ++ Table_str (q_table item) ++ ": "
                          ++ message_or error "Unknown error")%string])).

(** sync.ts 136-181 *)
Definition syncOfflineQueue : M SyncResult :=
  OfflineStorage.cleanupOldQueueItems env 24 ;;
  OfflineStorage.deduplicateQueue env ;;
  queue <- OfflineStorage.getPrioritizedQueue env ;;
  conflicts <- OfflineStorage.detectConflicts env ;;
  t <- forEachM drainItem queue (0, 0, []) ;;
  ret (result_of t).

(** sync.ts 288-328 *)
Definition syncProductsWithConflictResolution (serverProducts : list Row)
  : M unit :=
  cachedProducts <- OfflineStorage.getCachedProducts env ;;
  let localProducts :=
    match cachedProducts with Some c => cd_data c | None => [] end in
  let lastSync :=
    match cachedProducts with Some c => cd_lastUpdated c | None => 0%Z end in
  let conflicts :=
    loggedConflicts false lastSync localProducts serverProducts in
  OfflineStorage.cacheProducts env
    (resolvedProducts localProducts serverProducts).

(** sync.ts 331-381 *)
Definition syncSalesWithConflictResolution (serverSales : list Row)
  : M unit :=
  cachedSales <- OfflineStorage.getCachedSales env ;;
  let localSales :=
    match cachedSales with Some c => cd_data c | None => [] end in
  let lastSync :=
    match cachedSales with Some c => cd_lastUpdated c | None => 0%Z end in
  let conflicts := loggedConflicts true lastSync localSales serverSales in
  OfflineStorage.cacheSales env (resolvedSales localSales serverSales).

(** One [try { .. } catch { failedItems++; errors.push(..) }] block of
    sync.ts 239-277; [pull] returns the number of rows it stored. *)
Definition pullBlock (what : string) (pull : M nat) (t : Tally) : M Tally :=
  let '(syncedItems, failedItems, errors) := t in
  try_catch
    (n <- pull ;; ret (syncedItems + n, failedItems, errors))
    (fun error =>
       ret (syncedItems, S failedItems,
            errors ++ [("Failed to sync " ++ what ++ ": "
                        ++ message_or error "Unknown error")%string])).

(** sync.ts 234-285 *)
Definition syncFromServer : M SyncResult :=
  t1 <- pullBlock "products"
          (products <- Service_getAll all_products ;;
           syncProductsWithConflictResolution products ;;
           ret (List.length products)) (0, 0, []) ;;
  t2 <- pullBlock "sales"
          (sales <- Service_getAll all_sales ;;
           syncSalesWithConflictResolution sales ;;
           ret (List.length sales)) t1 ;;
  t3 <- pullBlock "sellers"
          (sellers <- Service_getAll all_sellers ;;
           OfflineStorage.cacheSellers env sellers ;;
           ret (List.length sellers)) t2 ;;
  t4 <- pullBlock "categories"
          (categories <- Service_getAll all_categories ;;
           OfflineStorage.cacheCategories env categories ;;
           ret (List.length categories)) t3 ;;
  ret (result_of t4).

(** sync.ts 101-133.  The [catch] sees the locals as they are when the
    exception arrives: untouched if the drain threw, holding the drain's
    figures if the pull threw. *)
Definition performSync : M SyncResult :=
  try_catch
    (queueResult <- syncOfflineQueue ;;
     let synced1 := 0 + syncedItems queueResult in
     let failed1 := 0 + failedItems queueResult in
     let errors1 := [] ++ errors queueResult in
     try_catch
       (cacheResult <- syncFromServer ;;
        let synced2 := synced1 + syncedItems cacheResult in
        let failed2 := failed1 + failedItems cacheResult in
        let errors2 := errors1 ++ errors cacheResult in
        ret (mkResult (Nat.eqb failed2 0) synced2 failed2 errors2))
       (fun error =>
          ret (mkResult false synced1 (failed1 + 1)
                 (errors1 ++ [message_or error "Sync error"]))))
    (fun error =>
       ret (mkResult false 0 (0 + 1) ([] ++ [message_or error "Sync error"]))).

Definition already_in_progress : SyncResult :=
  mkResult false 0 0 ["Sync already in progress"].

Definition device_offline : SyncResult :=
  mkResult false 0 0 ["Device is offline"].

(** sync.ts 63-97: what runs once the two guards have been passed and
    [syncInProgress] has been set. *)
Definition syncCycle : M SyncResult :=
  finally
    (try_catch
       (uiStore_setLoading true ;;
        result <- performSync ;;
        now <- Date_now ;;
        OfflineStorage.setSyncStatus env
          (mkStatus now true (failedItems result)) ;;
        uiStore_setLoading false ;;
        (if success result then
           uiStore_showToast
             ("Synced " ++ string_of_nat (syncedItems result)
              ++ " items successfully")%string "success"
         else if Nat.ltb 0 (failedItems result) then
           uiStore_showToast
             (string_of_nat (failedItems result)
              ++ " items failed to sync")%string "warning"
         else ret tt) ;;
        ret result)
       (fun error =>
          uiStore_setLoading false ;;
          uiStore_showToast "Sync failed" "error" ;;
          ret (mkResult false 0 0 [message_or error "Unknown sync error"])))
    (with_syncInProgress false).

(** sync.ts 39-98 *)
Definition syncAll : M SyncResult :=
  w <- get_world ;;
  if syncInProgress w then ret already_in_progress
  else if negb (isOnline w) then ret device_offline
  else
    modify (with_syncInProgress true) ;;
    syncCycle.

(** sync.ts 384-402 *)
Definition queueOperation (table : Table) (type : OpType) (data : Payload)
  : M unit :=
  w <- get_world ;;
  if isOnline w then
    try_catch
      (processQueueItem table type data)
      (fun error =>
         OfflineStorage.addToQueue env table type data None ;;
         throw error)
  else
    OfflineStorage.addToQueue env table type data None.

(** sync.ts 405-424 *)
Definition getCachedData (table : Table) : M (list Row) :=
  w <- get_world ;;
  if isOnline w then ret []
  else
    match table with
    | products =>
        productsCache <- OfflineStorage.getCachedProducts env ;;
        ret (match productsCache with Some c => cd_data c | None => [] end)
    | sales =>
        salesCache <- OfflineStorage.getCachedSales env ;;
        ret (match salesCache with Some c => cd_data c | None => [] end)
    | sellers =>
        sellersCache <- OfflineStorage.getCachedSellers env ;;
        ret (match sellersCache with Some c => cd_data c | None => [] end)
    end.

(** sync.ts 427-429 *)
Definition getSyncStatus : M (option SyncStatus) :=
  OfflineStorage.getSyncStatus env.

(** sync.ts 432-434 *)
Definition forceSync : M SyncResult := syncAll.

(** sync.ts 437-440 *)
Definition clearOfflineData : M unit :=
  OfflineStorage.clearAllCache env ;;
  OfflineStorage.clearQueue env.

(** sync.ts 443-446 *)
Definition getPendingOperationsCount : M nat :=
  queue <- OfflineStorage.getQueue env ;;
  ret (List.length queue).

(** The body of the loop of sync.ts 455-464. *)
Definition retryItem (item : OfflineQueueItem) (t : Tally) : M Tally :=
  let '(syncedItems, failedItemsCount, errors) := t in
  try_catch
    (processQueueItem (q_table item) (q_type item) (q_data item) ;;
     OfflineStorage.removeFromQueue env (q_id item) ;;
     ret (S syncedItems, failedItemsCount, errors))
    (fun error =>
       ret (syncedItems, S failedItemsCount,
            errors ++ [("Failed to retry " ++ OpType_str (q_type item)
                        ++ " " ++ Table_str (q_table item) ++ ": "
                        ++ message_or error "Unknown error")%string])).

(** sync.ts 449-472 *)
Definition retryFailedOperations : M SyncResult :=
  failedItems <- OfflineStorage.getFailedItems env ;;
  t <- forEachM retryItem failedItems (0, 0, []) ;;
  ret (result_of t).
End WithEnv.
End SyncService.

(** ** The background triggers (backgroundSync.ts) *)

Inductive BackgroundFetchResult := NoData | NewData | Failed.

Module BackgroundSyncService.
Section WithEnv.
Variable env : Env.

(** backgroundSync.ts 9-40: the task registered under ['background-sync']. *)
Definition backgroundTask : M BackgroundFetchResult :=
  try_catch
    (pendingCount <- SyncService.getPendingOperationsCount env ;;
     syncStatus <- OfflineStorage.getSyncStatus env ;;
     shouldSync <-
       (if Nat.ltb 0 pendingCount then ret true
        else
          match syncStatus with
          | Some s =>
              now <- Date_now ;;
              ret (now - lastSync s >? 30 * 60 * 1000)%Z
          | None => ret false
          end) ;;
     if negb shouldSync then ret NoData
     else
       result <- SyncService.syncAll env ;;
       if success result then ret NewData else ret Failed)
    (fun _ => ret Failed).

(** backgroundSync.ts 136-167 *)
Definition smartSync : M unit :=
  try_catch
    (isOnline <- SyncService.checkOnlineStatus env ;;
     pendingCount <- SyncService.getPendingOperationsCount env ;;
     if negb isOnline then ret tt
     else if Nat.ltb 0 pendingCount then
       SyncService.syncAll env ;; ret tt
     else
       syncStatus <- OfflineStorage.getSyncStatus env ;;
       stale <-
         match syncStatus with
         | Some s =>
             now <- Date_now ;;
             ret (now - lastSync s >? 2 * 60 * 60 * 1000)%Z
         | None => ret true
         end ;;
       if stale then SyncService.syncAll env ;; ret tt
       else ret tt)
    (fun _ => ret tt).
End WithEnv.
End BackgroundSyncService.

(** ** Programs over the service: calls, runs and reachable worlds *)

Definition exec {A} (m : M A) (w : World) : World := snd (m w).

Definition result {A} (m : M A) (w : World) : Outcome A := fst (m w).

(** The public entry points of [SyncService]. *)
Inductive Call :=
  | call_initialize
  | call_checkOnlineStatus
  | call_syncAll
  | call_queueOperation (table : Table) (type : OpType) (data : Payload)
  | call_getCachedData (table : Table)
  | call_getSyncStatus
  | call_forceSync
  | call_clearOfflineData
  | call_getPendingOperationsCount
  | call_retryFailedOperations.

Definition run (env : Env) (c : Call) (w : World) : World :=
  match c with
  | call_initialize => exec (SyncService.initialize) w
  | call_checkOnlineStatus => exec (SyncService.checkOnlineStatus env) w
  | call_syncAll => exec (SyncService.syncAll env) w
  | call_queueOperation t o d => exec (SyncService.queueOperation env t o d) w
  | call_getCachedData t => exec (SyncService.getCachedData env t) w
  | call_getSyncStatus => exec (SyncService.getSyncStatus env) w
  | call_forceSync => exec (SyncService.forceSync env) w
  | call_clearOfflineData => exec (SyncService.clearOfflineData env) w
  | call_getPendingOperationsCount =>
      exec (SyncService.getPendingOperationsCount env) w
  | call_retryFailedOperations =>
      exec (SyncService.retryFailedOperations env) w
  end.

(** The worlds a process can be in.  Besides whole calls, a sync cycle may
    be suspended on an [await] after it has set its guard (other calls then
    run before it resumes); code outside the service writes the storage
    through [OfflineStorage] and [AsyncStorage]; and time passes. *)
Inductive reachable (env : Env) : World -> Prop :=
  | reach_boot : forall d t, reachable env (boot d t)
  | reach_call : forall c w, reachable env w -> reachable env (run env c w)
  | reach_enter : forall w,
      reachable env w -> syncInProgress w = false -> isOnline w = true ->
      reachable env (with_syncInProgress true w)
  | reach_resume : forall w,
      reachable env w -> syncInProgress w = true ->
      reachable env (exec (SyncService.syncCycle env) w)
  | reach_disk : forall d w, reachable env w -> reachable env (with_disk d w)
  | reach_tick : forall t w,
      reachable env w -> (clock w <= t)%Z -> reachable env (with_clock t w).

(** [n] drains in a row, discarding their results. *)
Fixpoint drains (env : Env) (n : nat) (w : World) : World :=
  match n with
  | O => w
  | S n' => drains env n' (exec (SyncService.syncOfflineQueue env) w)
  end.

(** ** Observations on the log and on the storage *)

Definition Table_eqb (a b : Table) : bool :=
  match a, b with
  | products, products | sales, sales | sellers, sellers => true
  | _, _ => false
  end.

Definition OpType_eqb (a b : OpType) : bool :=
  match a, b with
  | create, create | update, update | delete, delete => true
  | _, _ => false
  end.

Definition option_string_eqb (a b : option string) : bool :=
  match a, b with
  | Some x, Some y => String.eqb x y
  | None, None => true
  | _, _ => false
  end.

Definition Payload_eqb (a b : Payload) : bool :=
  option_string_eqb (p_id a) (p_id b)
  && option_string_eqb (p_name a) (p_name b)
  && String.eqb (p_fields a) (p_fields b).

(** The event is the remote write that carries out the queue item. *)
Definition is_attempt_of (item : OfflineQueueItem) (e : Event) : bool :=
  match e with
  | ApiWrite t o d =>
      Table_eqb t (q_table item) && OpType_eqb o (q_type item)
      && Payload_eqb d (q_data item)
  | _ => false
  end.

(** How often the item has been attempted against the remote interface. *)
Definition attempts (item : OfflineQueueItem) (tr : list Event) : nat :=
  List.length (filter (is_attempt_of item) tr).

Definition is_status_write (e : Event) : bool :=
  match e with
  | StorageSet SYNC_STATUS_KEY => true
  | _ => false
  end.

(** How often the persisted [SyncStatus] has been written. *)
Definition status_writes (w : World) : nat :=
  List.length (filter is_status_write (trace w)).

Definition stored_queue (w : World) : list OfflineQueueItem :=
  match queue_slot (disk w) with
  | Some q => q
  | None => []
  end.

Definition cached_rows (slot : AsyncStorage -> option CachedData) (w : World)
  : list Row :=
  match slot (disk w) with
  | Some c => cd_data c
  | None => []
  end.

(** The slot that caches a tracked table. *)
Definition cache_of (t : Table) : AsyncStorage -> option CachedData :=
  match t with
  | products => products_slot
  | sales => sales_slot
  | sellers => sellers_slot
  end.

(** A temporary, locally minted identity that is still pending. *)
Definition pending_local_create (r : Row) : bool :=
  startsWith (r_id r) "temp_" && status_is r "pending".

(** [a] stands somewhere in front of [b] in [l]. *)
Definition precedes {A} (a b : A) (l : list A) : Prop :=
  exists l1 l2 l3, l = l1 ++ a :: l2 ++ b :: l3.

Definition has_key (k : string) (item : OfflineQueueItem) : bool :=
  String.eqb (dedupKey item) k.

(** The items that are the last of their key in the queue, in queue order. *)
Fixpoint last_of_key (queue : list OfflineQueueItem) : list OfflineQueueItem :=
  match queue with
  | [] => []
  | item :: rest =>
      if existsb (has_key (dedupKey item)) rest then last_of_key rest
      else item :: last_of_key rest
  end.

(** The order [prioritized] promises: priority band first (critical, high,
    normal, low; none counts as normal), then older first. *)
Definition rank (item : OfflineQueueItem) : Z :=
  priorityOrder (priority_or_normal (q_priority item)).

Definition goes_before (a b : OfflineQueueItem) : Prop :=
  (rank a < rank b)%Z
  \/ (rank a = rank b /\ (q_timestamp a <= q_timestamp b)%Z).

(** Collaborators that always work; [remote_down] rejects every write. *)
Definition calm_env : Env :=
  mkEnv (fun _ _ _ _ => None) (fun _ _ => inr [])
        (fun _ _ => None) (fun _ _ => None) (fun _ _ => None)
        (fun _ => Some (Some true, Some true)).

Definition remote_down : Env :=
  mkEnv (fun _ _ _ _ => Some (ErrorObj "Network request failed"))
        (fun _ _ => inl (ErrorObj "Network request failed"))
        (fun _ _ => None) (fun _ _ => None) (fun _ _ => None)
        (fun _ => Some (Some false, Some false)).

(** The most recent item of a key by [timestamp]; among equally recent
    ones, the one enqueued last. *)
Fixpoint latest (k : string) (queue : list OfflineQueueItem)
  : option OfflineQueueItem :=
  match queue with
  | [] => None
  | item :: rest =>
      if has_key k item then
        match latest k rest with
        | Some later =>
            if (q_timestamp item >? q_timestamp later)%Z then Some item
            else Some later
        | None => Some item
        end
      else latest k rest
  end.

(** [seen] once the loop of [deduplicateQueue] has visited the queue. *)
Definition seen_of (queue : list OfflineQueueItem) : JsMap.t OfflineQueueItem :=
  fold_right (fun item seen => dedup_visit seen item) JsMap.empty queue.

Definition oldest_first (a b : OfflineQueueItem) : Prop :=
  (q_timestamp a <= q_timestamp b)%Z.

(** ** Sample data *)

Definition update_A_x : OfflineQueueItem :=
  mkItem "products_update_1000_0.0" update products
    (mkPayload (Some "A") None "x") 1000 0 (Some normal).

Definition update_A_y : OfflineQueueItem :=
  mkItem "products_update_2000_0.1" update products
    (mkPayload (Some "A") None "y") 2000 0 (Some normal).

Definition update_B : OfflineQueueItem :=
  mkItem "products_update_1500_0.2" update products
    (mkPayload (Some "B") None "z") 1500 0 (Some normal).

Definition world_with_queue (q : list OfflineQueueItem) : World :=
  boot (with_queue (Some q) empty_storage) 5000.

Definition create_widget : OfflineQueueItem :=
  mkItem "products_create_1000_0.0" create products
    (mkPayload None None "sku=W-1") 1000 0 (Some normal).

Definition create_gadget : OfflineQueueItem :=
  mkItem "products_create_2000_0.1" create products
    (mkPayload None None "sku=G-7") 2000 0 (Some normal).

Definition low_item : OfflineQueueItem :=
  mkItem "products_update_1000_0.0" update products
    (mkPayload (Some "p1") None "") 1000 0 (Some low).

Definition critical_item : OfflineQueueItem :=
  mkItem "sales_create_2000_0.1" create sales
    (mkPayload None None "total=50") 2000 0 (Some critical).

Definition normal_item : OfflineQueueItem :=
  mkItem "sellers_update_3000_0.2" update sellers
    (mkPayload (Some "s1") None "") 3000 0 (Some normal).


(** ** Auxiliary definitions for the statements *)

(** A method [preserves] a property of the world when the world it leaves
    satisfies it whenever the world it found did. *)
Definition preserves (I : World -> Prop) {A} (m : M A) : Prop :=
  forall w, I w -> I (exec m w).

(** A key is free, for events [quiet] and keys [writable], when it may be
    set and removed. *)
Definition free (quiet : Event -> bool) (writable : StorageKey -> bool)
  (k : StorageKey) : Prop :=
  writable k = true /\ quiet (StorageSet k) = true
  /\ quiet (StorageRemove k) = true.

Definition is_status_key (k : StorageKey) : bool :=
  match k with
  | SYNC_STATUS_KEY => true
  | _ => false
  end.

(** The world in which [performSync] starts inside a cycle entered from [w],
    and the one in which it ends. *)
Definition cycle_start (w : World) : World :=
  emit (UiSetLoading true) (with_syncInProgress true w).

Definition cycle_pulled (env : Env) (w : World) : World :=
  exec (SyncService.performSync env) (cycle_start w).

(** The toast that closes a cycle whose [try] block ran to its end. *)
Definition toast_of (r : SyncResult) (w : World) : World :=
  if success r then
    emit (UiShowToast ("Synced " ++ string_of_nat (syncedItems r)
                       ++ " items successfully")%string "success") w
  else if Nat.ltb 0 (failedItems r) then
    emit (UiShowToast (string_of_nat (failedItems r)
                       ++ " items failed to sync")%string "warning") w
  else w.

(** Storage that takes every write but the one of the sync status. *)
Definition status_write_rejected : Env :=
  mkEnv (fun _ _ _ _ => None) (fun _ _ => inr [])
        (fun _ _ => None)
        (fun _ k => if is_status_key k
                    then Some (ErrorObj "database or disk is full")
                    else None)
        (fun _ _ => None)
        (fun _ => Some (Some true, Some true)).

(** A seller kept locally under a temporary identity. *)
Definition temp_seller : Row :=
  mkRow "temp_1700000000002" None 1700000000002 "full_name=Ana".

(** An optimistic sale with a temporary identity (salesStore.ts). *)
Definition temp_sale : Row :=
  mkRow "temp_1700000000001" (Some "pending") 1700000000001 "total=50".

Definition server_sale : Row :=
  mkRow "7f3c" (Some "completed") 1690000000000 "total=20".

Definition product_p1 : Row :=
  mkRow "p1" None 1690000000000 "name=Gizmo".

Definition delete_p1 : OfflineQueueItem :=
  mkItem "products_delete_4000_0.0" delete products
    (mkPayload (Some "p1") None "") 4000 0 (Some normal).

(** A backend that still lists product [p1] and one completed sale. *)
Definition server_lists_p1 : Env :=
  mkEnv (fun _ _ _ _ => None)
        (fun _ c => match c with
                    | all_products => inr [product_p1]
                    | all_sales => inr [server_sale]
                    | _ => inr []
                    end)
        (fun _ _ => None) (fun _ _ => None) (fun _ _ => None)
        (fun _ => Some (Some true, Some true)).

Definition is_sales_key (k : StorageKey) : bool :=
  match k with
  | SALES_CACHE_KEY => true
  | _ => false
  end.

Definition is_queue_key (k : StorageKey) : bool :=
  match k with
  | QUEUE_KEY => true
  | _ => false
  end.

Definition is_api_write (e : Event) : bool :=
  match e with
  | ApiWrite _ _ _ => true
  | _ => false
  end.

Definition world_with_products (rows : list Row) : World :=
  boot (with_products (Some (mkCached rows 3000 1)) empty_storage) 5000.

Definition world_with_sales (rows : list Row) : World :=
  boot (with_sales (Some (mkCached rows 3000 1)) empty_storage) 5000.

(** The queue a drain iterates over: what [getPrioritizedQueue] returns
    after [cleanupOldQueueItems] and [deduplicateQueue] have run. *)
Definition drain_snapshot (w : World) : list OfflineQueueItem :=
  prioritized (deduplicated (cleanedUp (clock w) 24 (stored_queue w))).

(** update(A, x) is enqueued at time 1000 and update(A, y) at time 2000, on
    an empty queue. *)
Definition enqueued_x_then_y : World :=
  exec (OfflineStorage.addToQueue calm_env products update
          (mkPayload (Some "A") None "y") None)
    (with_clock 2000
       (exec (OfflineStorage.addToQueue calm_env products update
                (mkPayload (Some "A") None "x") None)
          (boot empty_storage 1000))).

(** Two queue items ask the remote interface for the same write. *)
Definition same_request (a b : OfflineQueueItem) : Prop :=
  q_table a = q_table b /\ q_type a = q_type b /\ q_data a = q_data b.

(** What [w] stores comes, request for request, from what [w0] stored. *)
Definition drawn_from (w0 w : World) : Prop :=
  forall y, In y (stored_queue w) ->
            exists y0, In y0 (stored_queue w0) /\ same_request y0 y.

(** ** Definitions for the further properties *)

(** The queue blob can be read and written, whatever has happened before. *)
Definition queue_store_works (env : Env) : Prop :=
  (forall tr, getItem_fault env tr QUEUE_KEY = None)
  /\ (forall tr, setItem_fault env tr QUEUE_KEY = None).

(** No call to [AsyncStorage] is ever rejected. *)
Definition storage_works (env : Env) : Prop :=
  forall tr k,
    getItem_fault env tr k = None /\ setItem_fault env tr k = None
    /\ removeItem_fault env tr k = None.

Definition has_id (itemId : string) (item : OfflineQueueItem) : bool :=
  String.eqb (q_id item) itemId.

(** A queue blob that cannot be read while writes still go through. *)
Definition queue_unreadable : Env :=
  mkEnv (fun _ _ _ _ => None) (fun _ _ => inr [])
        (fun _ k => if is_queue_key k
                    then Some (ErrorObj "Unexpected token in JSON")
                    else None)
        (fun _ _ => None) (fun _ _ => None)
        (fun _ => Some (Some true, Some true)).

(** Storage that rejects every write of the queue. *)
Definition queue_unwritable : Env :=
  mkEnv (fun _ _ _ _ => None) (fun _ _ => inr [])
        (fun _ _ => None)
        (fun _ k => if is_queue_key k
                    then Some (ErrorObj "database or disk is full")
                    else None)
        (fun _ _ => None)
        (fun _ => Some (Some true, Some true)).

(** Two items the comparator of [getPrioritizedQueue] cannot tell apart. *)
Definition ties_with (a x : OfflineQueueItem) : bool :=
  (rank x =? rank a)%Z && (q_timestamp x =? q_timestamp a)%Z.

Definition old_item : OfflineQueueItem :=
  mkItem "products_update_0_0.7" update products
    (mkPayload (Some "C") None "old") 0 0 (Some normal).

Definition twin_of_B : OfflineQueueItem :=
  mkItem "sales_update_1500_0.9" update sales
    (mkPayload (Some "S") None "twin") 1500 0 None.

(** The world in which the loop of a drain starts: the queue has been cleaned
    up and deduplicated, each with one write. *)
Definition drain_start (w : World) : World :=
  emit (StorageSet QUEUE_KEY)
    (emit (StorageSet QUEUE_KEY)
       (with_disk
          (with_queue
             (Some (deduplicated (cleanedUp (clock w) 24 (stored_queue w))))
             (disk w)) w)).

(** The remote interface accepts every write. *)
Definition remote_accepts (env : Env) : Prop :=
  forall tr table type data, api_write env tr table type data = None.

Definition within_retry_bound (item : OfflineQueueItem) : Prop :=
  q_retryCount item <= MAX_RETRY_COUNT.

(** Every stored item is within the retry bound. *)
Definition queue_within_bound (w : World) : Prop :=
  Forall within_retry_bound (stored_queue w).

Definition not_queue_key (k : StorageKey) : bool := negb (is_queue_key k).

Definition any_event (e : Event) : bool := true.

(** The remote write an item asks for. *)
Definition request_of (item : OfflineQueueItem) : Event :=
  ApiWrite (q_table item) (q_type item) (q_data item).

(** The remote writes of a log, newest first. *)
Definition writes_sent (w : World) : list Event :=
  filter is_api_write (trace w).

Definition not_api_write (e : Event) : bool := negb (is_api_write e).

Definition any_key (k : StorageKey) : bool := true.

Definition exhausted (item : OfflineQueueItem) : bool :=
  negb (shouldRetryItem item).

Definition exhausted_A : OfflineQueueItem :=
  mkItem "products_update_1000_0.1" update products
    (mkPayload (Some "A") None "x") 1000 3 (Some normal).

(** The cache a collection is pulled into, and the name it has in the error
    messages of [syncFromServer]. *)
Definition key_of (c : Collection) : StorageKey :=
  match c with
  | all_products => PRODUCTS_CACHE_KEY
  | all_sales => SALES_CACHE_KEY
  | all_sellers => SELLERS_CACHE_KEY
  | all_categories => CATEGORIES_CACHE_KEY
  end.

Definition slot_of (c : Collection) : AsyncStorage -> option CachedData :=
  match c with
  | all_products => products_slot
  | all_sales => sales_slot
  | all_sellers => sellers_slot
  | all_categories => categories_slot
  end.

Definition collection_name (c : Collection) : string :=
  match c with
  | all_products => "products"
  | all_sales => "sales"
  | all_sellers => "sellers"
  | all_categories => "categories"
  end.

(** The body of the [try] block of [syncFromServer] for a collection. *)
Definition fetch (env : Env) (c : Collection) : M nat :=
  match c with
  | all_products =>
      products <- SyncService.Service_getAll env all_products ;;
      SyncService.syncProductsWithConflictResolution env products ;;
      ret (List.length products)
  | all_sales =>
      sales <- SyncService.Service_getAll env all_sales ;;
      SyncService.syncSalesWithConflictResolution env sales ;;
      ret (List.length sales)
  | all_sellers =>
      sellers <- SyncService.Service_getAll env all_sellers ;;
      OfflineStorage.cacheSellers env sellers ;;
      ret (List.length sellers)
  | all_categories =>
      categories <- SyncService.Service_getAll env all_categories ;;
      OfflineStorage.cacheCategories env categories ;;
      ret (List.length categories)
  end.

(** The rows a pull hands to the cache of a collection. *)
Definition merged (c : Collection) (localRows serverRows : list Row)
  : list Row :=
  match c with
  | all_products => resolvedProducts localRows serverRows
  | all_sales => resolvedSales localRows serverRows
  | _ => serverRows
  end.

Definition is_api_read (e : Event) : bool :=
  match e with
  | ApiGetAll _ => true
  | _ => false
  end.

(** The remote reads of a log, newest first. *)
Definition reads_sent (w : World) : list Event :=
  filter is_api_read (trace w).

Definition not_api_read (e : Event) : bool := negb (is_api_read e).

Definition Collection_eqb (a b : Collection) : bool :=
  match a, b with
  | all_products, all_products | all_sales, all_sales
  | all_sellers, all_sellers | all_categories, all_categories => true
  | _, _ => false
  end.

Definition not_key_of (c : Collection) (k : StorageKey) : bool :=
  match c, k with
  | all_products, PRODUCTS_CACHE_KEY | all_sales, SALES_CACHE_KEY
  | all_sellers, SELLERS_CACHE_KEY
  | all_categories, CATEGORIES_CACHE_KEY => false
  | _, _ => true
  end.

(** A backend whose product and sale lists cannot be fetched. *)
Definition products_and_sales_down : Env :=
  mkEnv (fun _ _ _ _ => None)
        (fun _ c => match c with
                    | all_sellers => inr [temp_seller]
                    | all_categories => inr []
                    | _ => inl (ErrorObj "Network request failed")
                    end)
        (fun _ _ => None) (fun _ _ => None) (fun _ _ => None)
        (fun _ => Some (Some true, Some true)).

(** What the loading indicator shows after a log: the latest
    [setLoading], if there was one. *)
Fixpoint loading (tr : list Event) : option bool :=
  match tr with
  | [] => None
  | UiSetLoading b :: _ => Some b
  | _ :: tr' => loading tr'
  end.

(** A backend that lists one product and one sale and accepts every write. *)
Definition rows_of_server_lists_p1 (c : Collection) : list Row :=
  match c with
  | all_products => [product_p1]
  | all_sales => [server_sale]
  | _ => []
  end.

(** A remote interface that is down over storage that rejects every write
    of the queue. *)
Definition remote_down_queue_unwritable : Env :=
  mkEnv (fun _ _ _ _ => Some (ErrorObj "Network request failed"))
        (fun _ _ => inl (ErrorObj "Network request failed"))
        (fun _ _ => None)
        (fun _ k => if is_queue_key k
                    then Some (ErrorObj "database or disk is full")
                    else None)
        (fun _ _ => None)
        (fun _ => Some (Some false, Some false)).

Definition Priority_eqb (a b : Priority) : bool :=
  match a, b with
  | low, low | normal, normal | high, high | critical, critical => true
  | _, _ => false
  end.

(** What a counting record holds under a key that was bumped [n] times:
    nothing at all when [n] is 0. *)
Definition counted (n : nat) : option nat :=
  if Nat.eqb n 0 then None else Some n.

Definition count_where (p : OfflineQueueItem -> bool)
  (queue : list OfflineQueueItem) : nat :=
  List.length (filter p queue).

Definition has_priority (p : Priority) (item : OfflineQueueItem) : bool :=
  Priority_eqb (priority_or_normal (q_priority item)) p.

Definition has_type (o : OpType) (item : OfflineQueueItem) : bool :=
  OpType_eqb (q_type item) o.

Definition has_table (t : Table) (item : OfflineQueueItem) : bool :=
  Table_eqb (q_table item) t.

(** The cut-off of [cleanupOldCache]. *)
Definition cache_cutoff (w : World) (daysOld : Z) : Z :=
  (clock w - daysOld * 24 * 60 * 60 * 1000)%Z.

(** Products cached 10 days ago and sellers cached just now. *)
Definition world_with_old_products : World :=
  boot (with_sellers (Some (mkCached [temp_seller] 864000000 1))
          (with_products (Some (mkCached [product_p1] 0 1)) empty_storage))
    864000000.

(** What the background task finds due: the sync is older than 30 minutes. *)
Definition background_due (w : World) : bool :=
  match status_slot (disk w) with
  | Some s => (clock w - lastSync s >? 30 * 60 * 1000)%Z
  | None => false
  end.

(** What [smartSync] finds stale: no sync yet, or one older than 2 hours. *)
Definition smart_stale (w : World) : bool :=
  match status_slot (disk w) with
  | Some s => (clock w - lastSync s >? 2 * 60 * 60 * 1000)%Z
  | None => true
  end.

Definition outcome_of (r : SyncResult) : BackgroundFetchResult :=
  if success r then NewData else Failed.

(** ** Identity, in the words of the specification

    The identity a payload addresses: its id; without an id, its name;
    without both, ['unknown'].  An empty string is no id and no name.
    ([dedupKey] is what the code computes.) *)
Definition identity_of (d : Payload) : string :=
  match p_id d with
  | Some (String c s) => String c s
  | _ =>
      match p_name d with
      | Some (String c s) => String c s
      | _ => "unknown"
      end
  end.

(** The item is an operation on identity [i] of table [t]. *)
Definition addresses (t : Table) (i : string) (item : OfflineQueueItem)
  : bool :=
  Table_eqb (q_table item) t && String.eqb (identity_of (q_data item)) i.

(** A third update of [A], and the creation of a product that is named
    [A]. *)
Definition update_A_z : OfflineQueueItem :=
  mkItem "products_update_2500_0.2" update products
    (mkPayload (Some "A") None "z") 2500 0 (Some normal).

Definition create_named_A : OfflineQueueItem :=
  mkItem "products_create_3000_0.2" create products
    (mkPayload None (Some "A") "price=5") 3000 0 (Some normal).

(** ** The states the application reaches

    Besides the public methods of [SyncService], the application calls two
    queue methods of [OfflineStorage] directly (the hook [useOffline]),
    refreshes three caches from the server (productsStore.ts 150-159,
    salesStore.ts 152-161, [loadCategories]), and runs the two background
    entry points.  Its other calls only read the storage.  The stores keep
    their optimistic rows, the ones with a [temp_] id, in their own state
    and never hand them to a cache. *)

Definition cache_rows (env : Env) (c : Collection) (rows : list Row)
  : M unit :=
  match c with
  | all_products => OfflineStorage.cacheProducts env rows
  | all_sales => OfflineStorage.cacheSales env rows
  | all_sellers => OfflineStorage.cacheSellers env rows
  | all_categories => OfflineStorage.cacheCategories env rows
  end.

(** A store's refresh: the rows of a remote read go to the cache. *)
Definition refresh (env : Env) (c : Collection) : M unit :=
  rows <- SyncService.Service_getAll env c ;;
  cache_rows env c rows.

Inductive AppCall :=
  | app_service (c : Call)
  | app_cleanupQueue (hoursOld : Z)
  | app_deduplicateQueue
  | app_fetchProducts
  | app_fetchSales
  | app_loadCategories
  | app_smartSync
  | app_backgroundTask.

Definition app_run (env : Env) (a : AppCall) (w : World) : World :=
  match a with
  | app_service c => run env c w
  | app_cleanupQueue hoursOld =>
      exec (OfflineStorage.cleanupOldQueueItems env hoursOld) w
  | app_deduplicateQueue => exec (OfflineStorage.deduplicateQueue env) w
  | app_fetchProducts => exec (refresh env all_products) w
  | app_fetchSales => exec (refresh env all_sales) w
  | app_loadCategories => exec (refresh env all_categories) w
  | app_smartSync => exec (BackgroundSyncService.smartSync env) w
  | app_backgroundTask => exec (BackgroundSyncService.backgroundTask env) w
  end.

(** The process starts again: the statics of sync.ts 17-18 are back at
    their initial values and the storage is what it was.  The log is kept:
    it is the history of the installation, not a part of the process. *)
Definition restart (w : World) : World :=
  mkWorld (disk w) true false (clock w) (seed w) (trace w).

(** From a fresh installation: calls of the application, the passing of
    time, restarts, and cycles of [syncAll] that other calls find suspended
    after the guard has been set or between the drain and the pull.
    ([reachable] lets anything be written to the storage from outside the
    service; here the writes from outside are the ones the application
    makes.) *)
Inductive served (env : Env) : World -> Prop :=
  | served_install : forall t, served env (boot empty_storage t)
  | served_call : forall a w, served env w -> served env (app_run env a w)
  | served_tick : forall t w,
      served env w -> (clock w <= t)%Z -> served env (with_clock t w)
  | served_restart : forall w, served env w -> served env (restart w)
  | served_enter : forall w,
      served env w -> syncInProgress w = false ->
      served env (with_syncInProgress true w)
  | served_drained : forall w,
      served env w -> syncInProgress w = true ->
      served env
        (exec (SyncService.syncOfflineQueue env)
           (emit (UiSetLoading true) w))
  | served_resume : forall w,
      served env w -> syncInProgress w = true ->
      served env (exec (SyncService.syncCycle env) w).

(** Every stored item has been sent to the remote interface at least
    once. *)
Definition attempted (w : World) : Prop :=
  isOnline w = true
  /\ Forall (fun item => 1 <= attempts item (trace w)) (stored_queue w).

(** The remote interface has answered a read with this row, at some point
    of the log. *)
Definition delivered (env : Env) (tr : list Event) (row : Row) : Prop :=
  exists newer older c rows,
    tr = newer ++ ApiGetAll c :: older
    /\ api_getAll env older c = inr rows
    /\ In row rows.

(** Every row of every cache is one the remote interface delivered. *)
Definition caches_delivered (env : Env) (w : World) : Prop :=
  forall c row,
    In row (cached_rows (slot_of c) w) -> delivered env (trace w) row.

Definition is_cache_key (k : StorageKey) : bool :=
  match k with
  | QUEUE_KEY | SYNC_STATUS_KEY => false
  | _ => true
  end.

Definition not_cache_key (k : StorageKey) : bool := negb (is_cache_key k).

(** A backend that lists product [p1] and rejects every write. *)
Definition lists_p1_rejects_writes : Env :=
  mkEnv (fun _ _ _ _ => Some (ErrorObj "Network request failed"))
        (fun _ c => match c with
                    | all_products => inr [product_p1]
                    | _ => inr []
                    end)
        (fun _ _ => None) (fun _ _ => None) (fun _ _ => None)
        (fun _ => Some (Some true, Some true)).

(** A backend that lists product [p1] the first time it is read and no
    product afterwards. *)
Definition server_forgets_p1 : Env :=
  mkEnv (fun _ _ _ _ => None)
        (fun tr c => match c with
                     | all_products =>
                         if existsb is_api_read tr then inr []
                         else inr [product_p1]
                     | _ => inr []
                     end)
        (fun _ _ => None) (fun _ _ => None) (fun _ _ => None)
        (fun _ => Some (Some true, Some true)).

(** Three operations on products are refused by the remote interface and
    queued, at times 1000, 2000 and 3000: two updates of product [A], then
    the creation of a product that is named [A]. *)
Definition queued_updates_then_named_create : World :=
  run remote_down
    (call_queueOperation products create (mkPayload None (Some "A") "price=5"))
    (with_clock 3000
       (run remote_down
          (call_queueOperation products update (mkPayload (Some "A") None "y"))
          (with_clock 2000
             (run remote_down
                (call_queueOperation products update
                   (mkPayload (Some "A") None "x"))
                (boot empty_storage 1000))))).

(** Two sales, which have neither an id nor a name, are refused and queued
    at times 1000 and 2000. *)
Definition queued_two_sales : World :=
  run remote_down
    (call_queueOperation sales create (mkPayload None None "total=20"))
    (with_clock 2000
       (run remote_down
          (call_queueOperation sales create (mkPayload None None "total=50"))
          (boot empty_storage 1000))).

(** * Properties *)

(** ** Running a sequence *)

Lemma exec_bind_Ok A B (m : M A) (k : A -> M B) w a w1 :
  m w = (Ok a, w1) -> exec (bind m k) w = exec (k a) w1.
Proof. intros H. unfold exec, bind. now rewrite H. Qed.

Lemma exec_bind_ret A B (m : M A) (f : A -> B) w :
  exec (bind m (fun a => ret (f a))) w = exec m w.
Proof. unfold exec, bind, ret. now destruct (m w) as [[a|e] w']. Qed.

(** ** The insertion-ordered map *)

Module JsMapFacts.
Section Facts.
Variable V : Type.
Implicit Types (m : JsMap.t V) (k : string) (v : V).

Lemma get_set_same k v m : JsMap.get k (JsMap.set k v m) = Some v.
Proof.
  induction m as [|[k' v'] m IH]; simpl.
  - now rewrite String.eqb_refl.
  - destruct (String.eqb k k') eqn:E; simpl; rewrite E; auto.
Qed.

Lemma get_set_other k k' v m :
  k <> k' -> JsMap.get k' (JsMap.set k v m) = JsMap.get k' m.
Proof.
  intros Hne. induction m as [|[k0 v0] m IH]; simpl.
  - destruct (String.eqb_spec k' k); congruence.
  - destruct (String.eqb_spec k k0); simpl.
    + subst k0. destruct (String.eqb_spec k' k); congruence.
    + now rewrite IH.
Qed.

Lemma has_keys k m : JsMap.has k m = true <-> In k (JsMap.keys m).
Proof.
  unfold JsMap.has. induction m as [|[k' v'] m IH]; simpl.
  - split; [discriminate | tauto].
  - destruct (String.eqb_spec k k').
    + subst. tauto.
    + rewrite IH. split; [tauto | intros [H|H]; congruence].
Qed.

Lemma set_fresh k v m :
  JsMap.has k m = false -> JsMap.set k v m = m ++ [(k, v)].
Proof.
  unfold JsMap.has. induction m as [|[k' v'] m IH]; simpl; auto.
  destruct (String.eqb k k'); [discriminate|].
  intros H. now rewrite IH.
Qed.

Lemma keys_set_present k v m :
  JsMap.has k m = true -> JsMap.keys (JsMap.set k v m) = JsMap.keys m.
Proof.
  unfold JsMap.has, JsMap.keys. induction m as [|[k' v'] m IH]; simpl.
  - discriminate.
  - destruct (String.eqb k k'); simpl; auto.
    intros H. now rewrite IH.
Qed.

Lemma get_In k v m : JsMap.get k m = Some v -> In (k, v) m.
Proof.
  induction m as [|[k' v'] m IH]; simpl; [discriminate|].
  destruct (String.eqb_spec k k').
  - intros [= ->]. subst. now left.
  - intros H. right. auto.
Qed.
End Facts.
End JsMapFacts.

(** ** [deduplicateQueue] *)

Lemma deduplicated_seen_of queue :
  deduplicated queue = JsMap.values (seen_of queue).
Proof.
  unfold deduplicated, seen_of. f_equal.
  pose proof (fold_left_rev_right
                (fun item seen => dedup_visit seen item) (rev queue)
                JsMap.empty) as H.
  rewrite rev_involutive in H. symmetry. exact H.
Qed.

Lemma has_key_true k item : has_key k item = true <-> dedupKey item = k.
Proof. unfold has_key. apply String.eqb_eq. Qed.

(** What [seen] holds under a key is the latest item of that key. *)
Lemma get_seen_of k queue : JsMap.get k (seen_of queue) = latest k queue.
Proof.
  induction queue as [|item rest IH]; simpl; auto.
  unfold dedup_visit, JsMap.has. unfold has_key.
  destruct (String.eqb_spec (dedupKey item) k) as [<-|Hne].
  - rewrite <- IH.
    destruct (JsMap.get (dedupKey item) (seen_of rest)) as [later|] eqn:E;
      simpl.
    + destruct (q_timestamp item >? q_timestamp later)%Z; auto.
      apply JsMapFacts.get_set_same.
    + apply JsMapFacts.get_set_same.
  - rewrite <- IH.
    destruct (JsMap.get (dedupKey item) (seen_of rest)) as [later|] eqn:E;
      simpl.
    + destruct (q_timestamp item >? q_timestamp later)%Z; auto.
      now apply JsMapFacts.get_set_other.
    + now apply JsMapFacts.get_set_other.
Qed.

Lemma latest_None k queue :
  latest k queue = None <-> existsb (has_key k) queue = false.
Proof.
  induction queue as [|item rest IH]; simpl; [tauto|].
  destruct (has_key k item); simpl; auto.
  destruct (latest k rest) as [later|].
  - destruct (q_timestamp item >? q_timestamp later)%Z; split; discriminate.
  - split; discriminate.
Qed.

Lemma has_seen_of k queue :
  JsMap.has k (seen_of queue) = existsb (has_key k) queue.
Proof.
  unfold JsMap.has. rewrite get_seen_of.
  destruct (latest k queue) eqn:E.
  - destruct (existsb (has_key k) queue) eqn:E'; auto.
    apply latest_None in E'. congruence.
  - apply latest_None in E. now rewrite E.
Qed.

Lemma latest_key k queue item : latest k queue = Some item -> dedupKey item = k.
Proof.
  revert item. induction queue as [|x rest IH]; simpl; [discriminate|].
  intros item. destruct (has_key k x) eqn:Hk.
  - apply has_key_true in Hk.
    destruct (latest k rest) as [later|].
    + destruct (q_timestamp x >? q_timestamp later)%Z; intros [= <-]; auto.
    + intros [= <-]; auto.
  - auto.
Qed.

Lemma latest_In k queue item : latest k queue = Some item -> In item queue.
Proof.
  revert item. induction queue as [|x rest IH]; simpl; [discriminate|].
  intros item. destruct (has_key k x).
  - destruct (latest k rest) as [later|].
    + destruct (q_timestamp x >? q_timestamp later)%Z; intros [= <-]; auto.
    + intros [= <-]; auto.
  - auto.
Qed.

(** No item of the key is more recent than the latest. *)
Lemma latest_newest k queue item :
  latest k queue = Some item ->
  forall other, In other queue -> dedupKey other = k ->
  (q_timestamp other <= q_timestamp item)%Z.
Proof.
  revert item. induction queue as [|x rest IH]; simpl; [discriminate|].
  intros item Hl other [<-|Hin] Hk.
  - apply has_key_true in Hk. rewrite Hk in Hl.
    destruct (latest k rest) as [later|].
    + destruct (q_timestamp x >? q_timestamp later)%Z eqn:E; injection Hl as <-; lia.
    + injection Hl as <-. lia.
  - destruct (has_key k x).
    + destruct (latest k rest) as [later|] eqn:El.
      * specialize (IH later eq_refl other Hin Hk).
        destruct (q_timestamp x >? q_timestamp later)%Z eqn:E; injection Hl as <-; lia.
      * apply latest_None in El.
        assert (existsb (has_key k) rest = true) as Hex.
        { apply existsb_exists. exists other. split; auto. now apply has_key_true. }
        congruence.
    + eauto.
Qed.

(** Every entry of [seen] is filed under its own key. *)
Lemma seen_of_entries queue k item :
  In (k, item) (seen_of queue) -> dedupKey item = k /\ In item queue.
Proof.
  revert k item. induction queue as [|x rest IH]; simpl; [tauto|].
  intros k item. unfold dedup_visit.
  assert (forall m, (forall k i, In (k, i) m -> dedupKey i = k /\ In i rest) ->
            In (k, item) (JsMap.set (dedupKey x) x m) ->
            dedupKey item = k /\ (x = item \/ In item rest)) as Hset.
  { clear. induction m as [|[k0 v0] m IHm]; simpl; intros Hm.
    - intros [[= <- <-]|[]]. auto.
    - destruct (String.eqb_spec (dedupKey x) k0).
      + intros [[= <- <-]|Hin]; auto.
        destruct (Hm k item) as [? ?]; auto.
      + intros [[= <- <-]|Hin].
        * destruct (Hm k0 v0) as [? ?]; auto.
        * apply IHm; auto. }
  destruct (JsMap.has (dedupKey x) (seen_of rest)); simpl.
  - destruct (JsMap.get (dedupKey x) (seen_of rest)) as [existing|].
    + destruct (q_timestamp x >? q_timestamp existing)%Z.
      * apply Hset, IH.
      * intros H. destruct (IH _ _ H). auto.
    + intros H. destruct (IH _ _ H). auto.
  - apply Hset, IH.
Qed.

Lemma keys_seen_of queue :
  JsMap.keys (seen_of queue) = rev (map dedupKey (last_of_key queue)).
Proof.
  induction queue as [|x rest IH]; simpl; auto.
  unfold dedup_visit. rewrite <- has_seen_of.
  destruct (JsMap.has (dedupKey x) (seen_of rest)) eqn:Hh; simpl.
  - destruct (JsMap.get (dedupKey x) (seen_of rest)) as [existing|]; auto.
    destruct (q_timestamp x >? q_timestamp existing)%Z; auto.
    now rewrite JsMapFacts.keys_set_present.
  - rewrite JsMapFacts.set_fresh by assumption.
    unfold JsMap.keys in *. rewrite map_app, IH. reflexivity.
Qed.

Lemma last_of_key_In item queue : In item (last_of_key queue) -> In item queue.
Proof.
  induction queue as [|x rest IH]; simpl; auto.
  destruct (existsb (has_key (dedupKey x)) rest); simpl; tauto.
Qed.

Lemma NoDup_keys_last_of_key queue : NoDup (map dedupKey (last_of_key queue)).
Proof.
  induction queue as [|x rest IH]; simpl; [constructor|].
  destruct (existsb (has_key (dedupKey x)) rest) eqn:E; auto.
  simpl. constructor; auto.
  intros Hin. apply in_map_iff in Hin as (y & Hy & Hin).
  apply last_of_key_In in Hin.
  assert (existsb (has_key (dedupKey x)) rest = true); [|congruence].
  apply existsb_exists. exists y. split; auto. now apply has_key_true.
Qed.

Lemma NoDup_keys_seen_of queue : NoDup (JsMap.keys (seen_of queue)).
Proof.
  rewrite keys_seen_of. apply NoDup_rev, NoDup_keys_last_of_key.
Qed.

(** In a map whose entries are filed under their own keys, without
    duplicate keys, the values of key [k] are the one [get] finds. *)
Lemma filter_values k (m : JsMap.t OfflineQueueItem) :
  NoDup (JsMap.keys m) ->
  (forall k' i, In (k', i) m -> dedupKey i = k') ->
  filter (has_key k) (JsMap.values m)
  = match JsMap.get k m with Some i => [i] | None => [] end.
Proof.
  induction m as [|[k0 v0] m IH]; simpl; auto.
  intros Hnd Hm. inversion Hnd as [|? ? Hnotin Hnd']; subst.
  assert (dedupKey v0 = k0) as Hk0 by (apply Hm; auto).
  unfold has_key at 1. rewrite Hk0.
  rewrite (String.eqb_sym k0 k).
  destruct (String.eqb_spec k k0) as [->|Hne].
  - f_equal.
    assert (JsMap.get k0 m = None) as Hg.
    { destruct (JsMap.get k0 m) eqn:E; auto.
      apply JsMapFacts.get_In in E. exfalso. apply Hnotin.
      apply in_map_iff. exists (k0, o). auto. }
    rewrite IH, Hg; auto.
  - apply IH; auto.
Qed.

(** What is left of a key after deduplication: its latest item alone. *)
Lemma filter_deduplicated k queue :
  filter (has_key k) (deduplicated queue)
  = match latest k queue with Some i => [i] | None => [] end.
Proof.
  rewrite deduplicated_seen_of, <- get_seen_of.
  apply filter_values.
  - apply NoDup_keys_seen_of.
  - intros k' i H. now apply seen_of_entries in H.
Qed.

Lemma latest_app_skip k l1 l2 :
  existsb (has_key k) l1 = false -> latest k (l1 ++ l2) = latest k l2.
Proof.
  induction l1 as [|x l1 IH]; simpl; auto.
  destruct (has_key k x); simpl; [discriminate|auto].
Qed.

Lemma latest_absent k l : existsb (has_key k) l = false -> latest k l = None.
Proof. apply latest_None. Qed.

Lemma In_get (m : JsMap.t OfflineQueueItem) k item :
  NoDup (JsMap.keys m) -> In (k, item) m -> JsMap.get k m = Some item.
Proof.
  induction m as [|[k0 v0] m IH]; simpl; [tauto|].
  intros Hnd [[= -> ->]|Hin].
  - now rewrite String.eqb_refl.
  - inversion Hnd as [|? ? Hnotin Hnd']; subst.
    destruct (String.eqb_spec k k0) as [->|Hne]; auto.
    exfalso. apply Hnotin. apply in_map_iff. exists (k0, item). auto.
Qed.

(** Every item that survives deduplication was queued and is the most recent
    of its key. *)
Lemma deduplicated_most_recent queue item :
  In item (deduplicated queue) ->
  In item queue
  /\ forall other, In other queue -> dedupKey other = dedupKey item ->
                   (q_timestamp other <= q_timestamp item)%Z.
Proof.
  rewrite deduplicated_seen_of. unfold JsMap.values.
  intros Hin. apply in_map_iff in Hin as ([k i] & Hi & Hin).
  simpl in Hi. subst i.
  pose proof (seen_of_entries _ _ _ Hin) as [Hk Hq].
  split; auto.
  apply (@In_get _ _ _ (NoDup_keys_seen_of queue)) in Hin.
  rewrite get_seen_of in Hin. subst k.
  intros other Ho Hko. eapply latest_newest; eauto.
Qed.

(** ** Runs of the storage primitives *)

Section StorageRuns.
Variable env : Env.

Lemma getQueue_run w :
  OfflineStorage.getQueue env w
  = (Ok (match getItem_fault env (trace w) QUEUE_KEY with
         | Some _ => []
         | None => stored_queue w
         end), w).
Proof.
  unfold OfflineStorage.getQueue, try_catch, bind, OfflineStorage.getItem,
    stored_queue, ret.
  destruct (getItem_fault env (trace w) QUEUE_KEY); reflexivity.
Qed.

Lemma deduplicateQueue_run w :
  getItem_fault env (trace w) QUEUE_KEY = None ->
  setItem_fault env (trace w) QUEUE_KEY = None ->
  stored_queue (exec (OfflineStorage.deduplicateQueue env) w)
  = deduplicated (stored_queue w).
Proof.
  intros Hg Hs.
  unfold exec, OfflineStorage.deduplicateQueue, try_catch, bind.
  rewrite getQueue_run, Hg. unfold OfflineStorage.setItem. rewrite Hs.
  reflexivity.
Qed.

Lemma getPrioritizedQueue_run w :
  OfflineStorage.getPrioritizedQueue env w
  = (Ok (prioritized (match getItem_fault env (trace w) QUEUE_KEY with
                      | Some _ => []
                      | None => stored_queue w
                      end)), w).
Proof.
  unfold OfflineStorage.getPrioritizedQueue, bind.
  now rewrite getQueue_run.
Qed.
End StorageRuns.

(** The key of the code is the table with the identity. *)
Lemma dedupKey_identity item :
  dedupKey item
  = (Table_str (q_table item) ++ "_" ++ identity_of (q_data item))%string.
Proof.
  unfold dedupKey, js_or_default, js_or, identity_of.
  destruct (p_id (q_data item)) as [[|c s]|];
    destruct (p_name (q_data item)) as [[|c' s']|]; reflexivity.
Qed.

Lemma has_key_addresses t i item :
  has_key (Table_str t ++ "_" ++ i)%string item = addresses t i item.
Proof.
  unfold has_key, addresses. rewrite dedupKey_identity.
  destruct (q_table item), t; reflexivity.
Qed.

Lemma filter_addresses t i queue :
  filter (addresses t i) (deduplicated queue)
  = match latest (Table_str t ++ "_" ++ i)%string queue with
    | Some item => [item]
    | None => []
    end.
Proof.
  rewrite <- filter_deduplicated. apply filter_ext.
  intros item. now rewrite has_key_addresses.
Qed.

Lemma latest_present k queue item :
  In item queue -> has_key k item = true ->
  exists survivor, latest k queue = Some survivor.
Proof.
  intros Hin Hk.
  destruct (latest k queue) as [v|] eqn:E; eauto.
  apply latest_None in E.
  assert (existsb (has_key k) queue = true); [|congruence].
  apply existsb_exists. eauto.
Qed.

(** The item that no item of its key supersedes. *)
Lemma latest_unsuperseded k l1 y l2 :
  has_key k y = true ->
  (forall z, In z l1 -> has_key k z = true ->
             (q_timestamp z <= q_timestamp y)%Z) ->
  (forall z, In z l2 -> has_key k z = true ->
             (q_timestamp z < q_timestamp y)%Z) ->
  latest k (l1 ++ y :: l2) = Some y.
Proof.
  intros Hy Hbefore Hafter.
  assert (latest k (y :: l2) = Some y) as Hyl.
  { simpl. rewrite Hy.
    destruct (latest k l2) as [later|] eqn:E; [|reflexivity].
    pose proof (latest_In _ _ E) as Hin.
    pose proof (latest_key _ _ E) as Hkey.
    apply has_key_true in Hkey. specialize (Hafter _ Hin Hkey).
    destruct (q_timestamp y >? q_timestamp later)%Z eqn:G; [reflexivity|].
    lia. }
  induction l1 as [|z l1 IH]; [exact Hyl|].
  simpl. rewrite IH by (intros; apply Hbefore; auto; now right).
  destruct (has_key k z) eqn:Hz; [|reflexivity].
  assert (q_timestamp z <= q_timestamp y)%Z as Hle
    by (apply Hbefore; auto; now left).
  destruct (q_timestamp z >? q_timestamp y)%Z eqn:G; [lia|reflexivity].
Qed.

(** C5 as the code has it: when a queue that can be read and written back
    holds two updates of one table and one id, [deduplicateQueue] stores
    exactly one item that addresses that identity: the most recent by
    timestamp of all queued items that address it, the ones without an id
    whose name is that id among them.  It is the later update [y] when no
    item addressing the identity is more recent than [y] or as recent and
    enqueued after it. *)
Theorem deduplicateQueue_keeps_most_recent :
  forall env w front middle back x y i,
    getItem_fault env (trace w) QUEUE_KEY = None ->
    setItem_fault env (trace w) QUEUE_KEY = None ->
    stored_queue w = front ++ x :: middle ++ y :: back ->
    q_type x = update -> q_type y = update ->
    q_table x = q_table y ->
    p_id (q_data x) = Some i -> p_id (q_data y) = Some i -> i <> "" ->
    let stored := stored_queue (exec (OfflineStorage.deduplicateQueue env) w) in
    exists survivor,
      filter (addresses (q_table y) i) stored = [survivor]
      /\ In survivor (stored_queue w)
      /\ (forall z, In z (stored_queue w) ->
                    addresses (q_table y) i z = true ->
                    (q_timestamp z <= q_timestamp survivor)%Z)
      /\ ((forall z, In z (front ++ x :: middle) ->
                     addresses (q_table y) i z = true ->
                     (q_timestamp z <= q_timestamp y)%Z) ->
          (forall z, In z back ->
                     addresses (q_table y) i z = true ->
                     (q_timestamp z < q_timestamp y)%Z) ->
          survivor = y).
Proof.
  intros env w front middle back x y i Hg Hs Hq _ _ Htab Hx Hy Hi stored.
  subst stored. rewrite deduplicateQueue_run by assumption.
  assert (identity_of (q_data y) = i) as Hident.
  { unfold identity_of. rewrite Hy. destruct i; [now destruct Hi|reflexivity]. }
  assert (addresses (q_table y) i y = true) as Hay.
  { unfold addresses. rewrite Hident, String.eqb_refl.
    now destruct (q_table y). }
  assert (In y (stored_queue w)) as Hin.
  { rewrite Hq. apply in_or_app. right. right.
    apply in_or_app. right. now left. }
  rewrite filter_addresses.
  destruct (@latest_present (Table_str (q_table y) ++ "_" ++ i)%string
              (stored_queue w) y Hin) as [v Hv].
  { now rewrite has_key_addresses. }
  rewrite Hv. exists v. split; [reflexivity|].
  split; [eapply latest_In; eauto|]. split.
  - intros z Hz Haz. eapply latest_newest; eauto.
    apply has_key_true. now rewrite has_key_addresses.
  - intros Hbefore Hafter.
    assert (latest (Table_str (q_table y) ++ "_" ++ i)%string (stored_queue w)
            = Some y) as Hl.
    { rewrite Hq.
      change (front ++ x :: middle ++ y :: back)
        with (front ++ (x :: middle) ++ y :: back).
      rewrite app_assoc. apply latest_unsuperseded.
      - now rewrite has_key_addresses.
      - intros z Hz Hk. apply Hbefore; auto.
        now rewrite <- has_key_addresses.
      - intros z Hz Hk. apply Hafter; auto.
        now rewrite <- has_key_addresses. }
    congruence.
Qed.

(** Three updates of [A]: the last one is the one stored. *)
Lemma deduplicateQueue_keeps_most_recent_witness :
  filter (addresses products "A")
    (stored_queue
       (exec (OfflineStorage.deduplicateQueue calm_env)
          (world_with_queue [update_A_x; update_A_y; update_A_z])))
  = [update_A_z].
Proof.
  destruct (@deduplicateQueue_keeps_most_recent calm_env
              (world_with_queue [update_A_x; update_A_y; update_A_z])
              [] [update_A_y] [] update_A_x update_A_z "A"
              eq_refl eq_refl eq_refl eq_refl eq_refl eq_refl eq_refl eq_refl)
    as (survivor & Hf & _ & _ & Hy).
  - discriminate.
  - change (q_table update_A_z) with products in Hf.
    rewrite Hf. f_equal. apply Hy.
    + intros z [<-|[<-|[]]] _; simpl; lia.
    + intros z [].
Defined.

(** C5 as stated fails: two updates of product [A] are followed by the
    creation of a product whose name is [A]; the creation is all that
    [deduplicateQueue] leaves, and neither update of [A] is queued any
    more. *)
Lemma deduplicateQueue_drops_update_for_named_create :
  let w := queued_updates_then_named_create in
  let stored :=
    stored_queue (exec (OfflineStorage.deduplicateQueue remote_down) w) in
  stored_queue w = [update_A_x; update_A_y; create_named_A]
  /\ q_type update_A_x = update /\ q_type update_A_y = update
  /\ q_table update_A_x = products /\ q_table update_A_y = products
  /\ p_id (q_data update_A_x) = Some "A"
  /\ p_id (q_data update_A_y) = Some "A"
  /\ (q_timestamp update_A_x < q_timestamp update_A_y)%Z
  /\ stored = [create_named_A]
  /\ ~ In update_A_y stored
  /\ filter (fun item => OpType_eqb (q_type item) update) stored = [].
Proof.
  cbv zeta.
  assert (stored_queue
            (exec (OfflineStorage.deduplicateQueue remote_down)
               queued_updates_then_named_create)
          = [create_named_A]) as -> by reflexivity.
  repeat split. intros [H|[]]. discriminate H.
Qed.

(** C6 as the code has it: [deduplicateQueue] stores the survivors in the
    reverse of queue order.  Their keys come out in the reverse of the order
    in which the keys last occur in the queue; and when timestamps do not
    decrease along the queue, the stored queue is the list of last items per
    key, reversed. *)
Theorem deduplicateQueue_reverses_survivors :
  forall env w,
    getItem_fault env (trace w) QUEUE_KEY = None ->
    setItem_fault env (trace w) QUEUE_KEY = None ->
    let stored := stored_queue (exec (OfflineStorage.deduplicateQueue env) w) in
    map dedupKey stored = rev (map dedupKey (last_of_key (stored_queue w)))
    /\ (StronglySorted oldest_first (stored_queue w) ->
        stored = rev (last_of_key (stored_queue w))).
Proof.
  intros env w Hg Hs stored. subst stored.
  rewrite deduplicateQueue_run by assumption.
  generalize (stored_queue w) as queue. clear. intros queue. split.
  - rewrite deduplicated_seen_of, <- keys_seen_of.
    pose proof (seen_of_entries queue) as He.
    unfold JsMap.keys, JsMap.values.
    induction (seen_of queue) as [|[k i] m IH]; simpl; auto.
    f_equal.
    + now apply He; left.
    + apply IH. intros. apply He. now right.
  - intros Hsorted. rewrite deduplicated_seen_of.
    induction queue as [|x rest IH]; simpl; auto.
    inversion Hsorted as [|? ? Hrest Hx]; subst.
    unfold dedup_visit. rewrite <- has_seen_of.
    destruct (JsMap.has (dedupKey x) (seen_of rest)) eqn:Hh; simpl.
    + destruct (JsMap.get (dedupKey x) (seen_of rest)) as [existing|] eqn:E;
        auto.
      apply JsMapFacts.get_In, seen_of_entries in E as [_ Hin].
      rewrite Forall_forall in Hx. specialize (Hx _ Hin).
      unfold oldest_first in Hx.
      destruct (q_timestamp x >? q_timestamp existing)%Z eqn:Ets; [lia|auto].
    + rewrite JsMapFacts.set_fresh by assumption.
      unfold JsMap.values in *. rewrite map_app, IH by assumption.
      reflexivity.
Qed.

(** On the queue update(A, x), update(B), update(A, y) the stored queue is
    update(A, y), update(B). *)
Lemma deduplicateQueue_reverses_survivors_witness :
  let w := world_with_queue [update_A_x; update_B; update_A_y] in
  stored_queue (exec (OfflineStorage.deduplicateQueue calm_env) w)
  = rev (last_of_key (stored_queue w)).
Proof.
  intros w.
  apply (@deduplicateQueue_reverses_survivors calm_env w eq_refl eq_refl).
  repeat constructor; unfold oldest_first; simpl; lia.
Defined.

(** C6 as stated fails: two items of different keys both survive and come
    out in the opposite order. *)
Lemma deduplicateQueue_reorders :
  let w := world_with_queue [update_A_x; update_B] in
  let stored := stored_queue (exec (OfflineStorage.deduplicateQueue calm_env) w) in
  precedes update_A_x update_B (stored_queue w)
  /\ dedupKey update_A_x <> dedupKey update_B
  /\ In update_A_x stored /\ In update_B stored
  /\ stored = [update_B; update_A_x]
  /\ ~ precedes update_A_x update_B stored.
Proof.
  cbv zeta.
  assert (stored_queue
            (exec (OfflineStorage.deduplicateQueue calm_env)
               (world_with_queue [update_A_x; update_B]))
          = [update_B; update_A_x]) as E by reflexivity.
  rewrite E. repeat split.
  - exists [], [], []. reflexivity.
  - discriminate.
  - simpl; auto.
  - simpl; auto.
  - intros (l1 & l2 & l3 & H).
    destruct l1 as [|z1 [|z2 l1]]; simpl in H.
    + discriminate H.
    + injection H as _ H. destruct l2; discriminate H.
    + injection H as _ _ H. destruct l1; discriminate H.
Qed.



(** ** [getPrioritizedQueue] *)

Section SortFacts.
Variable A : Type.
Variable cmp : A -> A -> Z.
Variable R : A -> A -> Prop.
Hypothesis R_le : forall x y, (cmp x y <=? 0)%Z = true -> R x y.
Hypothesis R_gt : forall x y, (cmp x y <=? 0)%Z = false -> R y x.
Hypothesis R_trans : forall x y z, R x y -> R y z -> R x z.

Lemma sort_insert_perm x l : Permutation (x :: l) (sort_insert cmp x l).
Proof.
  induction l as [|y l IH]; simpl; auto.
  destruct (cmp x y <=? 0)%Z; auto.
  etransitivity; [apply perm_swap|]. now constructor.
Qed.

Lemma Array_sort_perm l : Permutation l (Array_sort cmp l).
Proof.
  induction l as [|x l IH]; simpl; auto.
  etransitivity; [|apply sort_insert_perm]. now constructor.
Qed.

Lemma sort_insert_sorted x l :
  StronglySorted R l -> StronglySorted R (sort_insert cmp x l).
Proof.
  induction l as [|y l IH]; simpl; intros Hs.
  - repeat constructor.
  - inversion Hs as [|? ? Hl Hy]; subst.
    destruct (cmp x y <=? 0)%Z eqn:E.
    + constructor; auto. constructor; [now apply R_le|].
      eapply Forall_impl; [|exact Hy]. intros z Hz.
      eapply R_trans; [apply R_le|]; eauto.
    + constructor; auto.
      eapply Permutation_Forall; [apply sort_insert_perm|].
      constructor; auto.
Qed.

Lemma Array_sort_sorted l : StronglySorted R (Array_sort cmp l).
Proof.
  induction l as [|x l IH]; simpl; [constructor|].
  now apply sort_insert_sorted.
Qed.
End SortFacts.

Lemma compareItems_le a b :
  (compareItems a b <=? 0)%Z = true -> goes_before a b.
Proof.
  unfold compareItems, goes_before, rank. intros H.
  apply Z.leb_le in H.
  destruct (priorityOrder (priority_or_normal (q_priority a))
            - priorityOrder (priority_or_normal (q_priority b)) =? 0)%Z eqn:E;
    simpl in H.
  - apply Z.eqb_eq in E. right. lia.
  - apply Z.eqb_neq in E. left. lia.
Qed.

Lemma compareItems_gt a b :
  (compareItems a b <=? 0)%Z = false -> goes_before b a.
Proof.
  unfold compareItems, goes_before, rank. intros H.
  apply Z.leb_gt in H.
  destruct (priorityOrder (priority_or_normal (q_priority a))
            - priorityOrder (priority_or_normal (q_priority b)) =? 0)%Z eqn:E;
    simpl in H.
  - apply Z.eqb_eq in E. right. lia.
  - apply Z.eqb_neq in E. left. lia.
Qed.

Lemma goes_before_trans a b c :
  goes_before a b -> goes_before b c -> goes_before a c.
Proof. unfold goes_before. lia. Qed.

(** C7: [getPrioritizedQueue] returns the stored items, each exactly once,
    ordered by priority band (critical, high, normal, low; no priority
    counts as normal) and oldest first within a band; and items of priority
    low, critical, normal enqueued in that order come out as critical,
    normal, low. *)
Theorem getPrioritizedQueue_ordered :
  forall env w,
    getItem_fault env (trace w) QUEUE_KEY = None ->
    exists queue,
      OfflineStorage.getPrioritizedQueue env w = (Ok queue, w)
      /\ Permutation (stored_queue w) queue
      /\ StronglySorted goes_before queue
      /\ (forall lo cr no,
            stored_queue w = [lo; cr; no] ->
            q_priority lo = Some low ->
            q_priority cr = Some critical ->
            q_priority no = Some normal ->
            queue = [cr; no; lo]).
Proof.
  intros env w Hg. exists (prioritized (stored_queue w)).
  rewrite getPrioritizedQueue_run, Hg. repeat split.
  - apply Array_sort_perm.
  - apply Array_sort_sorted with (R := goes_before);
      eauto using compareItems_le, compareItems_gt, goes_before_trans.
  - intros lo cr no -> Hlo Hcr Hno.
    assert ((compareItems cr no <=? 0)%Z = true) as Hcn
      by (unfold compareItems; now rewrite Hcr, Hno).
    assert ((compareItems lo cr <=? 0)%Z = false) as Hlc
      by (unfold compareItems; now rewrite Hlo, Hcr).
    assert ((compareItems lo no <=? 0)%Z = false) as Hln
      by (unfold compareItems; now rewrite Hlo, Hno).
    unfold prioritized, Array_sort. cbn [fold_right sort_insert].
    rewrite Hcn. cbn [sort_insert]. now rewrite Hlc, Hln.
Qed.

(** Items of priority low, critical, normal, enqueued in that order. *)
Lemma getPrioritizedQueue_ordered_witness :
  exists queue,
    OfflineStorage.getPrioritizedQueue calm_env
      (world_with_queue [low_item; critical_item; normal_item])
    = (Ok queue, world_with_queue [low_item; critical_item; normal_item])
    /\ queue = [critical_item; normal_item; low_item].
Proof.
  destruct (@getPrioritizedQueue_ordered calm_env
              (world_with_queue [low_item; critical_item; normal_item])
              eq_refl) as (queue & Hrun & _ & _ & Hex).
  exists queue. split; [exact Hrun|].
  apply Hex; reflexivity.
Defined.

(** ** Frame rules: what the service's methods leave alone

    [I] is any property of the world that survives the emission of the
    [quiet] events, writes to the [writable] keys and draws from the random
    source. *)

Create HintDb frame.

Section Frame.
Variable env : Env.
Variable I : World -> Prop.
Variable quiet : Event -> bool.
Variable writable : StorageKey -> bool.

Hypothesis I_emit : forall e w, quiet e = true -> I w -> I (emit e w).
Hypothesis I_write :
  forall k (v : option (Blob k)) w,
    writable k = true -> I w -> I (with_disk (write k v (disk w)) w).
Hypothesis I_seed : forall n w, I w -> I (with_seed n w).

Lemma preserves_ret A (a : A) : preserves I (ret a).
Proof. intros w Hw. exact Hw. Qed.

Lemma preserves_throw A e : preserves I (@throw A e).
Proof. intros w Hw. exact Hw. Qed.

Lemma preserves_get_world : preserves I get_world.
Proof. intros w Hw. exact Hw. Qed.

Lemma preserves_Date_now : preserves I Date_now.
Proof. intros w Hw. exact Hw. Qed.

Lemma preserves_Math_random : preserves I Math_random.
Proof. intros w Hw. now apply I_seed. Qed.

Lemma preserves_bind A B (m : M A) (k : A -> M B) :
  preserves I m -> (forall a, preserves I (k a)) -> preserves I (bind m k).
Proof.
  intros Hm Hk w Hw. specialize (Hm w Hw).
  unfold exec, bind in *. destruct (m w) as [[a|e] w']; simpl in *; auto.
  now apply Hk.
Qed.

Lemma preserves_try_catch A (m : M A) (h : Thrown -> M A) :
  preserves I m -> (forall e, preserves I (h e)) -> preserves I (try_catch m h).
Proof.
  intros Hm Hh w Hw. specialize (Hm w Hw).
  unfold exec, try_catch in *. destruct (m w) as [[a|e] w']; simpl in *; auto.
  now apply Hh.
Qed.

Lemma preserves_finally A (m : M A) (f : World -> World) :
  preserves I m -> (forall w, I w -> I (f w)) -> preserves I (finally m f).
Proof.
  intros Hm Hf w Hw. specialize (Hm w Hw).
  unfold exec, finally in *. destruct (m w) as [r w']; simpl in *. auto.
Qed.

Lemma preserves_forEachM A S (body : A -> S -> M S) l :
  (forall x s, preserves I (body x s)) ->
  forall s, preserves I (forEachM body l s).
Proof.
  intros Hb. induction l as [|x l IH]; intros s; simpl.
  - apply preserves_ret.
  - apply preserves_bind; auto.
Qed.

Lemma preserves_Promise_all ms :
  Forall (fun m => preserves I m) ms -> preserves I (Promise_all ms).
Proof.
  induction 1 as [|m ms Hm _ IH]; intros w Hw; simpl.
  - exact Hw.
  - specialize (Hm w Hw). unfold exec in *. simpl.
    destruct (m w) as [[a|e] w']; simpl in *; now apply IH.
Qed.

Lemma preserves_emit e : quiet e = true -> preserves I (modify (emit e)).
Proof. intros He w Hw. now apply I_emit. Qed.

Lemma preserves_getItem k : preserves I (OfflineStorage.getItem env k).
Proof.
  intros w Hw. unfold exec, OfflineStorage.getItem.
  now destruct (getItem_fault env (trace w) k).
Qed.

Lemma preserves_setItem k v :
  free quiet writable k -> preserves I (OfflineStorage.setItem env k v).
Proof.
  intros (Hk & He & _) w Hw. unfold exec, OfflineStorage.setItem.
  destruct (setItem_fault env (trace w) k); simpl; auto.
Qed.

Lemma preserves_removeItem k :
  free quiet writable k -> preserves I (OfflineStorage.removeItem env k).
Proof.
  intros (Hk & _ & He) w Hw. unfold exec, OfflineStorage.removeItem.
  destruct (removeItem_fault env (trace w) k); simpl; auto.
Qed.

Hint Resolve preserves_ret preserves_throw preserves_get_world
  preserves_Date_now preserves_Math_random preserves_getItem
  preserves_setItem preserves_removeItem preserves_emit : frame.

(** Walks a method's body down to its primitive calls. *)
Ltac frame :=
  repeat first
    [ progress intros
    | solve [auto with frame]
    | apply preserves_bind
    | apply preserves_try_catch
    | apply preserves_forEachM
    | match goal with
      | |- preserves I (if ?b then _ else _) => destruct b
      | |- preserves I (match ?x with _ => _ end) => destruct x
      end ].

(** *** The queue *)

Section Queue.
Hypothesis free_queue : free quiet writable QUEUE_KEY.

Lemma preserves_getQueue : preserves I (OfflineStorage.getQueue env).
Proof. unfold OfflineStorage.getQueue. frame. Qed.
Hint Resolve preserves_getQueue : frame.

Lemma preserves_addToQueue t o d p :
  preserves I (OfflineStorage.addToQueue env t o d p).
Proof. unfold OfflineStorage.addToQueue. frame. Qed.

Lemma preserves_removeFromQueue i :
  preserves I (OfflineStorage.removeFromQueue env i).
Proof. unfold OfflineStorage.removeFromQueue. frame. Qed.

Lemma preserves_updateQueueItem i u :
  preserves I (OfflineStorage.updateQueueItem env i u).
Proof. unfold OfflineStorage.updateQueueItem. frame. Qed.

Lemma preserves_clearQueue : preserves I (OfflineStorage.clearQueue env).
Proof. unfold OfflineStorage.clearQueue. frame. Qed.

Lemma preserves_getFailedItems :
  preserves I (OfflineStorage.getFailedItems env).
Proof. unfold OfflineStorage.getFailedItems. frame. Qed.

Lemma preserves_getPrioritizedQueue :
  preserves I (OfflineStorage.getPrioritizedQueue env).
Proof. unfold OfflineStorage.getPrioritizedQueue. frame. Qed.

Lemma preserves_deduplicateQueue :
  preserves I (OfflineStorage.deduplicateQueue env).
Proof. unfold OfflineStorage.deduplicateQueue. frame. Qed.

Lemma preserves_cleanupOldQueueItems h :
  preserves I (OfflineStorage.cleanupOldQueueItems env h).
Proof. unfold OfflineStorage.cleanupOldQueueItems. frame. Qed.

Lemma preserves_detectConflicts :
  preserves I (OfflineStorage.detectConflicts env).
Proof. unfold OfflineStorage.detectConflicts. frame. Qed.
End Queue.

(** *** The caches and the status *)

Lemma preserves_cacheProducts rows :
  free quiet writable PRODUCTS_CACHE_KEY -> preserves I (OfflineStorage.cacheProducts env rows).
Proof. unfold OfflineStorage.cacheProducts. frame. Qed.

Lemma preserves_cacheSales rows :
  free quiet writable SALES_CACHE_KEY -> preserves I (OfflineStorage.cacheSales env rows).
Proof. unfold OfflineStorage.cacheSales. frame. Qed.

Lemma preserves_cacheSellers rows :
  free quiet writable SELLERS_CACHE_KEY -> preserves I (OfflineStorage.cacheSellers env rows).
Proof. unfold OfflineStorage.cacheSellers. frame. Qed.

Lemma preserves_cacheCategories rows :
  free quiet writable CATEGORIES_CACHE_KEY ->
  preserves I (OfflineStorage.cacheCategories env rows).
Proof. unfold OfflineStorage.cacheCategories. frame. Qed.

Lemma preserves_getCachedProducts :
  preserves I (OfflineStorage.getCachedProducts env).
Proof. unfold OfflineStorage.getCachedProducts. frame. Qed.

Lemma preserves_getCachedSales :
  preserves I (OfflineStorage.getCachedSales env).
Proof. unfold OfflineStorage.getCachedSales. frame. Qed.

Lemma preserves_getCachedSellers :
  preserves I (OfflineStorage.getCachedSellers env).
Proof. unfold OfflineStorage.getCachedSellers. frame. Qed.

Lemma preserves_setSyncStatus s :
  free quiet writable SYNC_STATUS_KEY -> preserves I (OfflineStorage.setSyncStatus env s).
Proof. unfold OfflineStorage.setSyncStatus. frame. Qed.

Lemma preserves_getSyncStatus : preserves I (OfflineStorage.getSyncStatus env).
Proof. unfold OfflineStorage.getSyncStatus. frame. Qed.

Lemma preserves_clearAllCache :
  (forall k, k <> QUEUE_KEY -> free quiet writable k) ->
  preserves I (OfflineStorage.clearAllCache env).
Proof.
  intros Hk. unfold OfflineStorage.clearAllCache.
  apply preserves_try_catch; [|frame].
  apply preserves_Promise_all.
  repeat constructor; apply preserves_removeItem, Hk; discriminate.
Qed.

Hint Resolve preserves_getQueue preserves_addToQueue
  preserves_removeFromQueue preserves_updateQueueItem preserves_clearQueue
  preserves_getFailedItems preserves_getPrioritizedQueue
  preserves_deduplicateQueue preserves_cleanupOldQueueItems
  preserves_detectConflicts preserves_cacheProducts preserves_cacheSales
  preserves_cacheSellers preserves_cacheCategories
  preserves_getCachedProducts preserves_getCachedSales
  preserves_getCachedSellers preserves_setSyncStatus
  preserves_getSyncStatus preserves_clearAllCache : frame.

(** *** The remote interface and the drain *)

Lemma preserves_ApiService_write t o d :
  quiet (ApiWrite t o d) = true ->
  preserves I (SyncService.ApiService_write env t o d).
Proof.
  intros He w Hw. unfold exec, SyncService.ApiService_write.
  destruct (api_write env (trace w) t o d); simpl; auto.
Qed.

Lemma preserves_Service_getAll c :
  quiet (ApiGetAll c) = true -> preserves I (SyncService.Service_getAll env c).
Proof.
  intros He w Hw. unfold exec, SyncService.Service_getAll.
  destruct (api_getAll env (trace w) c); simpl; auto.
Qed.

Lemma preserves_checkOnlineStatus :
  preserves I (SyncService.checkOnlineStatus env).
Proof.
  intros w Hw. unfold exec, SyncService.checkOnlineStatus.
  destruct (netInfo env (trace w)) as [[? ?]|]; simpl; auto.
Qed.

Hint Resolve preserves_ApiService_write preserves_Service_getAll
  preserves_checkOnlineStatus : frame.

Section Drain.
Hypothesis free_queue : free quiet writable QUEUE_KEY.
Hypothesis quiet_write : forall t o d, quiet (ApiWrite t o d) = true.

Lemma preserves_processQueueItem t o d :
  preserves I (SyncService.processQueueItem env t o d).
Proof. unfold SyncService.processQueueItem. frame. Qed.
Hint Resolve preserves_processQueueItem : frame.

Lemma preserves_drainItem item t :
  preserves I (SyncService.drainItem env item t).
Proof. unfold SyncService.drainItem. frame. Qed.
Hint Resolve preserves_drainItem : frame.

Lemma preserves_syncOfflineQueue :
  preserves I (SyncService.syncOfflineQueue env).
Proof. unfold SyncService.syncOfflineQueue. frame. Qed.

Lemma preserves_queueOperation t o d :
  preserves I (SyncService.queueOperation env t o d).
Proof. unfold SyncService.queueOperation. frame. Qed.

Lemma preserves_retryItem item t :
  preserves I (SyncService.retryItem env item t).
Proof. unfold SyncService.retryItem. frame. Qed.
Hint Resolve preserves_retryItem : frame.

Lemma preserves_retryFailedOperations :
  preserves I (SyncService.retryFailedOperations env).
Proof. unfold SyncService.retryFailedOperations. frame. Qed.
End Drain.

(** *** The pull *)

Section Pull.
Hypothesis quiet_read : forall c, quiet (ApiGetAll c) = true.

Lemma preserves_syncProductsWithConflictResolution rows :
  free quiet writable PRODUCTS_CACHE_KEY ->
  preserves I (SyncService.syncProductsWithConflictResolution env rows).
Proof. unfold SyncService.syncProductsWithConflictResolution. frame. Qed.

Lemma preserves_syncSalesWithConflictResolution rows :
  free quiet writable SALES_CACHE_KEY ->
  preserves I (SyncService.syncSalesWithConflictResolution env rows).
Proof. unfold SyncService.syncSalesWithConflictResolution. frame. Qed.

Hint Resolve preserves_syncProductsWithConflictResolution
  preserves_syncSalesWithConflictResolution : frame.

Lemma preserves_pullBlock what pull t :
  preserves I pull -> preserves I (SyncService.pullBlock what pull t).
Proof. intros Hp. unfold SyncService.pullBlock. frame. Qed.

Lemma preserves_syncFromServer :
  free quiet writable PRODUCTS_CACHE_KEY -> free quiet writable SALES_CACHE_KEY ->
  free quiet writable SELLERS_CACHE_KEY -> free quiet writable CATEGORIES_CACHE_KEY ->
  preserves I (SyncService.syncFromServer env).
Proof.
  intros Hp Hs Hl Hc. unfold SyncService.syncFromServer.
  repeat (apply preserves_bind; [apply preserves_pullBlock; frame|intros ?]).
  frame.
Qed.
End Pull.

(** *** A whole cycle *)

Section Cycle.
Hypothesis quiet_write : forall t o d, quiet (ApiWrite t o d) = true.
Hypothesis quiet_read : forall c, quiet (ApiGetAll c) = true.
Hypothesis quiet_ui :
  forall e, match e with
            | UiSetLoading _ | UiShowToast _ _ => quiet e = true
            | _ => True
            end.
Hypothesis free_queue : free quiet writable QUEUE_KEY.
Hypothesis free_products : free quiet writable PRODUCTS_CACHE_KEY.
Hypothesis free_sales : free quiet writable SALES_CACHE_KEY.
Hypothesis free_sellers : free quiet writable SELLERS_CACHE_KEY.
Hypothesis free_categories : free quiet writable CATEGORIES_CACHE_KEY.

Lemma preserves_performSync : preserves I (SyncService.performSync env).
Proof.
  unfold SyncService.performSync.
  apply preserves_try_catch; [|frame].
  apply preserves_bind; [now apply preserves_syncOfflineQueue|intros ?].
  apply preserves_try_catch; [|frame].
  apply preserves_bind; [now apply preserves_syncFromServer|frame].
Qed.

Lemma preserves_setLoading b :
  preserves I (SyncService.uiStore_setLoading b).
Proof. apply preserves_emit, (quiet_ui (UiSetLoading b)). Qed.

Lemma preserves_showToast m k :
  preserves I (SyncService.uiStore_showToast m k).
Proof. apply preserves_emit, (quiet_ui (UiShowToast m k)). Qed.

Hint Resolve preserves_performSync preserves_setLoading
  preserves_showToast : frame.

Hypothesis free_status : free quiet writable SYNC_STATUS_KEY.
Hypothesis I_guard : forall b w, I w -> I (with_syncInProgress b w).

Lemma preserves_syncCycle : preserves I (SyncService.syncCycle env).
Proof.
  unfold SyncService.syncCycle.
  apply preserves_finally; [|now auto]. frame.
Qed.

Lemma preserves_syncAll : preserves I (SyncService.syncAll env).
Proof.
  unfold SyncService.syncAll. frame.
  - intros w Hw. now apply I_guard.
  - apply preserves_syncCycle.
Qed.

Lemma preserves_getCachedData t :
  preserves I (SyncService.getCachedData env t).
Proof. unfold SyncService.getCachedData. frame. Qed.

Lemma preserves_clearOfflineData :
  preserves I (SyncService.clearOfflineData env).
Proof.
  unfold SyncService.clearOfflineData.
  apply preserves_bind; [|frame].
  apply preserves_clearAllCache. intros [] ?; auto.
Qed.

Lemma preserves_getPendingOperationsCount :
  preserves I (SyncService.getPendingOperationsCount env).
Proof. unfold SyncService.getPendingOperationsCount. frame. Qed.

Hypothesis I_initialize : forall w, I w -> I (with_isOnline true w).

(** Every public entry point keeps [I]. *)
Lemma preserves_run c : forall w, I w -> I (run env c w).
Proof.
  destruct c; simpl.
  - intros w Hw. now apply I_initialize.
  - apply preserves_checkOnlineStatus.
  - apply preserves_syncAll.
  - now apply preserves_queueOperation.
  - apply preserves_getCachedData.
  - apply preserves_getSyncStatus.
  - apply preserves_syncAll.
  - apply preserves_clearOfflineData.
  - apply preserves_getPendingOperationsCount.
  - now apply preserves_retryFailedOperations.
Qed.
End Cycle.
End Frame.

(** ** The guards of [syncAll] *)

(** C8: while a cycle is in progress, [syncAll] returns at once with the
    "Sync already in progress" result (no success, nothing synced, nothing
    failed) and leaves the world as it found it: no queue, cache or remote
    operation is performed. *)
Theorem syncAll_already_in_progress :
  forall env w,
    syncInProgress w = true ->
    SyncService.syncAll env w
    = (Ok (mkResult false 0 0 ["Sync already in progress"]), w).
Proof.
  intros env w Hp.
  unfold SyncService.syncAll, bind, get_world. now rewrite Hp.
Qed.

(** A second call while a cycle is in progress, the backend being down. *)
Lemma syncAll_already_in_progress_witness :
  let w := with_syncInProgress true
             (world_with_queue [update_A_x; update_B]) in
  SyncService.syncAll remote_down w
  = (Ok (mkResult false 0 0 ["Sync already in progress"]), w).
Proof.
  apply (@syncAll_already_in_progress remote_down
           (with_syncInProgress true (world_with_queue [update_A_x; update_B]))).
  reflexivity.
Defined.


(** ** The status update of a cycle *)

(** [performSync] turns every failure into a result. *)
Lemma performSync_returns env w :
  exists r, result (SyncService.performSync env) w = Ok r.
Proof.
  unfold result, SyncService.performSync.
  unfold try_catch at 1.
  match goal with
  | |- context [bind ?m ?k w] => destruct (bind m k w) as [[r|e] w']
  end; simpl; eauto.
Qed.

(** [performSync] does not write the status. *)
Lemma performSync_status_writes env w :
  status_writes (exec (SyncService.performSync env) w) = status_writes w.
Proof.
  apply preserves_performSync
    with (I := fun w' => status_writes w' = status_writes w)
         (quiet := fun e => negb (is_status_write e))
         (writable := fun _ => true).
  all: auto; try (repeat split; reflexivity).
  intros e w' He Hw'. unfold status_writes in *. simpl.
  destruct (is_status_write e); [discriminate|auto].
Qed.

Lemma performSync_status_slot env w :
  status_slot (disk (exec (SyncService.performSync env) w))
  = status_slot (disk w).
Proof.
  apply preserves_performSync
    with (I := fun w' => status_slot (disk w') = status_slot (disk w))
         (quiet := fun _ => true)
         (writable := fun k => negb (is_status_key k)).
  all: auto; try (repeat split; reflexivity).
  intros [] v w' Hk Hw'; try discriminate; exact Hw'.
Qed.

Lemma syncAll_enters env w :
  syncInProgress w = false -> isOnline w = true ->
  SyncService.syncAll env w
  = SyncService.syncCycle env (with_syncInProgress true w).
Proof.
  intros Hp Ho. unfold SyncService.syncAll, bind at 1, get_world.
  now rewrite Hp, Ho.
Qed.

Lemma syncCycle_run env w1 r w2 :
  SyncService.performSync env (emit (UiSetLoading true) w1) = (Ok r, w2) ->
  SyncService.syncCycle env w1
  = match setItem_fault env (trace w2) SYNC_STATUS_KEY with
    | None =>
        (Ok r,
         with_syncInProgress false
           (toast_of r
              (emit (UiSetLoading false)
                 (emit (StorageSet SYNC_STATUS_KEY)
                    (with_disk
                       (with_status
                          (Some (mkStatus (clock w2) true (failedItems r)))
                          (disk w2)) w2)))))
    | Some e =>
        (Ok (mkResult false 0 0 [message_or e "Unknown sync error"]),
         with_syncInProgress false
           (emit (UiShowToast "Sync failed" "error")
              (emit (UiSetLoading false) w2)))
    end.
Proof.
  intros Hrun.
  unfold SyncService.syncCycle, finally, try_catch, bind,
    SyncService.uiStore_setLoading, modify.
  rewrite Hrun.
  unfold Date_now, OfflineStorage.setSyncStatus, try_catch,
    OfflineStorage.setItem, throw.
  destruct (setItem_fault env (trace w2) SYNC_STATUS_KEY) as [e|]; simpl.
  - reflexivity.
  - unfold toast_of.
    destruct (success r); simpl; auto.
    destruct (Nat.ltb 0 (failedItems r)); reflexivity.
Qed.

Lemma status_writes_toast_of r w :
  status_writes (toast_of r w) = status_writes w.
Proof.
  unfold toast_of.
  destruct (success r); auto. destruct (Nat.ltb 0 (failedItems r)); auto.
Qed.

Lemma disk_toast_of r w : disk (toast_of r w) = disk w.
Proof.
  unfold toast_of.
  destruct (success r); auto. destruct (Nat.ltb 0 (failedItems r)); auto.
Qed.

(** C4 as the code has it.  A [syncAll] that enters a cycle runs
    [performSync], which always returns a result, and then writes the
    status once.  If storage accepts that write, the persisted status has
    been updated exactly once, with the failed-item count of the result; if
    storage rejects it, the [catch] path is taken and the persisted status
    is not updated at all. *)
Theorem syncAll_updates_status :
  forall env w,
    syncInProgress w = false ->
    isOnline w = true ->
    exists r,
      result (SyncService.performSync env) (cycle_start w) = Ok r
      /\ match setItem_fault env (trace (cycle_pulled env w)) SYNC_STATUS_KEY with
         | None =>
             result (SyncService.syncAll env) w = Ok r
             /\ status_writes (exec (SyncService.syncAll env) w)
                = S (status_writes w)
             /\ status_slot (disk (exec (SyncService.syncAll env) w))
                = Some (mkStatus (clock (cycle_pulled env w)) true
                          (failedItems r))
         | Some e =>
             result (SyncService.syncAll env) w
             = Ok (mkResult false 0 0 [message_or e "Unknown sync error"])
             /\ status_writes (exec (SyncService.syncAll env) w)
                = status_writes w
             /\ status_slot (disk (exec (SyncService.syncAll env) w))
                = status_slot (disk w)
         end.
Proof.
  intros env w Hp Ho.
  destruct (performSync_returns env (cycle_start w)) as [r Hr].
  exists r. split; [exact Hr|].
  pose proof (performSync_status_writes env (cycle_start w)) as Hn.
  pose proof (performSync_status_slot env (cycle_start w)) as Hs.
  unfold cycle_pulled, result, exec in *.
  rewrite (syncAll_enters env w Hp Ho).
  destruct (SyncService.performSync env (cycle_start w)) as [o w2] eqn:Hrun.
  simpl in Hr, Hn, Hs |- *. subst o.
  rewrite (syncCycle_run env (with_syncInProgress true w) Hrun).
  destruct (setItem_fault env (trace w2) SYNC_STATUS_KEY) as [e|]; simpl.
  - repeat split; auto.
  - repeat split.
    + unfold status_writes in *. simpl.
      change (trace (toast_of r ?x)) with (trace (toast_of r x)).
      pose proof (status_writes_toast_of r
                    (emit (UiSetLoading false)
                       (emit (StorageSet SYNC_STATUS_KEY)
                          (with_disk
                             (with_status
                                (Some (mkStatus (clock w2) true (failedItems r)))
                                (disk w2)) w2)))) as Ht.
      unfold status_writes in Ht. simpl in Ht. rewrite Ht, Hn. reflexivity.
    + now rewrite disk_toast_of.
Qed.

(** A cycle over a queue of one update with all collaborators working. *)
Lemma syncAll_updates_status_witness :
  exists r,
    result (SyncService.performSync calm_env)
      (cycle_start (world_with_queue [update_A_x])) = Ok r
    /\ result (SyncService.syncAll calm_env) (world_with_queue [update_A_x])
       = Ok r
    /\ status_writes
         (exec (SyncService.syncAll calm_env) (world_with_queue [update_A_x]))
       = 1
    /\ status_slot
         (disk (exec (SyncService.syncAll calm_env)
                  (world_with_queue [update_A_x])))
       = Some (mkStatus 5000 true (failedItems r)).
Proof.
  destruct (@syncAll_updates_status calm_env (world_with_queue [update_A_x])
              eq_refl eq_refl) as (r & Hr & H).
  exists r. split; [exact Hr|]. exact H.
Defined.

(** C4 as stated fails: a cycle is entered, the status write is rejected,
    the [catch] path returns, and the persisted status has not been
    updated. *)
Lemma syncAll_skips_status_on_catch :
  let w := world_with_queue [update_A_x] in
  let w' := exec (SyncService.syncAll status_write_rejected) w in
  syncInProgress w = false /\ isOnline w = true
  /\ trace w' <> trace w
  /\ result (SyncService.syncAll status_write_rejected) w
     = Ok (mkResult false 0 0 ["database or disk is full"])
  /\ status_writes w' = status_writes w
  /\ status_slot (disk w') = None.
Proof.
  cbv zeta. repeat split; try reflexivity.
  vm_compute. discriminate.
Qed.

(** ** The online flag *)

(** The result of [performSync] says success exactly when it counts no
    failed item. *)
Lemma performSync_consistent env w r :
  result (SyncService.performSync env) w = Ok r ->
  success r = Nat.eqb (failedItems r) 0.
Proof.
  unfold result, SyncService.performSync, try_catch, bind.
  destruct (SyncService.syncOfflineQueue env w) as [[qr|e] w1]; simpl.
  - destruct (SyncService.syncFromServer env w1) as [[cr|e] w2]; simpl;
      intros [= <-]; simpl; auto.
    now rewrite Nat.add_1_r.
  - intros [= <-]. reflexivity.
Qed.

Lemma processQueueItem_run env table type data :
  SyncService.processQueueItem env table type data
  = SyncService.ApiService_write env table type data.
Proof. now destruct table, type. Qed.

(** The online flag is an invariant of the service. *)
Lemma reachable_isOnline env w : reachable env w -> isOnline w = true.
Proof.
  induction 1 as [d t|c w _ IH|w _ IH _ _|w _ IH _|d w _ IH|t w _ IH _];
    auto.
  - revert w IH.
    apply preserves_run
      with (I := fun w => isOnline w = true)
           (quiet := fun _ => true) (writable := fun _ => true);
      auto; try (intros []; auto); repeat split.
  - revert w IH.
    apply preserves_syncCycle
      with (I := fun w => isOnline w = true)
           (quiet := fun _ => true) (writable := fun _ => true);
      auto; try (intros []; auto); repeat split.
Qed.

(** C10: in every reachable state the online flag is [true]; so
    [queueOperation] always is its attempt-first branch, which calls the
    remote interface before anything is enqueued, and [syncAll] always is
    its program without the "Device is offline" exit: it returns that very
    record only if storage rejected the status write with that message. *)
Theorem online_flag_never_cleared :
  forall env w,
    reachable env w ->
    isOnline w = true
    /\ (forall table type data,
          SyncService.queueOperation env table type data w
          = try_catch
              (SyncService.processQueueItem env table type data)
              (fun error =>
                 OfflineStorage.addToQueue env table type data None ;;
                 throw error) w
          /\ In (ApiWrite table type data)
               (trace (exec (SyncService.queueOperation env table type data) w)))
    /\ SyncService.syncAll env w
       = (if syncInProgress w
          then (Ok SyncService.already_in_progress, w)
          else SyncService.syncCycle env (with_syncInProgress true w))
    /\ (result (SyncService.syncAll env) w = Ok SyncService.device_offline ->
        exists tr,
          setItem_fault env tr SYNC_STATUS_KEY
          = Some (ErrorObj "Device is offline")).
Proof.
  intros env w Hr. pose proof (reachable_isOnline Hr) as Ho.
  split; [exact Ho|]. split.
  - intros table type data.
    assert (SyncService.queueOperation env table type data w
            = try_catch
                (SyncService.processQueueItem env table type data)
                (fun error =>
                   OfflineStorage.addToQueue env table type data None ;;
                   throw error) w) as E.
    { unfold SyncService.queueOperation, bind at 1, get_world.
      now rewrite Ho. }
    split; [exact E|].
    unfold exec. rewrite E. unfold try_catch.
    rewrite processQueueItem_run. unfold SyncService.ApiService_write.
    destruct (api_write env (trace w) table type data) as [e|]; simpl.
    + apply (@preserves_bind (fun w1 => In (ApiWrite table type data) (trace w1))).
      * apply preserves_addToQueue
          with (quiet := fun _ => true) (writable := fun _ => true);
          auto; try (repeat split).
        intros ev w1 _ Hw1. now right.
      * intros _. apply preserves_throw.
      * now left.
    + now left.
  - assert (SyncService.syncAll env w
            = (if syncInProgress w
               then (Ok SyncService.already_in_progress, w)
               else SyncService.syncCycle env (with_syncInProgress true w)))
      as E.
    { unfold SyncService.syncAll, bind, get_world. rewrite Ho.
      destruct (syncInProgress w); reflexivity. }
    split; [exact E|].
    unfold result. rewrite E.
    destruct (syncInProgress w); [discriminate|].
    destruct (performSync_returns env
                (emit (UiSetLoading true) (with_syncInProgress true w)))
      as [r Hret].
    pose proof (@performSync_consistent env
                  (emit (UiSetLoading true) (with_syncInProgress true w))
                  r Hret) as Hc.
    unfold result in Hret.
    destruct (SyncService.performSync env
                (emit (UiSetLoading true) (with_syncInProgress true w)))
      as [o w2] eqn:Hrun.
    simpl in Hret. subst o.
    rewrite (syncCycle_run env (with_syncInProgress true w) Hrun).
    destruct (setItem_fault env (trace w2) SYNC_STATUS_KEY) as [e|] eqn:Hf;
      simpl.
    + intros [= Hm]. exists (trace w2). rewrite Hf.
      destruct e as [m|]; simpl in Hm; [now subst m|discriminate Hm].
    + intros [= ->]. discriminate.
Qed.

(** After a delete was queued because the backend was down. *)
Lemma online_flag_never_cleared_witness :
  let w := run remote_down
             (call_queueOperation products delete
                (mkPayload (Some "p1") None ""))
             (boot empty_storage 4000) in
  isOnline w = true
  /\ In (ApiWrite products create (mkPayload None None "name=Gizmo"))
       (trace (exec (SyncService.queueOperation remote_down products create
                       (mkPayload None None "name=Gizmo")) w)).
Proof.
  intros w.
  destruct (@online_flag_never_cleared remote_down w
              (reach_call
                 (call_queueOperation products delete
                    (mkPayload (Some "p1") None ""))
                 (reach_boot remote_down empty_storage 4000)))
    as (Ho & Hq & _ & _).
  split; [exact Ho|].
  exact (proj2 (Hq products create (mkPayload None None "name=Gizmo"))).
Defined.

(** ** The pull *)

Lemma resolvedSales_keeps_pending localSales serverSales sale :
  In sale localSales -> pending_local_create sale = true ->
  In sale (resolvedSales localSales serverSales).
Proof.
  intros Hin Hp. unfold resolvedSales. apply in_or_app. right.
  apply filter_In. split; auto.
Qed.

Section PullRuns.
Variable env : Env.

Lemma getCachedSales_run w :
  OfflineStorage.getCachedSales env w
  = (Ok (match getItem_fault env (trace w) SALES_CACHE_KEY with
         | Some _ => None
         | None => sales_slot (disk w)
         end), w).
Proof.
  unfold OfflineStorage.getCachedSales, try_catch, OfflineStorage.getItem.
  now destruct (getItem_fault env (trace w) SALES_CACHE_KEY).
Qed.

Lemma cacheSales_run rows w :
  OfflineStorage.cacheSales env rows w
  = match setItem_fault env (trace w) SALES_CACHE_KEY with
    | Some e => (Throw e, w)
    | None =>
        (Ok tt,
         emit (StorageSet SALES_CACHE_KEY)
           (with_disk
              (with_sales (Some (mkCached rows (clock w) 1)) (disk w)) w))
    end.
Proof.
  unfold OfflineStorage.cacheSales, try_catch, bind, Date_now,
    OfflineStorage.setItem, throw.
  now destruct (setItem_fault env (trace w) SALES_CACHE_KEY).
Qed.

Lemma getCachedProducts_run w :
  OfflineStorage.getCachedProducts env w
  = (Ok (match getItem_fault env (trace w) PRODUCTS_CACHE_KEY with
         | Some _ => None
         | None => products_slot (disk w)
         end), w).
Proof.
  unfold OfflineStorage.getCachedProducts, try_catch, OfflineStorage.getItem.
  now destruct (getItem_fault env (trace w) PRODUCTS_CACHE_KEY).
Qed.

Lemma cacheProducts_run rows w :
  OfflineStorage.cacheProducts env rows w
  = match setItem_fault env (trace w) PRODUCTS_CACHE_KEY with
    | Some e => (Throw e, w)
    | None =>
        (Ok tt,
         emit (StorageSet PRODUCTS_CACHE_KEY)
           (with_disk
              (with_products (Some (mkCached rows (clock w) 1)) (disk w)) w))
    end.
Proof.
  unfold OfflineStorage.cacheProducts, try_catch, bind, Date_now,
    OfflineStorage.setItem, throw.
  now destruct (setItem_fault env (trace w) PRODUCTS_CACHE_KEY).
Qed.

(** The merge of the sales keeps every pending local sale, provided the
    cache can be read. *)
Lemma syncSales_keeps_pending serverSales sale :
  (forall tr, getItem_fault env tr SALES_CACHE_KEY = None) ->
  pending_local_create sale = true ->
  preserves (fun w => In sale (cached_rows sales_slot w))
    (SyncService.syncSalesWithConflictResolution env serverSales).
Proof.
  intros Hread Hp w Hw.
  unfold exec, SyncService.syncSalesWithConflictResolution, bind.
  rewrite getCachedSales_run, Hread, cacheSales_run.
  destruct (setItem_fault env (trace w) SALES_CACHE_KEY); simpl; auto.
  unfold cached_rows. simpl.
  apply resolvedSales_keeps_pending; auto.
Qed.
End PullRuns.

(** The sales cache keeps what it holds under a temporary identity with
    status pending: such a sale is still in the cache, unaltered, after the
    pull, whatever the server returns (the cache being readable). *)
Lemma pull_keeps_pending_local_sales :
  forall env w sale,
    (forall tr, getItem_fault env tr SALES_CACHE_KEY = None) ->
    In sale (cached_rows (cache_of sales) w) ->
    pending_local_create sale = true ->
    In sale (cached_rows (cache_of sales)
               (exec (SyncService.syncFromServer env) w)).
Proof.
  intros env w sale Hread Hin Hp. revert w Hin. simpl cache_of.
  change (preserves (fun w => In sale (cached_rows sales_slot w))
            (SyncService.syncFromServer env)).
  assert (forall e w, In sale (cached_rows sales_slot w) ->
                      In sale (cached_rows sales_slot (emit e w))) as I_emit
    by auto.
  assert (forall k (v : option (Blob k)) w,
             negb (is_sales_key k) = true ->
             In sale (cached_rows sales_slot w) ->
             In sale (cached_rows sales_slot
                        (with_disk (write k v (disk w)) w))) as I_write.
  { intros [] v w Hk Hw; try discriminate; exact Hw. }
  assert (forall k, k <> SALES_CACHE_KEY ->
             free (fun _ => true) (fun k => negb (is_sales_key k)) k) as Hfree.
  { intros [] Hk; repeat split; congruence. }
  unfold SyncService.syncFromServer.
  apply preserves_bind.
  { apply preserves_pullBlock.
    eapply preserves_bind;
      [eapply preserves_Service_getAll with (quiet := fun _ => true); eauto|].
    intros rows. eapply preserves_bind; [|intros; apply preserves_ret].
    eapply preserves_syncProductsWithConflictResolution
      with (quiet := fun _ => true) (writable := fun k => negb (is_sales_key k));
      eauto. apply Hfree. discriminate. }
  intros t1. apply preserves_bind.
  { apply preserves_pullBlock.
    eapply preserves_bind;
      [eapply preserves_Service_getAll with (quiet := fun _ => true); eauto|].
    intros rows. eapply preserves_bind; [|intros; apply preserves_ret].
    now apply syncSales_keeps_pending. }
  intros t2. apply preserves_bind.
  { apply preserves_pullBlock.
    eapply preserves_bind;
      [eapply preserves_Service_getAll with (quiet := fun _ => true); eauto|].
    intros rows. eapply preserves_bind; [|intros; apply preserves_ret].
    eapply preserves_cacheSellers
      with (quiet := fun _ => true) (writable := fun k => negb (is_sales_key k));
      eauto. apply Hfree. discriminate. }
  intros t3. apply preserves_bind; [|intros; apply preserves_ret].
  apply preserves_pullBlock.
  eapply preserves_bind;
    [eapply preserves_Service_getAll with (quiet := fun _ => true); eauto|].
  intros rows. eapply preserves_bind; [|intros; apply preserves_ret].
  eapply preserves_cacheCategories
    with (quiet := fun _ => true) (writable := fun k => negb (is_sales_key k));
    eauto. apply Hfree. discriminate.
Qed.

(** ** The drain and its retry bound *)

Lemma attempts_emit item e w :
  attempts item (trace w) <= attempts item (trace (emit e w)).
Proof.
  unfold attempts. simpl. destruct (is_attempt_of item e); simpl; lia.
Qed.

Lemma is_attempt_of_self item :
  is_attempt_of item (ApiWrite (q_table item) (q_type item) (q_data item))
  = true.
Proof.
  unfold is_attempt_of, Table_eqb, OpType_eqb, Payload_eqb, option_string_eqb.
  destruct (q_table item), (q_type item), (q_data item) as [[i|] [m|] f];
    simpl; now rewrite ?String.eqb_refl.
Qed.

Section DrainRuns.
Variable env : Env.
Hypothesis queue_readable : forall tr, getItem_fault env tr QUEUE_KEY = None.
Hypothesis queue_writable : forall tr, setItem_fault env tr QUEUE_KEY = None.

Lemma removeFromQueue_returns itemId w :
  result (OfflineStorage.removeFromQueue env itemId) w = Ok tt.
Proof.
  unfold result, OfflineStorage.removeFromQueue, try_catch, bind.
  rewrite getQueue_run. unfold OfflineStorage.setItem.
  now rewrite queue_writable.
Qed.

Lemma updateQueueItem_returns itemId updates w :
  result (OfflineStorage.updateQueueItem env itemId updates) w = Ok tt.
Proof.
  unfold result, OfflineStorage.updateQueueItem, try_catch, bind.
  rewrite getQueue_run.
  destruct (replace_first _ _ _); [|reflexivity].
  unfold OfflineStorage.setItem. now rewrite queue_writable.
Qed.

Lemma drainItem_returns item t w :
  exists t', result (SyncService.drainItem env item t) w = Ok t'.
Proof.
  destruct t as [[syncedItems failedItems] errors].
  unfold result, SyncService.drainItem, try_catch.
  unfold bind at 1. rewrite processQueueItem_run.
  unfold SyncService.ApiService_write.
  destruct (api_write env (trace w) (q_table item) (q_type item) (q_data item))
    as [e|].
  - destruct (shouldRetryItem item); [|simpl; eauto].
    unfold bind.
    pose proof (updateQueueItem_returns (q_id item)
                  (OfflineStorage.set_retryCount (q_retryCount item + 1))
                  (emit (ApiWrite (q_table item) (q_type item) (q_data item)) w))
      as Hu.
    unfold result in Hu.
    destruct (OfflineStorage.updateQueueItem env _ _ _) as [o w']. simpl in Hu.
    subst o. simpl. eauto.
  - unfold bind.
    pose proof (removeFromQueue_returns (q_id item)
                  (emit (ApiWrite (q_table item) (q_type item) (q_data item)) w))
      as Hu.
    unfold result in Hu.
    destruct (OfflineStorage.removeFromQueue env _ _) as [o w']. simpl in Hu.
    subst o. simpl. eauto.
Qed.

(** Whatever [item.retryCount] is, the body of the loop sends the item. *)
Lemma drainItem_sends item t w :
  S (attempts item (trace w))
  <= attempts item (trace (exec (SyncService.drainItem env item t) w)).
Proof.
  set (n := attempts item (trace w)).
  set (I := fun w' : World => S n <= attempts item (trace w')).
  assert (forall e w', I w' -> I (emit e w')) as I_emit.
  { intros e w' Hw'. unfold I in *.
    pose proof (attempts_emit item e w'). lia. }
  assert (forall k (v : option (Blob k)) w',
             I w' -> I (with_disk (write k v (disk w')) w')) as I_write
    by auto.
  assert (forall k, free (fun _ => true) (fun _ => true) k) as Hfree
    by (repeat split).
  set (w1 := emit (ApiWrite (q_table item) (q_type item) (q_data item)) w).
  assert (I w1) as Hw1.
  { unfold I, w1, attempts. simpl trace. cbn [filter].
    rewrite is_attempt_of_self. simpl. unfold n, attempts. lia. }
  assert (forall e t',
             preserves I
               (if shouldRetryItem item
                then
                  OfflineStorage.updateQueueItem env (q_id item)
                    (OfflineStorage.set_retryCount (q_retryCount item + 1)) ;;
                  ret t'
                else ret (A:=SyncService.Tally) e)) as Hhandler.
  { intros e t'. destruct (shouldRetryItem item); [|apply preserves_ret].
    apply preserves_bind; [|intros; apply preserves_ret].
    eapply preserves_updateQueueItem
      with (quiet := fun _ => true) (writable := fun _ => true); eauto. }
  destruct t as [[syncedItems failedItems] errors].
  change (I (exec (SyncService.drainItem env item
                     (syncedItems, failedItems, errors)) w)).
  unfold exec, SyncService.drainItem, try_catch.
  unfold bind at 1. rewrite processQueueItem_run.
  unfold SyncService.ApiService_write.
  destruct (api_write env (trace w) (q_table item) (q_type item) (q_data item))
    as [e|]; fold w1.
  - apply Hhandler. exact Hw1.
  - match goal with
    | |- I (snd (match ?m w1 with _ => _ end)) =>
        pose proof (fun H => @preserves_bind I _ _
                      (OfflineStorage.removeFromQueue env (q_id item))
                      (fun _ => ret (S syncedItems, failedItems, errors))
                      H (fun _ => @preserves_ret I _ _) w1 Hw1) as Hrem
    end.
    unfold exec in Hrem.
    destruct ((OfflineStorage.removeFromQueue env (q_id item) ;;
               ret (S syncedItems, failedItems, errors)) w1)
      as [[a|e] w'] eqn:E; simpl in *.
    + apply Hrem.
      eapply preserves_removeFromQueue
        with (quiet := fun _ => true) (writable := fun _ => true); eauto.
    + apply Hhandler. apply Hrem.
      eapply preserves_removeFromQueue
        with (quiet := fun _ => true) (writable := fun _ => true); eauto.
Qed.

Lemma drainItem_monotone item n x t :
  preserves (fun w => n <= attempts item (trace w))
    (SyncService.drainItem env x t).
Proof.
  eapply preserves_drainItem
    with (quiet := fun _ => true) (writable := fun _ => true);
    auto; try (repeat split).
  intros e w _ Hw. pose proof (attempts_emit item e w). lia.
Qed.

Lemma drain_loop_monotone item n l t :
  preserves (fun w => n <= attempts item (trace w))
    (forEachM (SyncService.drainItem env) l t).
Proof. apply preserves_forEachM. intros. apply drainItem_monotone. Qed.

(** The loop sends every item of the list it is given. *)
Lemma drain_loop_sends l :
  forall t w item,
    In item l ->
    S (attempts item (trace w))
    <= attempts item
         (trace (exec (forEachM (SyncService.drainItem env) l t) w)).
Proof.
  induction l as [|x l IH]; intros t w item Hin; [destruct Hin|].
  destruct (drainItem_returns x t w) as [t' Ht'].
  pose proof (drainItem_sends x t w) as Hx.
  pose proof (@drainItem_monotone item (attempts item (trace w)) x t w
                (le_n _)) as Hm.
  unfold result, exec in *. simpl. unfold bind.
  destruct (SyncService.drainItem env x t w) as [o w'] eqn:E.
  simpl in Ht', Hx, Hm. subst o.
  destruct Hin as [<-|Hin].
  - apply (@drain_loop_monotone x (S (attempts x (trace w))) l t' w' Hx).
  - specialize (IH t' w' item Hin). unfold exec in IH. lia.
Qed.

Lemma cleanupOldQueueItems_run hoursOld w :
  OfflineStorage.cleanupOldQueueItems env hoursOld w
  = (Ok tt,
     emit (StorageSet QUEUE_KEY)
       (with_disk
          (with_queue (Some (cleanedUp (clock w) hoursOld (stored_queue w)))
             (disk w)) w)).
Proof.
  unfold OfflineStorage.cleanupOldQueueItems, try_catch, bind.
  rewrite getQueue_run, queue_readable.
  unfold Date_now, OfflineStorage.setItem. now rewrite queue_writable.
Qed.

Lemma deduplicateQueue_run_world w :
  OfflineStorage.deduplicateQueue env w
  = (Ok tt,
     emit (StorageSet QUEUE_KEY)
       (with_disk
          (with_queue (Some (deduplicated (stored_queue w))) (disk w)) w)).
Proof.
  unfold OfflineStorage.deduplicateQueue, try_catch, bind.
  rewrite getQueue_run, queue_readable.
  unfold OfflineStorage.setItem. now rewrite queue_writable.
Qed.

Lemma detectConflicts_run w :
  exists conflicts, OfflineStorage.detectConflicts env w = (Ok conflicts, w).
Proof.
  unfold OfflineStorage.detectConflicts, bind. rewrite getQueue_run.
  eexists. reflexivity.
Qed.

(** A drain sends every item of its snapshot, exhausted or not. *)
Lemma drain_sends_every_item w item :
  In item (drain_snapshot w) ->
  S (attempts item (trace w))
  <= attempts item (trace (exec (SyncService.syncOfflineQueue env) w)).
Proof.
  intros Hin. unfold SyncService.syncOfflineQueue.
  rewrite (@exec_bind_Ok _ _ _ _ _ _ _ (cleanupOldQueueItems_run 24 w)).
  rewrite (@exec_bind_Ok _ _ _ _ _ _ _ (deduplicateQueue_run_world _)).
  rewrite (@exec_bind_Ok _ _ _ _ _ _ _ (getPrioritizedQueue_run env _)).
  rewrite queue_readable.
  match goal with
  | |- context [exec _ ?w2] =>
      destruct (detectConflicts_run w2) as [conflicts Hc];
      rewrite (@exec_bind_Ok _ _ _ _ _ _ _ Hc)
  end.
  rewrite exec_bind_ret.
  match goal with
  | |- context [exec _ ?w2] =>
      change (attempts item (trace w)) with (attempts item (trace w2))
  end.
  apply drain_loop_sends. exact Hin.
Qed.
End DrainRuns.

Lemma attempts_same_request a b tr :
  same_request a b -> attempts a tr = attempts b tr.
Proof.
  intros (Ht & Ho & Hd). unfold attempts. f_equal.
  apply filter_ext. intros []; simpl; auto. now rewrite Ht, Ho, Hd.
Qed.

Lemma replace_first_In A (p : A -> bool) (f : A -> A) l l' y :
  replace_first p f l = Some l' -> In y l' ->
  In y l \/ exists x, In x l /\ y = f x.
Proof.
  revert l'. induction l as [|x l IH]; simpl; intros l'; [discriminate|].
  destruct (p x).
  - intros [= <-] [<-|Hin]; eauto.
  - destruct (replace_first p f l) as [r|]; [|discriminate].
    intros [= <-] [<-|Hin]; auto.
    destruct (IH r eq_refl Hin) as [H|(x0 & H & ->)]; eauto.
Qed.

Section DrainLeaves.
Variable env : Env.
Hypothesis queue_readable : forall tr, getItem_fault env tr QUEUE_KEY = None.
Hypothesis queue_writable : forall tr, setItem_fault env tr QUEUE_KEY = None.

Lemma drawn_from_refl w : drawn_from w w.
Proof. intros y Hy. exists y. repeat split; auto. Qed.

Lemma removeFromQueue_stored itemId w :
  stored_queue (exec (OfflineStorage.removeFromQueue env itemId) w)
  = filter (fun item => negb (String.eqb (q_id item) itemId)) (stored_queue w).
Proof.
  unfold exec, OfflineStorage.removeFromQueue, try_catch, bind.
  rewrite getQueue_run, queue_readable. unfold OfflineStorage.setItem.
  now rewrite queue_writable.
Qed.

Lemma removeFromQueue_trace itemId w :
  trace (exec (OfflineStorage.removeFromQueue env itemId) w)
  = StorageSet QUEUE_KEY :: trace w.
Proof.
  unfold exec, OfflineStorage.removeFromQueue, try_catch, bind.
  rewrite getQueue_run, queue_readable. unfold OfflineStorage.setItem.
  now rewrite queue_writable.
Qed.

Lemma updateQueueItem_drawn itemId n w0 w :
  drawn_from w0 w ->
  drawn_from w0
    (exec (OfflineStorage.updateQueueItem env itemId
             (OfflineStorage.set_retryCount n)) w).
Proof.
  intros Hw y. unfold exec, OfflineStorage.updateQueueItem, try_catch, bind.
  rewrite getQueue_run, queue_readable.
  destruct (replace_first _ _ (stored_queue w)) as [q'|] eqn:E; simpl.
  - unfold OfflineStorage.setItem. rewrite queue_writable. simpl.
    unfold stored_queue at 1. simpl. intros Hy.
    destruct (@replace_first_In _ _ _ _ _ _ E Hy) as [H|(x & H & ->)].
    + now apply Hw.
    + destruct (Hw x H) as (y0 & Hy0 & Ht & Ho & Hd).
      exists y0. repeat split; auto.
  - apply Hw.
Qed.

Lemma drainItem_drawn x t w0 w :
  drawn_from w0 w -> drawn_from w0 (exec (SyncService.drainItem env x t) w).
Proof.
  intros Hw. destruct t as [[syncedItems failedItems] errors].
  unfold exec, SyncService.drainItem, try_catch.
  unfold bind at 1. rewrite processQueueItem_run.
  unfold SyncService.ApiService_write.
  set (w1 := emit (ApiWrite (q_table x) (q_type x) (q_data x)) w).
  assert (drawn_from w0 w1) as Hw1 by exact Hw.
  destruct (api_write env (trace w) (q_table x) (q_type x) (q_data x)) as [e|].
  - destruct (shouldRetryItem x); [|exact Hw1].
    change (drawn_from w0
              (exec (OfflineStorage.updateQueueItem env (q_id x)
                       (OfflineStorage.set_retryCount (q_retryCount x + 1)) ;;
                     ret (syncedItems, failedItems, errors)) w1)).
    rewrite (exec_bind_ret
               (OfflineStorage.updateQueueItem env (q_id x)
                  (OfflineStorage.set_retryCount (q_retryCount x + 1)))
               (fun _ : unit => (syncedItems, failedItems, errors)) w1).
    now apply updateQueueItem_drawn.
  - unfold bind.
    pose proof (removeFromQueue_returns env queue_writable (q_id x) w1) as Hr.
    pose proof (removeFromQueue_stored (q_id x) w1) as Hs.
    unfold result, exec in Hr, Hs.
    destruct (OfflineStorage.removeFromQueue env (q_id x) w1) as [o w'].
    simpl in Hr, Hs. subst o. simpl.
    intros y Hy. rewrite Hs in Hy. apply filter_In in Hy as [Hy _].
    now apply Hw1.
Qed.

Lemma drain_loop_drawn l :
  forall t w0 w,
    drawn_from w0 w ->
    drawn_from w0 (exec (forEachM (SyncService.drainItem env) l t) w).
Proof.
  induction l as [|x l IH]; intros t w0 w Hw; [exact Hw|].
  destruct (drainItem_returns env queue_writable x t w) as [t' Ht'].
  pose proof (drainItem_drawn x t Hw) as Hx.
  unfold result, exec in *. simpl. unfold bind.
  destruct (SyncService.drainItem env x t w) as [o w'].
  simpl in Ht', Hx. subst o. now apply IH.
Qed.

(** Whatever a drain leaves in the queue, it has sent. *)
Lemma drain_leaves_only_sent_items w y :
  In y (stored_queue (exec (SyncService.syncOfflineQueue env) w)) ->
  S (attempts y (trace w))
  <= attempts y (trace (exec (SyncService.syncOfflineQueue env) w)).
Proof.
  unfold SyncService.syncOfflineQueue.
  rewrite (@exec_bind_Ok _ _ _ _ _ _ _
             (cleanupOldQueueItems_run env queue_readable queue_writable 24 w)).
  rewrite (@exec_bind_Ok _ _ _ _ _ _ _
             (deduplicateQueue_run_world env queue_readable queue_writable _)).
  rewrite (@exec_bind_Ok _ _ _ _ _ _ _ (getPrioritizedQueue_run env _)).
  rewrite queue_readable.
  match goal with
  | |- context [exec _ ?w2] =>
      destruct (detectConflicts_run env w2) as [conflicts Hc];
      rewrite (@exec_bind_Ok _ _ _ _ _ _ _ Hc);
      set (start := w2)
  end.
  rewrite exec_bind_ret. intros Hy.
  destruct (@drain_loop_drawn (prioritized (stored_queue start)) (0, 0, [])
              start start (drawn_from_refl start) y Hy)
    as (y0 & Hy0 & Hsame).
  repeat rewrite <- (attempts_same_request _ Hsame).
  change (attempts y0 (trace w)) with (attempts y0 (trace start)).
  apply (@drain_loop_sends env queue_writable).
  unfold prioritized.
  eapply Permutation_in; [apply Array_sort_perm|exact Hy0].
Qed.
End DrainLeaves.

(** Inside [performSync] the pull starts in the world the drain has left. *)
Lemma performSync_pulls_after_drain env w queueResult :
  result (SyncService.syncOfflineQueue env) w = Ok queueResult ->
  exec (SyncService.performSync env) w
  = exec (SyncService.syncFromServer env)
      (exec (SyncService.syncOfflineQueue env) w).
Proof.
  unfold result, exec, SyncService.performSync, try_catch, bind.
  destruct (SyncService.syncOfflineQueue env w) as [[qr|e] w1]; simpl;
    [intros _|discriminate].
  now destruct (SyncService.syncFromServer env w1) as [[cr|e] w2].
Qed.

(** C1 on a queue of one update while every remote write is rejected.  Three
    drains raise [retryCount] to [MAX_RETRY_COUNT], after which
    [shouldRetryItem] is false.  The fourth drain still sends the item,
    reports it in [failedItems] and leaves it queued; the fifth sends it
    again. *)
Theorem exhausted_item_is_sent_again :
  let w0 := world_with_queue [update_A_x] in
  let w3 := drains remote_down 3 w0 in
  let w4 := drains remote_down 4 w0 in
  let w5 := drains remote_down 5 w0 in
  map q_retryCount (stored_queue w3) = [MAX_RETRY_COUNT]
  /\ map shouldRetryItem (stored_queue w3) = [false]
  /\ attempts update_A_x (trace w3) = 3
  /\ result (SyncService.syncOfflineQueue remote_down) w3
     = Ok (mkResult false 0 1
             ["Failed to sync update products: Network request failed"])
  /\ attempts update_A_x (trace w4) = 4
  /\ stored_queue w4 = stored_queue w3
  /\ attempts update_A_x (trace w5) = 5.
Proof.
  vm_compute. repeat split.
Qed.

(** ** Invariants of the states the application reaches *)

(** What has to be shown of a property [I] for it to hold in every state
    the application reaches: it holds after an installation, survives what
    the process does to its own statics and to the user interface, and is
    preserved by the methods that write the storage or call the remote
    interface.  The methods that only read preserve every property. *)
Section ServedInvariant.
Variable env : Env.
Variable I : World -> Prop.

Hypothesis I_install : forall t, I (boot empty_storage t).
Hypothesis I_clock : forall t w, I w -> I (with_clock t w).
Hypothesis I_restart : forall w, I w -> I (restart w).
Hypothesis I_guard : forall b w, I w -> I (with_syncInProgress b w).
Hypothesis I_online : forall w, I w -> I (with_isOnline true w).
Hypothesis I_loading : forall b w, I w -> I (emit (UiSetLoading b) w).
Hypothesis I_toast : forall m k w, I w -> I (emit (UiShowToast m k) w).
Hypothesis I_drain : preserves I (SyncService.syncOfflineQueue env).
Hypothesis I_pull : preserves I (SyncService.syncFromServer env).
Hypothesis I_status :
  forall s, preserves I (OfflineStorage.setSyncStatus env s).
Hypothesis I_queueOperation :
  forall t o d, preserves I (SyncService.queueOperation env t o d).
Hypothesis I_retry : preserves I (SyncService.retryFailedOperations env).
Hypothesis I_clear : preserves I (SyncService.clearOfflineData env).
Hypothesis I_cleanup :
  forall h, preserves I (OfflineStorage.cleanupOldQueueItems env h).
Hypothesis I_dedup : preserves I (OfflineStorage.deduplicateQueue env).
Hypothesis I_refresh : forall c, preserves I (refresh env c).

Lemma inv_performSync : preserves I (SyncService.performSync env).
Proof.
  unfold SyncService.performSync.
  apply preserves_try_catch; [|intros e; apply preserves_ret].
  apply preserves_bind; [exact I_drain|intros queueResult].
  apply preserves_try_catch; [|intros e; apply preserves_ret].
  apply preserves_bind; [exact I_pull|intros ?; apply preserves_ret].
Qed.

Lemma inv_setLoading b : preserves I (SyncService.uiStore_setLoading b).
Proof. intros w Hw. now apply I_loading. Qed.

Lemma inv_showToast m k : preserves I (SyncService.uiStore_showToast m k).
Proof. intros w Hw. now apply I_toast. Qed.

Lemma inv_syncCycle : preserves I (SyncService.syncCycle env).
Proof.
  unfold SyncService.syncCycle.
  apply preserves_finally; [|intros w; apply I_guard].
  apply preserves_try_catch.
  - apply preserves_bind; [apply inv_setLoading|intros _].
    apply preserves_bind; [apply inv_performSync|intros r].
    apply preserves_bind; [apply preserves_Date_now|intros now].
    apply preserves_bind; [apply I_status|intros _].
    apply preserves_bind; [apply inv_setLoading|intros _].
    apply preserves_bind; [|intros _; apply preserves_ret].
    destruct (success r); [apply inv_showToast|].
    destruct (Nat.ltb 0 (failedItems r));
      [apply inv_showToast|apply preserves_ret].
  - intros e.
    apply preserves_bind; [apply inv_setLoading|intros _].
    apply preserves_bind; [apply inv_showToast|intros _].
    apply preserves_ret.
Qed.

Lemma inv_syncAll : preserves I (SyncService.syncAll env).
Proof.
  intros w Hw. unfold exec, SyncService.syncAll, bind, get_world.
  destruct (syncInProgress w); [exact Hw|].
  destruct (negb (isOnline w)); [exact Hw|].
  unfold modify. apply inv_syncCycle. now apply I_guard.
Qed.

Lemma inv_run c : forall w, I w -> I (run env c w).
Proof.
  destruct c; simpl; intros w Hw.
  - now apply I_online.
  - now apply preserves_checkOnlineStatus.
  - now apply inv_syncAll.
  - now apply I_queueOperation.
  - now apply preserves_getCachedData.
  - now apply (@preserves_getSyncStatus env I).
  - now apply inv_syncAll.
  - now apply I_clear.
  - now apply preserves_getPendingOperationsCount.
  - now apply I_retry.
Qed.

Lemma inv_smartSync : preserves I (BackgroundSyncService.smartSync env).
Proof.
  unfold BackgroundSyncService.smartSync.
  apply preserves_try_catch; [|intros e; apply preserves_ret].
  apply preserves_bind; [apply preserves_checkOnlineStatus|intros online].
  apply preserves_bind;
    [apply preserves_getPendingOperationsCount|intros pendingCount].
  destruct (negb online); [apply preserves_ret|].
  destruct (Nat.ltb 0 pendingCount).
  - apply preserves_bind; [apply inv_syncAll|intros _; apply preserves_ret].
  - apply preserves_bind; [apply preserves_getSyncStatus|intros syncStatus].
    apply preserves_bind.
    + destruct syncStatus as [s|]; [|apply preserves_ret].
      apply preserves_bind; [apply preserves_Date_now|].
      intros now. apply preserves_ret.
    + intros [|]; [|apply preserves_ret].
      apply preserves_bind; [apply inv_syncAll|intros _; apply preserves_ret].
Qed.

Lemma inv_backgroundTask :
  preserves I (BackgroundSyncService.backgroundTask env).
Proof.
  unfold BackgroundSyncService.backgroundTask.
  apply preserves_try_catch; [|intros e; apply preserves_ret].
  apply preserves_bind;
    [apply preserves_getPendingOperationsCount|intros pendingCount].
  apply preserves_bind; [apply preserves_getSyncStatus|intros syncStatus].
  apply preserves_bind.
  - destruct (Nat.ltb 0 pendingCount); [apply preserves_ret|].
    destruct syncStatus as [s|]; [|apply preserves_ret].
    apply preserves_bind; [apply preserves_Date_now|].
    intros now. apply preserves_ret.
  - intros shouldSync. destruct (negb shouldSync); [apply preserves_ret|].
    apply preserves_bind; [apply inv_syncAll|intros r].
    destruct (success r); apply preserves_ret.
Qed.

Lemma inv_app_run a : forall w, I w -> I (app_run env a w).
Proof.
  destruct a; simpl; intros w Hw.
  - now apply inv_run.
  - now apply I_cleanup.
  - now apply I_dedup.
  - now apply I_refresh.
  - now apply I_refresh.
  - now apply I_refresh.
  - now apply inv_smartSync.
  - now apply inv_backgroundTask.
Qed.

Lemma served_invariant w : served env w -> I w.
Proof.
  induction 1 as [t|a w _ IH|t w _ IH _|w _ IH|w _ IH _|w _ IH _|w _ IH _].
  - apply I_install.
  - now apply inv_app_run.
  - now apply I_clock.
  - now apply I_restart.
  - now apply I_guard.
  - apply I_drain. now apply I_loading.
  - now apply inv_syncCycle.
Qed.
End ServedInvariant.

(** *** Every stored item has been sent

    An operation enters the queue only in the [catch] of its own remote
    write (sync.ts 389-397), and the log never forgets a write. *)

Lemma exec_then_throw A B (m : M A) (e : Thrown) w :
  exec (m ;; @throw B e) w = exec m w.
Proof. unfold exec, bind, throw. now destruct (m w) as [[a|e'] w']. Qed.

Lemma sent_of_log item tr :
  In (ApiWrite (q_table item) (q_type item) (q_data item)) tr ->
  1 <= attempts item tr.
Proof.
  intros Hin. unfold attempts.
  assert (In (ApiWrite (q_table item) (q_type item) (q_data item))
            (filter (is_attempt_of item) tr)) as H.
  { apply filter_In. split; [exact Hin|apply is_attempt_of_self]. }
  destruct (filter (is_attempt_of item) tr); [destruct H|simpl; lia].
Qed.

Lemma sent_emit item e w :
  1 <= attempts item (trace w) -> 1 <= attempts item (trace (emit e w)).
Proof. intros H. pose proof (attempts_emit item e w). lia. Qed.

Section Attempted.
Variable env : Env.

Lemma attempted_emit e w : attempted w -> attempted (emit e w).
Proof.
  intros [Ho Hq]. split; [exact Ho|].
  change (stored_queue (emit e w)) with (stored_queue w).
  eapply Forall_impl; [|exact Hq]. intros item. apply sent_emit.
Qed.

Lemma attempted_seed n w : attempted w -> attempted (with_seed n w).
Proof. exact (fun H => H). Qed.

Lemma attempted_write k (v : option (Blob k)) w :
  not_queue_key k = true -> attempted w ->
  attempted (with_disk (write k v (disk w)) w).
Proof. destruct k; simpl; intros Hk H; try discriminate; exact H. Qed.

Lemma attempted_setItem_queue q w :
  attempted w -> Forall (fun item => 1 <= attempts item (trace w)) q ->
  attempted (exec (OfflineStorage.setItem env QUEUE_KEY q) w).
Proof.
  intros [Ho Hq] Hn. unfold exec, OfflineStorage.setItem.
  destruct (setItem_fault env (trace w) QUEUE_KEY); simpl; [now split|].
  split; [exact Ho|]. unfold stored_queue; simpl.
  eapply Forall_impl; [|exact Hn]. intros item.
  apply (sent_emit item (StorageSet QUEUE_KEY) w).
Qed.

(** A method that reads the queue and then goes on with what it read. *)
Lemma attempted_with_queue A (g : list OfflineQueueItem -> M A) :
  (forall q w, attempted w ->
               Forall (fun item => 1 <= attempts item (trace w)) q ->
               attempted (exec (g q) w)) ->
  preserves attempted (queue <- OfflineStorage.getQueue env ;; g queue).
Proof.
  intros Hg w Hw. unfold exec, bind. rewrite getQueue_run.
  apply Hg; auto.
  destruct (getItem_fault env (trace w) QUEUE_KEY);
    [constructor|exact (proj2 Hw)].
Qed.

Lemma attempted_stores_part (keep : list OfflineQueueItem
                                    -> list OfflineQueueItem) :
  (forall q x, In x (keep q) -> In x q) ->
  preserves attempted
    (queue <- OfflineStorage.getQueue env ;;
     OfflineStorage.setItem env QUEUE_KEY (keep queue)).
Proof.
  intros Hkeep. apply attempted_with_queue. intros q w Hw Hq.
  apply attempted_setItem_queue; [exact Hw|].
  apply Forall_forall. intros x Hx. apply Hkeep in Hx.
  revert x Hx. now apply Forall_forall.
Qed.

Lemma attempted_addToQueue t o d p w :
  attempted w -> In (ApiWrite t o d) (trace w) ->
  attempted (exec (OfflineStorage.addToQueue env t o d p) w).
Proof.
  intros Hw Hin. revert w Hw Hin.
  assert (forall w, attempted w /\ In (ApiWrite t o d) (trace w) ->
          attempted (exec (OfflineStorage.addToQueue env t o d p) w)) as H;
    [|intros w Hw Hin; apply H; now split].
  intros w [Hw Hin].
  unfold exec, OfflineStorage.addToQueue, try_catch, bind at 1.
  rewrite getQueue_run. unfold bind, Date_now, Math_random. simpl.
  match goal with
  | |- attempted (snd (let (_, _) := OfflineStorage.setItem env QUEUE_KEY ?q ?w1
                       in _)) =>
      assert (attempted (exec (OfflineStorage.setItem env QUEUE_KEY q) w1))
        as Hset
  end.
  { apply attempted_setItem_queue; [exact Hw|].
    apply Forall_app. split.
    - destruct (getItem_fault env (trace w) QUEUE_KEY);
        [constructor|exact (proj2 Hw)].
    - constructor; [|constructor]. now apply sent_of_log. }
  unfold exec in Hset.
  match goal with
  | |- context [OfflineStorage.setItem env QUEUE_KEY ?q ?w1] =>
      destruct (OfflineStorage.setItem env QUEUE_KEY q w1) as [[u|e] w']
  end; exact Hset.
Qed.

Lemma attempted_removeFromQueue i :
  preserves attempted (OfflineStorage.removeFromQueue env i).
Proof.
  unfold OfflineStorage.removeFromQueue.
  apply preserves_try_catch; [|intros e; apply preserves_throw].
  apply (attempted_stores_part
           (filter (fun item => negb (String.eqb (q_id item) i)))).
  intros q x Hx. now apply filter_In in Hx.
Qed.

Lemma attempted_updateQueueItem i n :
  preserves attempted
    (OfflineStorage.updateQueueItem env i (OfflineStorage.set_retryCount n)).
Proof.
  unfold OfflineStorage.updateQueueItem.
  apply preserves_try_catch; [|intros e; apply preserves_throw].
  apply attempted_with_queue. intros q w Hw Hq.
  destruct (replace_first _ _ q) as [q'|] eqn:E; [|exact Hw].
  apply attempted_setItem_queue; [exact Hw|].
  apply Forall_forall. intros y Hy.
  destruct (@replace_first_In _ _ _ _ _ _ E Hy) as [H|(x & Hx & ->)].
  - clear Hy. revert y H. now apply Forall_forall.
  - rewrite (@attempts_same_request (OfflineStorage.set_retryCount n x) x).
    + clear Hy. revert x Hx. now apply Forall_forall.
    + repeat split.
Qed.

Lemma attempted_cleanupOldQueueItems h :
  preserves attempted (OfflineStorage.cleanupOldQueueItems env h).
Proof.
  unfold OfflineStorage.cleanupOldQueueItems.
  apply preserves_try_catch; [|intros e; apply preserves_ret].
  apply attempted_with_queue. intros q w Hw Hq.
  unfold exec, bind, Date_now.
  apply (@attempted_setItem_queue _ w); [exact Hw|].
  apply Forall_forall. intros x Hx. unfold cleanedUp in Hx.
  apply filter_In in Hx as [Hx _]. revert x Hx. now apply Forall_forall.
Qed.

Lemma attempted_deduplicateQueue :
  preserves attempted (OfflineStorage.deduplicateQueue env).
Proof.
  unfold OfflineStorage.deduplicateQueue.
  apply preserves_try_catch; [|intros e; apply preserves_ret].
  apply (attempted_stores_part deduplicated).
  intros q x Hx. now apply deduplicated_most_recent in Hx.
Qed.

Lemma attempted_clearQueue :
  preserves attempted (OfflineStorage.clearQueue env).
Proof.
  intros w Hw.
  unfold exec, OfflineStorage.clearQueue, try_catch, OfflineStorage.removeItem.
  destruct (removeItem_fault env (trace w) QUEUE_KEY); simpl; auto.
  split; [exact (proj1 Hw)|constructor].
Qed.

Lemma attempted_ApiService_write t o d :
  preserves attempted (SyncService.ApiService_write env t o d).
Proof.
  intros w Hw. unfold exec, SyncService.ApiService_write.
  destruct (api_write env (trace w) t o d); now apply attempted_emit.
Qed.

Lemma attempted_drainItem item t :
  preserves attempted (SyncService.drainItem env item t).
Proof.
  destruct t as [[s f] e]. unfold SyncService.drainItem.
  apply preserves_try_catch.
  - rewrite processQueueItem_run.
    apply preserves_bind; [apply attempted_ApiService_write|intros _].
    apply preserves_bind; [apply attempted_removeFromQueue|].
    intros _. apply preserves_ret.
  - intros err. destruct (shouldRetryItem item); [|apply preserves_ret].
    apply preserves_bind; [|intros _; apply preserves_ret].
    apply attempted_updateQueueItem.
Qed.

Lemma attempted_retryItem item t :
  preserves attempted (SyncService.retryItem env item t).
Proof.
  destruct t as [[s f] e]. unfold SyncService.retryItem.
  apply preserves_try_catch; [|intros err; apply preserves_ret].
  rewrite processQueueItem_run.
  apply preserves_bind; [apply attempted_ApiService_write|intros _].
  apply preserves_bind; [apply attempted_removeFromQueue|].
  intros _. apply preserves_ret.
Qed.

Lemma attempted_syncOfflineQueue :
  preserves attempted (SyncService.syncOfflineQueue env).
Proof.
  unfold SyncService.syncOfflineQueue.
  apply preserves_bind; [apply attempted_cleanupOldQueueItems|intros _].
  apply preserves_bind; [apply attempted_deduplicateQueue|intros _].
  apply preserves_bind.
  { apply attempted_with_queue. intros q w Hw _; exact Hw. }
  intros queue. apply preserves_bind.
  { apply attempted_with_queue. intros q w Hw _; exact Hw. }
  intros _. apply preserves_bind; [|intros t; apply preserves_ret].
  apply preserves_forEachM. apply attempted_drainItem.
Qed.

Lemma attempted_retryFailedOperations :
  preserves attempted (SyncService.retryFailedOperations env).
Proof.
  unfold SyncService.retryFailedOperations, OfflineStorage.getFailedItems.
  apply preserves_bind.
  { apply attempted_with_queue. intros q w Hw _; exact Hw. }
  intros l. apply preserves_bind; [|intros t; apply preserves_ret].
  apply preserves_forEachM. apply attempted_retryItem.
Qed.

(** The operation is sent first; it is stored only when that write has
    been refused, and the log then holds the write. *)
Lemma attempted_queueOperation t o d :
  preserves attempted (SyncService.queueOperation env t o d).
Proof.
  intros w Hw. unfold exec, SyncService.queueOperation, bind at 1, get_world.
  rewrite (proj1 Hw), processQueueItem_run.
  unfold try_catch, SyncService.ApiService_write.
  destruct (api_write env (trace w) t o d) as [e|]; simpl.
  - change (attempted
              (exec (OfflineStorage.addToQueue env t o d None ;; @throw unit e)
                 (emit (ApiWrite t o d) w))).
    rewrite exec_then_throw. apply attempted_addToQueue.
    + now apply attempted_emit.
    + now left.
  - now apply attempted_emit.
Qed.

Lemma attempted_syncFromServer :
  preserves attempted (SyncService.syncFromServer env).
Proof.
  apply preserves_syncFromServer
    with (quiet := any_event) (writable := not_queue_key);
    auto using attempted_emit, attempted_write; repeat split.
Qed.

Lemma attempted_setSyncStatus s :
  preserves attempted (OfflineStorage.setSyncStatus env s).
Proof.
  apply preserves_setSyncStatus
    with (quiet := any_event) (writable := not_queue_key);
    auto using attempted_emit, attempted_write; repeat split.
Qed.

Lemma attempted_clearOfflineData :
  preserves attempted (SyncService.clearOfflineData env).
Proof.
  unfold SyncService.clearOfflineData.
  apply preserves_bind; [|intros _; apply attempted_clearQueue].
  apply preserves_clearAllCache
    with (quiet := any_event) (writable := not_queue_key);
    auto using attempted_emit, attempted_write.
  intros [] H; try (now destruct H); repeat split.
Qed.

Lemma attempted_refresh c : preserves attempted (refresh env c).
Proof.
  unfold refresh.
  apply preserves_bind.
  - apply preserves_Service_getAll with (quiet := any_event);
      auto using attempted_emit.
  - intros rows.
    destruct c; simpl;
      [ apply preserves_cacheProducts
          with (quiet := any_event) (writable := not_queue_key)
      | apply preserves_cacheSales
          with (quiet := any_event) (writable := not_queue_key)
      | apply preserves_cacheSellers
          with (quiet := any_event) (writable := not_queue_key)
      | apply preserves_cacheCategories
          with (quiet := any_event) (writable := not_queue_key) ];
      auto using attempted_emit, attempted_write; repeat split.
Qed.

(** In every state the application reaches the online flag is set and
    every stored item has been sent at least once. *)
Lemma served_attempted w : served env w -> attempted w.
Proof.
  apply served_invariant.
  - intros t. split; [reflexivity|constructor].
  - intros t w' H; exact H.
  - intros w' [_ H]. split; [reflexivity|exact H].
  - intros b w' H; exact H.
  - intros w' [_ H]. split; [reflexivity|exact H].
  - intros b w'. apply attempted_emit.
  - intros m k w'. apply attempted_emit.
  - apply attempted_syncOfflineQueue.
  - apply attempted_syncFromServer.
  - apply attempted_setSyncStatus.
  - apply attempted_queueOperation.
  - apply attempted_retryFailedOperations.
  - apply attempted_clearOfflineData.
  - apply attempted_cleanupOldQueueItems.
  - apply attempted_deduplicateQueue.
  - apply attempted_refresh.
Qed.
End Attempted.

(** *** Every cached row has been delivered by the remote interface

    The caches are written by the pull and by the refreshes of the stores,
    and both hand them the rows of a remote read; the sales cache also
    keeps rows it already held (sync.ts 363-380). *)

Lemma exec_then_ret A B (m : M A) (b : B) w :
  exec (m ;; ret b) w = exec m w.
Proof. unfold exec, bind, ret. now destruct (m w) as [[a|e'] w']. Qed.

Section Delivered.
Variable env : Env.

Lemma delivered_emit e tr row :
  delivered env tr row -> delivered env (e :: tr) row.
Proof.
  intros (newer & older & c & rows & -> & Hrows & Hin).
  exists (e :: newer), older, c, rows. now repeat split.
Qed.

Lemma delivered_now c rows tr row :
  api_getAll env tr c = inr rows -> In row rows ->
  delivered env (ApiGetAll c :: tr) row.
Proof. intros Hrows Hin. now exists [], tr, c, rows. Qed.

Lemma cd_emit e w : caches_delivered env w -> caches_delivered env (emit e w).
Proof.
  intros H c row Hin. apply delivered_emit. apply (H c row).
  destruct c; exact Hin.
Qed.

Lemma cd_seed n w :
  caches_delivered env w -> caches_delivered env (with_seed n w).
Proof. intros H c row Hin. apply (H c row). destruct c; exact Hin. Qed.

Lemma cd_write k (v : option (Blob k)) w :
  not_cache_key k = true -> caches_delivered env w ->
  caches_delivered env (with_disk (write k v (disk w)) w).
Proof.
  intros Hk H c row Hin. apply (H c row).
  destruct k; try discriminate; destruct c; exact Hin.
Qed.

Lemma cd_removeItem k :
  preserves (caches_delivered env) (OfflineStorage.removeItem env k).
Proof.
  intros w H. unfold exec, OfflineStorage.removeItem.
  destruct (removeItem_fault env (trace w) k); simpl; [exact H|].
  intros c row Hin. apply delivered_emit. apply (H c row).
  destruct k, c; unfold cached_rows in *; simpl in *;
    solve [exact Hin | destruct Hin].
Qed.

(** A cache is given rows that have been delivered. *)
Lemma cd_cache_rows c rows w :
  caches_delivered env w ->
  (forall row, In row rows -> delivered env (trace w) row) ->
  caches_delivered env (exec (cache_rows env c rows) w).
Proof.
  intros H Hrows.
  destruct c; unfold exec, cache_rows, OfflineStorage.cacheProducts,
    OfflineStorage.cacheSales, OfflineStorage.cacheSellers,
    OfflineStorage.cacheCategories, try_catch, bind, Date_now,
    OfflineStorage.setItem, throw;
    match goal with
    | |- context [setItem_fault env ?tr ?k] =>
        destruct (setItem_fault env tr k)
    end; simpl; try exact H;
    intros c' row Hin; apply delivered_emit;
    destruct c'; unfold cached_rows in Hin; simpl in Hin;
    first [ now apply Hrows
          | now apply (H all_products row)
          | now apply (H all_sales row)
          | now apply (H all_sellers row)
          | now apply (H all_categories row) ].
Qed.

(** A remote read, and then what is done with its rows. *)
Lemma cd_with_rows A c (g : list Row -> M A) :
  (forall rows w,
     caches_delivered env w ->
     (forall row, In row rows -> delivered env (trace w) row) ->
     caches_delivered env (exec (g rows) w)) ->
  preserves (caches_delivered env)
    (rows <- SyncService.Service_getAll env c ;; g rows).
Proof.
  intros Hg w H. unfold exec, bind, SyncService.Service_getAll.
  destruct (api_getAll env (trace w) c) as [e|rows] eqn:E; simpl.
  - now apply cd_emit.
  - apply Hg; [now apply cd_emit|].
    intros row Hin. now apply delivered_now with (rows := rows).
Qed.

Lemma cd_syncProducts rows w :
  caches_delivered env w ->
  (forall row, In row rows -> delivered env (trace w) row) ->
  caches_delivered env
    (exec (SyncService.syncProductsWithConflictResolution env rows) w).
Proof.
  intros H Hrows.
  unfold exec, SyncService.syncProductsWithConflictResolution, bind.
  rewrite getCachedProducts_run.
  now apply (@cd_cache_rows all_products rows w).
Qed.

Lemma cd_syncSales rows w :
  caches_delivered env w ->
  (forall row, In row rows -> delivered env (trace w) row) ->
  caches_delivered env
    (exec (SyncService.syncSalesWithConflictResolution env rows) w).
Proof.
  intros H Hrows.
  unfold exec, SyncService.syncSalesWithConflictResolution, bind.
  rewrite getCachedSales_run.
  match goal with
  | |- caches_delivered env (snd (OfflineStorage.cacheSales env ?l w)) =>
      apply (@cd_cache_rows all_sales l w); [exact H|]
  end.
  intros row Hin. unfold resolvedSales in Hin.
  apply in_app_or in Hin as [Hin|Hin]; apply filter_In in Hin as [Hin _].
  - now apply Hrows.
  - apply (H all_sales row). unfold cached_rows. simpl.
    destruct (getItem_fault env (trace w) SALES_CACHE_KEY); [destruct Hin|].
    destruct (sales_slot (disk w)); [exact Hin|destruct Hin].
Qed.

Lemma cd_syncFromServer :
  preserves (caches_delivered env) (SyncService.syncFromServer env).
Proof.
  unfold SyncService.syncFromServer.
  apply preserves_bind; [apply preserves_pullBlock|intros t1].
  { apply cd_with_rows. intros rows w H Hrows.
    rewrite exec_then_ret. now apply cd_syncProducts. }
  apply preserves_bind; [apply preserves_pullBlock|intros t2].
  { apply cd_with_rows. intros rows w H Hrows.
    rewrite exec_then_ret. now apply cd_syncSales. }
  apply preserves_bind; [apply preserves_pullBlock|intros t3].
  { apply cd_with_rows. intros rows w H Hrows.
    rewrite exec_then_ret.
    now apply (@cd_cache_rows all_sellers rows w). }
  apply preserves_bind; [apply preserves_pullBlock|intros t4].
  { apply cd_with_rows. intros rows w H Hrows.
    rewrite exec_then_ret.
    now apply (@cd_cache_rows all_categories rows w). }
  apply preserves_ret.
Qed.

Lemma cd_refresh c : preserves (caches_delivered env) (refresh env c).
Proof.
  unfold refresh. apply cd_with_rows. intros rows w H Hrows.
  now apply cd_cache_rows.
Qed.

Lemma cd_clearOfflineData :
  preserves (caches_delivered env) (SyncService.clearOfflineData env).
Proof.
  unfold SyncService.clearOfflineData, OfflineStorage.clearAllCache,
    OfflineStorage.clearQueue.
  apply preserves_bind.
  - apply preserves_try_catch; [|intros e; apply preserves_throw].
    apply preserves_Promise_all. repeat constructor; apply cd_removeItem.
  - intros _. apply preserves_try_catch; [|intros e; apply preserves_throw].
    apply cd_removeItem.
Qed.

(** In every state the application reaches the caches hold nothing but
    rows that the remote interface has delivered. *)
Lemma served_caches_delivered w : served env w -> caches_delivered env w.
Proof.
  assert (forall e w', any_event e = true -> caches_delivered env w' ->
                       caches_delivered env (emit e w')) as He
    by (intros e w' _; apply cd_emit).
  assert (free any_event not_cache_key QUEUE_KEY) as Hq by (repeat split).
  assert (free any_event not_cache_key SYNC_STATUS_KEY) as Hs
    by (repeat split).
  apply served_invariant.
  - intros t c row Hin. destruct c; destruct Hin.
  - intros t w' H c row Hin. apply (H c row). destruct c; exact Hin.
  - intros w' H c row Hin. apply (H c row). destruct c; exact Hin.
  - intros b w' H c row Hin. apply (H c row). destruct c; exact Hin.
  - intros w' H c row Hin. apply (H c row). destruct c; exact Hin.
  - intros b w'. apply cd_emit.
  - intros m k w'. apply cd_emit.
  - apply preserves_syncOfflineQueue
      with (quiet := any_event) (writable := not_cache_key);
      auto using cd_write, cd_seed.
  - apply cd_syncFromServer.
  - intros s. apply preserves_setSyncStatus
      with (quiet := any_event) (writable := not_cache_key);
      auto using cd_write.
  - intros t o d. apply preserves_queueOperation
      with (quiet := any_event) (writable := not_cache_key);
      auto using cd_write, cd_seed.
  - apply preserves_retryFailedOperations
      with (quiet := any_event) (writable := not_cache_key);
      auto using cd_write, cd_seed.
  - apply cd_clearOfflineData.
  - intros h. apply preserves_cleanupOldQueueItems
      with (quiet := any_event) (writable := not_cache_key);
      auto using cd_write, cd_seed.
  - apply preserves_deduplicateQueue
      with (quiet := any_event) (writable := not_cache_key);
      auto using cd_write, cd_seed.
  - apply cd_refresh.
Qed.
End Delivered.





(** * Further properties of the code *)

(** ** The queue store *)

Lemma calm_env_storage_works : storage_works calm_env.
Proof. intros tr k. repeat split. Qed.

Lemma storage_works_queue env : storage_works env -> queue_store_works env.
Proof. intros H. split; intros tr; apply (H tr QUEUE_KEY). Qed.

(** X1: with the queue blob readable and writable, [addToQueue] returns and
    the stored queue is the old one followed by one new item, which carries
    the given table, type and data, the current time, [retryCount] 0 and the
    given priority or ['normal']. *)
Theorem addToQueue_appends :
  forall env w table type data priority,
    getItem_fault env (trace w) QUEUE_KEY = None ->
    setItem_fault env (trace w) QUEUE_KEY = None ->
    exists item,
      result (OfflineStorage.addToQueue env table type data priority) w = Ok tt
      /\ stored_queue
           (exec (OfflineStorage.addToQueue env table type data priority) w)
         = stored_queue w ++ [item]
      /\ q_table item = table /\ q_type item = type /\ q_data item = data
      /\ q_timestamp item = clock w /\ q_retryCount item = 0
      /\ q_priority item = Some (priority_or_normal priority).
Proof.
  intros env w table type data priority Hg Hs.
  eexists.
  unfold result, exec, OfflineStorage.addToQueue, try_catch, bind.
  rewrite getQueue_run, Hg.
  unfold Date_now, Math_random, OfflineStorage.setItem. simpl.
  rewrite Hs. simpl. repeat split.
Qed.

(** A create enqueued without a priority, behind one queued update. *)
Lemma addToQueue_appends_witness :
  exists item,
    stored_queue
      (exec (OfflineStorage.addToQueue calm_env sales create
               (mkPayload None None "total=50") None)
         (world_with_queue [update_A_x]))
    = [update_A_x; item]
    /\ q_retryCount item = 0 /\ q_priority item = Some normal.
Proof.
  destruct (@addToQueue_appends calm_env (world_with_queue [update_A_x])
              sales create (mkPayload None None "total=50") None
              eq_refl eq_refl)
    as (item & _ & Hq & _ & _ & _ & _ & Hr & Hp).
  exists item. repeat split; assumption.
Defined.

(** X2: when storage rejects the write, [addToQueue] throws that very error
    and neither the stored queue nor the log has changed. *)
Theorem addToQueue_propagates_storage_failure :
  forall env w table type data priority e,
    setItem_fault env (trace w) QUEUE_KEY = Some e ->
    result (OfflineStorage.addToQueue env table type data priority) w = Throw e
    /\ disk (exec (OfflineStorage.addToQueue env table type data priority) w)
       = disk w
    /\ trace (exec (OfflineStorage.addToQueue env table type data priority) w)
       = trace w.
Proof.
  intros env w table type data priority e Hs.
  unfold result, exec, OfflineStorage.addToQueue, try_catch, bind.
  rewrite getQueue_run.
  unfold Date_now, Math_random, OfflineStorage.setItem. simpl.
  rewrite Hs. simpl. repeat split.
Qed.

Lemma addToQueue_propagates_storage_failure_witness :
  result (OfflineStorage.addToQueue queue_unwritable sales create
            (mkPayload None None "total=50") None)
    (world_with_queue [update_A_x])
  = Throw (ErrorObj "database or disk is full")
  /\ stored_queue
       (exec (OfflineStorage.addToQueue queue_unwritable sales create
                (mkPayload None None "total=50") None)
          (world_with_queue [update_A_x]))
     = [update_A_x].
Proof.
  destruct (@addToQueue_propagates_storage_failure queue_unwritable
              (world_with_queue [update_A_x]) sales create
              (mkPayload None None "total=50") None
              (ErrorObj "database or disk is full") eq_refl)
    as (Hr & Hd & _).
  split; [exact Hr|]. unfold stored_queue. now rewrite Hd.
Defined.

(** X3: [removeFromQueue] deletes every stored item with the given id and
    keeps the others in their order; for an id that is not queued the
    stored queue is what it was, so removing twice is removing once. *)
Theorem removeFromQueue_removes :
  forall env w itemId,
    getItem_fault env (trace w) QUEUE_KEY = None ->
    setItem_fault env (trace w) QUEUE_KEY = None ->
    let w' := exec (OfflineStorage.removeFromQueue env itemId) w in
    result (OfflineStorage.removeFromQueue env itemId) w = Ok tt
    /\ stored_queue w'
       = filter (fun item => negb (has_id itemId item)) (stored_queue w)
    /\ existsb (has_id itemId) (stored_queue w') = false
    /\ (existsb (has_id itemId) (stored_queue w) = false ->
        stored_queue w' = stored_queue w).
Proof.
  intros env w itemId Hg Hs w'. subst w'.
  assert (OfflineStorage.removeFromQueue env itemId w
          = (Ok tt,
             emit (StorageSet QUEUE_KEY)
               (with_disk
                  (with_queue
                     (Some (filter (fun item => negb (has_id itemId item))
                              (stored_queue w))) (disk w)) w))) as Hrun.
  { unfold OfflineStorage.removeFromQueue, try_catch, bind.
    rewrite getQueue_run, Hg. unfold OfflineStorage.setItem. now rewrite Hs. }
  unfold result, exec. rewrite Hrun. simpl.
  change (stored_queue (emit _ (with_disk (with_queue (Some ?q) _) _)))
    with q.
  generalize (stored_queue w) as q. intros q. repeat split.
  - induction q as [|x q IH]; simpl; auto.
    destruct (has_id itemId x) eqn:E; simpl; auto. now rewrite E.
  - induction q as [|x q IH]; simpl; auto.
    destruct (has_id itemId x); simpl; [discriminate|].
    intros H. now rewrite IH.
Qed.

Lemma removeFromQueue_removes_witness :
  stored_queue
    (exec (OfflineStorage.removeFromQueue calm_env (q_id update_B))
       (world_with_queue [update_A_x; update_B; update_A_y]))
  = [update_A_x; update_A_y].
Proof.
  apply (@removeFromQueue_removes calm_env
           (world_with_queue [update_A_x; update_B; update_A_y])
           (q_id update_B) eq_refl eq_refl).
Defined.

(** X4: [updateQueueItem] for an id that is not queued does nothing at all:
    it returns, writes nothing and leaves the world as it was. *)
Theorem updateQueueItem_missing_id :
  forall env w itemId updates,
    existsb (has_id itemId) (stored_queue w) = false ->
    OfflineStorage.updateQueueItem env itemId updates w = (Ok tt, w).
Proof.
  intros env w itemId updates Habsent.
  unfold OfflineStorage.updateQueueItem, try_catch, bind.
  rewrite getQueue_run.
  assert (forall q, existsb (has_id itemId) q = false ->
                    replace_first (fun item => String.eqb (q_id item) itemId)
                      updates q = None) as Hnone.
  { induction q as [|x q IH]; simpl; auto.
    unfold has_id at 1. destruct (String.eqb (q_id x) itemId); simpl.
    - discriminate.
    - intros H. now rewrite IH. }
  destruct (getItem_fault env (trace w) QUEUE_KEY); simpl.
  - reflexivity.
  - now rewrite Hnone.
Qed.

Lemma updateQueueItem_missing_id_witness :
  OfflineStorage.updateQueueItem remote_down "no-such-id"
    (OfflineStorage.set_retryCount 1) (world_with_queue [update_A_x])
  = (Ok tt, world_with_queue [update_A_x]).
Proof.
  apply (@updateQueueItem_missing_id remote_down
           (world_with_queue [update_A_x]) "no-such-id"
           (OfflineStorage.set_retryCount 1)).
  reflexivity.
Defined.

(** X5: a mutation of the queue made while the queue blob cannot be read
    replaces what is stored: [getQueue] then answers with the empty list, so
    [cleanupOldQueueItems], [deduplicateQueue] and [removeFromQueue] write
    the empty queue and [addToQueue] writes a queue of the new item alone. *)
Theorem unreadable_queue_is_overwritten :
  forall env w e hoursOld itemId table type data priority,
    getItem_fault env (trace w) QUEUE_KEY = Some e ->
    setItem_fault env (trace w) QUEUE_KEY = None ->
    stored_queue (exec (OfflineStorage.cleanupOldQueueItems env hoursOld) w)
    = []
    /\ stored_queue (exec (OfflineStorage.deduplicateQueue env) w) = []
    /\ stored_queue (exec (OfflineStorage.removeFromQueue env itemId) w) = []
    /\ List.length
         (stored_queue
            (exec (OfflineStorage.addToQueue env table type data priority) w))
       = 1.
Proof.
  intros env w e hoursOld itemId table type data priority Hg Hs.
  unfold exec, OfflineStorage.cleanupOldQueueItems,
    OfflineStorage.deduplicateQueue, OfflineStorage.removeFromQueue,
    OfflineStorage.addToQueue, try_catch, bind.
  rewrite getQueue_run, Hg.
  unfold Date_now, Math_random, OfflineStorage.setItem. simpl.
  rewrite Hs. repeat split.
Qed.

Lemma unreadable_queue_is_overwritten_witness :
  stored_queue (world_with_queue [update_A_x; update_B]) = [update_A_x; update_B]
  /\ stored_queue
       (exec (OfflineStorage.deduplicateQueue queue_unreadable)
          (world_with_queue [update_A_x; update_B])) = [].
Proof.
  split; [reflexivity|].
  apply (@unreadable_queue_is_overwritten queue_unreadable
           (world_with_queue [update_A_x; update_B])
           (ErrorObj "Unexpected token in JSON") 24 "" products update
           (mkPayload None None "") None eq_refl eq_refl).
Defined.

(** X6: [cleanupOldQueueItems] keeps, in their order, exactly the items
    whose timestamp is later than [hoursOld] hours before now; an item
    exactly that old is dropped; and a second cleanup at the same time
    changes nothing more. *)
Theorem cleanupOldQueueItems_keeps_recent :
  forall env w hoursOld,
    getItem_fault env (trace w) QUEUE_KEY = None ->
    setItem_fault env (trace w) QUEUE_KEY = None ->
    let cutoff := (clock w - hoursOld * 60 * 60 * 1000)%Z in
    let kept :=
      stored_queue (exec (OfflineStorage.cleanupOldQueueItems env hoursOld) w) in
    kept = filter (fun item => (q_timestamp item >? cutoff)%Z) (stored_queue w)
    /\ (forall item,
          In item kept <->
          In item (stored_queue w) /\ (cutoff < q_timestamp item)%Z)
    /\ cleanedUp (clock w) hoursOld kept = kept.
Proof.
  intros env w hoursOld Hg Hs cutoff kept. subst kept cutoff.
  assert (stored_queue
            (exec (OfflineStorage.cleanupOldQueueItems env hoursOld) w)
          = cleanedUp (clock w) hoursOld (stored_queue w)) as ->.
  { unfold exec, OfflineStorage.cleanupOldQueueItems, try_catch, bind.
    rewrite getQueue_run, Hg. unfold Date_now, OfflineStorage.setItem.
    now rewrite Hs. }
  unfold cleanedUp. split; [reflexivity|]. split.
  - intros item. rewrite filter_In, Z.gtb_lt. reflexivity.
  - induction (stored_queue w) as [|x q IH]; simpl; auto.
    destruct (q_timestamp x >? clock w - hoursOld * 60 * 60 * 1000)%Z eqn:E;
      simpl; auto.
    now rewrite E, IH.
Qed.

(** At time 86400000, an item stamped 0 is exactly 24 hours old. *)
Lemma cleanupOldQueueItems_keeps_recent_witness :
  stored_queue
    (exec (OfflineStorage.cleanupOldQueueItems calm_env 24)
       (boot (with_queue (Some [old_item; update_A_x]) empty_storage)
          86400000))
  = [update_A_x].
Proof.
  apply (@cleanupOldQueueItems_keeps_recent calm_env
           (boot (with_queue (Some [old_item; update_A_x]) empty_storage)
              86400000) 24 eq_refl eq_refl).
Defined.

Lemma keys_deduplicated queue :
  map dedupKey (deduplicated queue) = JsMap.keys (seen_of queue).
Proof.
  rewrite deduplicated_seen_of.
  pose proof (seen_of_entries queue) as He.
  unfold JsMap.keys, JsMap.values.
  induction (seen_of queue) as [|[k i] m IH]; simpl; auto.
  f_equal.
  - now apply He; left.
  - apply IH. intros. apply He. now right.
Qed.

Lemma deduplicated_distinct_keys queue :
  NoDup (map dedupKey queue) -> deduplicated queue = rev queue.
Proof.
  rewrite deduplicated_seen_of.
  induction queue as [|x rest IH]; simpl; auto.
  intros Hnd. inversion Hnd as [|? ? Hnotin Hrest]; subst.
  unfold dedup_visit. rewrite has_seen_of.
  assert (existsb (has_key (dedupKey x)) rest = false) as Hfresh.
  { destruct (existsb (has_key (dedupKey x)) rest) eqn:E; auto.
    apply existsb_exists in E as (y & Hy & Hk). apply has_key_true in Hk.
    exfalso. apply Hnotin. rewrite <- Hk. now apply in_map. }
  rewrite Hfresh. simpl.
  rewrite JsMapFacts.set_fresh by (now rewrite has_seen_of).
  unfold JsMap.values in *. now rewrite map_app, IH.
Qed.

(** X7: when the storage never rejects a read or a write of the queue
    blob, no two stored items share a key after [deduplicateQueue], and
    running it again stores the same items in the opposite order. *)
Theorem deduplicateQueue_twice :
  forall env w,
    queue_store_works env ->
    let once := exec (OfflineStorage.deduplicateQueue env) w in
    let twice := exec (OfflineStorage.deduplicateQueue env) once in
    NoDup (map dedupKey (stored_queue once))
    /\ stored_queue twice = rev (stored_queue once).
Proof.
  intros env w [Hg Hs] once twice. subst once twice.
  rewrite !deduplicateQueue_run by auto.
  assert (NoDup (map dedupKey (deduplicated (stored_queue w)))) as Hnd.
  { rewrite keys_deduplicated. apply NoDup_keys_seen_of. }
  split; [exact Hnd|]. now apply deduplicated_distinct_keys.
Qed.

Lemma deduplicateQueue_twice_witness :
  stored_queue
    (exec (OfflineStorage.deduplicateQueue calm_env)
       (exec (OfflineStorage.deduplicateQueue calm_env)
          (world_with_queue [update_A_x; update_B; update_A_y])))
  = [update_B; update_A_y].
Proof.
  apply (@deduplicateQueue_twice calm_env
           (world_with_queue [update_A_x; update_B; update_A_y])
           (storage_works_queue calm_env_storage_works)).
Defined.

(** X8: when its read of the queue blob and its write back are not
    rejected, [deduplicateQueue] invents nothing and loses no identity:
    every stored item was queued, and every queued item is either stored or
    superseded by a stored item of its key that is at least as recent. *)
Theorem deduplicateQueue_keeps_every_identity :
  forall env w,
    getItem_fault env (trace w) QUEUE_KEY = None ->
    setItem_fault env (trace w) QUEUE_KEY = None ->
    let stored := stored_queue (exec (OfflineStorage.deduplicateQueue env) w) in
    (forall item, In item stored -> In item (stored_queue w))
    /\ (forall item,
          In item (stored_queue w) ->
          exists survivor,
            In survivor stored
            /\ dedupKey survivor = dedupKey item
            /\ (q_timestamp item <= q_timestamp survivor)%Z).
Proof.
  intros env w Hg Hs stored. subst stored.
  rewrite deduplicateQueue_run by assumption. split.
  - intros item Hin. now apply deduplicated_most_recent in Hin.
  - intros item Hin.
    destruct (latest (dedupKey item) (stored_queue w)) as [s|] eqn:El.
    + exists s. repeat split.
      * assert (In s (filter (has_key (dedupKey item))
                        (deduplicated (stored_queue w)))) as H
          by (rewrite filter_deduplicated, El; now left).
        now apply filter_In in H.
      * eapply latest_key; eauto.
      * eapply latest_newest; eauto.
    + apply latest_None in El.
      assert (existsb (has_key (dedupKey item)) (stored_queue w) = true);
        [|congruence].
      apply existsb_exists. exists item. split; auto. now apply has_key_true.
Qed.

Lemma deduplicateQueue_keeps_every_identity_witness :
  exists survivor,
    In survivor
      (stored_queue
         (exec (OfflineStorage.deduplicateQueue calm_env)
            (world_with_queue [update_A_x; update_B; update_A_y])))
    /\ dedupKey survivor = dedupKey update_A_x
    /\ (q_timestamp update_A_x <= q_timestamp survivor)%Z.
Proof.
  apply (@deduplicateQueue_keeps_every_identity calm_env
           (world_with_queue [update_A_x; update_B; update_A_y])
           eq_refl eq_refl).
  simpl. auto.
Defined.

Lemma goes_before_compareItems a b :
  goes_before a b -> (compareItems a b <=? 0)%Z = true.
Proof.
  unfold compareItems, goes_before, rank. intros H. apply Z.leb_le.
  destruct (priorityOrder (priority_or_normal (q_priority a))
            - priorityOrder (priority_or_normal (q_priority b)) =? 0)%Z eqn:E;
    simpl.
  - apply Z.eqb_eq in E. lia.
  - apply Z.eqb_neq in E. lia.
Qed.

Lemma prioritized_sorted queue :
  StronglySorted goes_before queue -> prioritized queue = queue.
Proof.
  unfold prioritized.
  induction 1 as [|x l Hl IH Hx]; simpl; auto.
  rewrite IH. destruct l as [|y l']; simpl; auto.
  inversion Hx; subst. now rewrite goes_before_compareItems.
Qed.

Lemma ties_with_compareItems a x y :
  ties_with a x = true -> (compareItems x y <=? 0)%Z = false ->
  ties_with a y = false.
Proof.
  unfold ties_with, compareItems. fold (rank x) (rank y).
  intros Hx Hc. apply andb_true_iff in Hx as [Hr Ht].
  apply Z.eqb_eq in Hr, Ht. apply Z.leb_gt in Hc.
  apply andb_false_iff.
  destruct (rank x - rank y =? 0)%Z eqn:E; simpl in Hc.
  - apply Z.eqb_eq in E. right. apply Z.eqb_neq. lia.
  - apply Z.eqb_neq in E. left. apply Z.eqb_neq. lia.
Qed.

Lemma filter_ties_sort_insert a x l :
  filter (ties_with a) (sort_insert compareItems x l)
  = filter (ties_with a) (x :: l).
Proof.
  induction l as [|y l IH]; simpl; auto.
  destruct (compareItems x y <=? 0)%Z eqn:E; simpl; auto.
  simpl in IH. rewrite IH.
  destruct (ties_with a x) eqn:Hx; auto.
  now rewrite (ties_with_compareItems _ _ _ Hx E).
Qed.

Lemma filter_ties_prioritized a queue :
  filter (ties_with a) (prioritized queue) = filter (ties_with a) queue.
Proof.
  unfold prioritized. induction queue as [|x l IH]; simpl; auto.
  rewrite filter_ties_sort_insert. simpl. now rewrite IH.
Qed.

(** X9: [getPrioritizedQueue] is stable: items of the same priority band
    and the same timestamp come out in the order in which they are stored. *)
Theorem getPrioritizedQueue_stable :
  forall env w a,
    getItem_fault env (trace w) QUEUE_KEY = None ->
    exists queue,
      result (OfflineStorage.getPrioritizedQueue env) w = Ok queue
      /\ filter (ties_with a) queue = filter (ties_with a) (stored_queue w).
Proof.
  intros env w a Hg. exists (prioritized (stored_queue w)).
  unfold result. rewrite getPrioritizedQueue_run, Hg.
  split; [reflexivity|apply filter_ties_prioritized].
Qed.

Lemma getPrioritizedQueue_stable_witness :
  exists queue,
    result (OfflineStorage.getPrioritizedQueue calm_env)
      (world_with_queue [low_item; update_B; twin_of_B; critical_item])
    = Ok queue
    /\ filter (ties_with update_B) queue = [update_B; twin_of_B].
Proof.
  apply (@getPrioritizedQueue_stable calm_env
           (world_with_queue [low_item; update_B; twin_of_B; critical_item])
           update_B eq_refl).
Defined.

(** X10: a queue that is stored in processing order is returned by
    [getPrioritizedQueue] as it is; so prioritizing what it returned changes
    nothing. *)
Theorem getPrioritizedQueue_keeps_sorted :
  forall env w,
    getItem_fault env (trace w) QUEUE_KEY = None ->
    (StronglySorted goes_before (stored_queue w) ->
     result (OfflineStorage.getPrioritizedQueue env) w
     = Ok (stored_queue w))
    /\ (forall queue,
          result (OfflineStorage.getPrioritizedQueue env) w = Ok queue ->
          prioritized queue = queue).
Proof.
  intros env w Hg. unfold result.
  rewrite getPrioritizedQueue_run, Hg. simpl. split.
  - intros Hs. now rewrite prioritized_sorted.
  - intros queue [= <-]. apply prioritized_sorted.
    apply (Array_sort_sorted compareItems goes_before);
      eauto using compareItems_le, compareItems_gt, goes_before_trans.
Qed.

Lemma getPrioritizedQueue_keeps_sorted_witness :
  result (OfflineStorage.getPrioritizedQueue calm_env)
    (world_with_queue [critical_item; normal_item; low_item])
  = Ok [critical_item; normal_item; low_item].
Proof.
  apply (@getPrioritizedQueue_keeps_sorted calm_env
           (world_with_queue [critical_item; normal_item; low_item])
           eq_refl).
  repeat constructor; vm_compute; intuition congruence.
Defined.

(** ** The drain *)

Lemma bind_Ok A B (m : M A) (k : A -> M B) w a w1 :
  m w = (Ok a, w1) -> bind m k w = k a w1.
Proof. intros H. unfold bind. now rewrite H. Qed.

Section DrainLoop.
Variable env : Env.
Hypothesis queue_works : queue_store_works env.

Lemma syncOfflineQueue_loop w :
  SyncService.syncOfflineQueue env w
  = (let (o, w') :=
       forEachM (SyncService.drainItem env) (drain_snapshot w) (0, 0, [])
         (drain_start w) in
     (match o with
      | Ok t => Ok (SyncService.result_of t)
      | Throw e => Throw e
      end, w')).
Proof.
  destruct queue_works as [Hg Hs].
  unfold SyncService.syncOfflineQueue.
  unfold bind at 1. rewrite cleanupOldQueueItems_run by assumption.
  unfold bind at 1. rewrite deduplicateQueue_run_world by assumption.
  unfold bind at 1. rewrite getPrioritizedQueue_run, Hg.
  unfold bind at 1.
  match goal with
  | |- context [OfflineStorage.detectConflicts env ?w2] =>
      destruct (@detectConflicts_run env w2) as [conflicts ->]
  end.
  unfold bind, ret.
  change (drain_start w) with
    (emit (StorageSet QUEUE_KEY)
       (with_disk
          (with_queue
             (Some (deduplicated
                      (stored_queue
                         (emit (StorageSet QUEUE_KEY)
                            (with_disk
                               (with_queue
                                  (Some (cleanedUp (clock w) 24
                                           (stored_queue w)))
                                  (disk w)) w)))))
             (disk (emit (StorageSet QUEUE_KEY)
                      (with_disk
                         (with_queue
                            (Some (cleanedUp (clock w) 24 (stored_queue w)))
                            (disk w)) w))))
          (emit (StorageSet QUEUE_KEY)
             (with_disk
                (with_queue
                   (Some (cleanedUp (clock w) 24 (stored_queue w)))
                   (disk w)) w)))).
  unfold drain_snapshot.
  change (stored_queue
            (emit (StorageSet QUEUE_KEY)
               (with_disk
                  (with_queue
                     (Some (deduplicated
                              (stored_queue
                                 (emit (StorageSet QUEUE_KEY)
                                    (with_disk
                                       (with_queue
                                          (Some (cleanedUp (clock w) 24
                                                   (stored_queue w)))
                                          (disk w)) w)))))
                     (disk (emit (StorageSet QUEUE_KEY)
                              (with_disk
                                 (with_queue
                                    (Some (cleanedUp (clock w) 24
                                             (stored_queue w)))
                                    (disk w)) w))))
                  (emit (StorageSet QUEUE_KEY)
                     (with_disk
                        (with_queue
                           (Some (cleanedUp (clock w) 24 (stored_queue w)))
                           (disk w)) w)))))
    with (deduplicated (cleanedUp (clock w) 24 (stored_queue w))).
  destruct (forEachM _ _ _ _) as [[t|e] w']; reflexivity.
Qed.

Lemma drainItem_run item syncedItems failedItems errors w :
  SyncService.drainItem env item (syncedItems, failedItems, errors) w
  = let w1 := emit (ApiWrite (q_table item) (q_type item) (q_data item)) w in
    match api_write env (trace w) (q_table item) (q_type item) (q_data item)
    with
    | None =>
        (Ok (S syncedItems, failedItems, errors),
         exec (OfflineStorage.removeFromQueue env (q_id item)) w1)
    | Some error =>
        if shouldRetryItem item then
          (Ok (syncedItems, failedItems, errors),
           exec (OfflineStorage.updateQueueItem env (q_id item)
                   (OfflineStorage.set_retryCount (q_retryCount item + 1)))
             w1)
        else
          (Ok (syncedItems, S failedItems,
               errors ++ [("Failed to sync " ++ OpType_str (q_type item)
                           ++ " " ++ Table_str (q_table item) ++ ": "
                           ++ message_or error "Unknown error")%string]),
           w1)
    end.
Proof.
  destruct queue_works as [Hg Hs].
  unfold SyncService.drainItem, try_catch.
  unfold bind at 1. rewrite processQueueItem_run.
  unfold SyncService.ApiService_write.
  destruct (api_write env (trace w) (q_table item) (q_type item) (q_data item))
    as [e|]; cbv zeta.
  - destruct (shouldRetryItem item); [|reflexivity].
    unfold bind, exec.
    pose proof (@updateQueueItem_returns env Hs (q_id item)
                  (OfflineStorage.set_retryCount (q_retryCount item + 1))
                  (emit (ApiWrite (q_table item) (q_type item) (q_data item)) w))
      as Hu.
    unfold result in Hu.
    destruct (OfflineStorage.updateQueueItem env _ _ _) as [o w']. simpl in *.
    now subst o.
  - unfold bind, exec.
    pose proof (@removeFromQueue_returns env Hs (q_id item)
                  (emit (ApiWrite (q_table item) (q_type item) (q_data item)) w))
      as Hu.
    unfold result in Hu.
    destruct (OfflineStorage.removeFromQueue env _ _) as [o w']. simpl in *.
    now subst o.
Qed.

Lemma drain_loop_accepted :
  remote_accepts env ->
  forall l syncedItems failedItems errors w,
    result (forEachM (SyncService.drainItem env) l
              (syncedItems, failedItems, errors)) w
    = Ok (syncedItems + List.length l, failedItems, errors)
    /\ forall y,
         In y (stored_queue
                 (exec (forEachM (SyncService.drainItem env) l
                          (syncedItems, failedItems, errors)) w)) ->
         In y (stored_queue w) /\ forall x, In x l -> q_id y <> q_id x.
Proof.
  intros Ha. destruct queue_works as [Hg Hs].
  induction l as [|x l IH]; intros s f e w; cbn [forEachM List.length].
  - unfold result, exec, ret. simpl. rewrite Nat.add_0_r. split; [reflexivity|].
    intros y Hy. split; [exact Hy|]. intros ? [].
  - assert (SyncService.drainItem env x (s, f, e) w
            = (Ok (S s, f, e),
               exec (OfflineStorage.removeFromQueue env (q_id x))
                 (emit (ApiWrite (q_table x) (q_type x) (q_data x)) w)))
      as Hstep by (rewrite drainItem_run, Ha; reflexivity).
    unfold result. rewrite (@exec_bind_Ok _ _ _ _ _ _ _ Hstep), (@bind_Ok _ _ _ _ _ _ _ Hstep).
    destruct (IH (S s) f e
                (exec (OfflineStorage.removeFromQueue env (q_id x))
                   (emit (ApiWrite (q_table x) (q_type x) (q_data x)) w)))
      as [Hr Hq].
    unfold result in Hr. split.
    + rewrite Hr. f_equal. f_equal. f_equal. lia.
    + intros y Hy. apply Hq in Hy as [Hy Hl].
      rewrite removeFromQueue_stored in Hy by assumption.
      apply filter_In in Hy as [Hy Hne]. split; [exact Hy|].
      intros x' [<-|Hx']; auto.
      apply negb_true_iff, String.eqb_neq in Hne. exact Hne.
Qed.
End DrainLoop.

Lemma no_member_nil A (l : list A) : (forall y, ~ In y l) -> l = [].
Proof. destruct l as [|x l]; auto. intros H. destruct (H x). now left. Qed.

(** X11: when the queue blob can be read and written and the remote
    interface accepts every write, a drain sends every item of its snapshot,
    reports them all as synced with no failure, and leaves the stored queue
    empty. *)
Theorem drain_empties_accepted_queue :
  forall env w,
    queue_store_works env ->
    remote_accepts env ->
    result (SyncService.syncOfflineQueue env) w
    = Ok (mkResult true (List.length (drain_snapshot w)) 0 [])
    /\ stored_queue (exec (SyncService.syncOfflineQueue env) w) = [].
Proof.
  intros env w Hq Ha.
  destruct (@drain_loop_accepted env Hq Ha (drain_snapshot w) 0 0 []
              (drain_start w)) as [Hr Hs].
  unfold result, exec in *. rewrite syncOfflineQueue_loop by assumption.
  destruct (forEachM _ _ _ _) as [o w']. simpl in *. subst o. split.
  - reflexivity.
  - apply no_member_nil. intros y Hy. apply Hs in Hy as [Hy Hne].
    apply (Hne y); [|reflexivity].
    unfold drain_snapshot, prioritized.
    eapply Permutation_in; [apply Array_sort_perm|exact Hy].
Qed.

Lemma drain_empties_accepted_queue_witness :
  result (SyncService.syncOfflineQueue calm_env)
    (world_with_queue [update_A_x; update_B; update_A_y])
  = Ok (mkResult true 2 0 [])
  /\ stored_queue
       (exec (SyncService.syncOfflineQueue calm_env)
          (world_with_queue [update_A_x; update_B; update_A_y])) = [].
Proof.
  apply (@drain_empties_accepted_queue calm_env
           (world_with_queue [update_A_x; update_B; update_A_y])).
  - exact (storage_works_queue calm_env_storage_works).
  - intros tr table type data. reflexivity.
Defined.

Lemma getQueue_empty env w :
  stored_queue w = [] -> OfflineStorage.getQueue env w = (Ok [], w).
Proof.
  intros H. rewrite getQueue_run, H.
  now destruct (getItem_fault env (trace w) QUEUE_KEY).
Qed.

Lemma setItem_queue_empty env w :
  stored_queue w = [] ->
  exists w',
    try_catch (OfflineStorage.setItem env QUEUE_KEY []) (fun _ => ret tt) w
    = (Ok tt, w')
    /\ stored_queue w' = []
    /\ filter is_api_write (trace w') = filter is_api_write (trace w).
Proof.
  intros H. unfold try_catch, OfflineStorage.setItem.
  destruct (setItem_fault env (trace w) QUEUE_KEY); eexists; split;
    try reflexivity; auto.
Qed.

(** X12: a drain that finds no stored item sends nothing to the remote
    interface and reports success with nothing synced and nothing failed,
    whatever the storage and the remote interface do. *)
Theorem drain_of_empty_queue_is_silent :
  forall env w,
    stored_queue w = [] ->
    result (SyncService.syncOfflineQueue env) w = Ok (mkResult true 0 0 [])
    /\ filter is_api_write
         (trace (exec (SyncService.syncOfflineQueue env) w))
       = filter is_api_write (trace w)
    /\ stored_queue (exec (SyncService.syncOfflineQueue env) w) = [].
Proof.
  intros env w H.
  assert (OfflineStorage.cleanupOldQueueItems env 24 w
          = try_catch (OfflineStorage.setItem env QUEUE_KEY [])
              (fun _ => ret tt) w) as Hc.
  { unfold OfflineStorage.cleanupOldQueueItems, try_catch, bind.
    now rewrite (@getQueue_empty env _ H). }
  destruct (@setItem_queue_empty env _ H) as (w1 & Hw1 & H1 & T1).
  rewrite <- Hc in Hw1.
  assert (OfflineStorage.deduplicateQueue env w1
          = try_catch (OfflineStorage.setItem env QUEUE_KEY [])
              (fun _ => ret tt) w1) as Hd.
  { unfold OfflineStorage.deduplicateQueue, try_catch, bind.
    now rewrite (@getQueue_empty env _ H1). }
  destruct (@setItem_queue_empty env _ H1) as (w2 & Hw2 & H2 & T2).
  rewrite <- Hd in Hw2.
  assert (SyncService.syncOfflineQueue env w = (Ok (mkResult true 0 0 []), w2))
    as Hrun.
  { unfold SyncService.syncOfflineQueue.
    rewrite (@bind_Ok _ _ _ _ _ _ _ Hw1), (@bind_Ok _ _ _ _ _ _ _ Hw2).
    unfold OfflineStorage.getPrioritizedQueue, OfflineStorage.detectConflicts.
    unfold bind, ret. rewrite (@getQueue_empty env _ H2). cbn iota beta.
    now rewrite (@getQueue_empty env _ H2). }
  unfold result, exec. rewrite Hrun. simpl.
  repeat split; auto. congruence.
Qed.

Lemma drain_of_empty_queue_is_silent_witness :
  result (SyncService.syncOfflineQueue remote_down) (boot empty_storage 5000)
  = Ok (mkResult true 0 0 [])
  /\ filter is_api_write
       (trace (exec (SyncService.syncOfflineQueue remote_down)
                 (boot empty_storage 5000))) = []
  /\ stored_queue
       (exec (SyncService.syncOfflineQueue remote_down)
          (boot empty_storage 5000)) = [].
Proof.
  apply (@drain_of_empty_queue_is_silent remote_down
           (boot empty_storage 5000) eq_refl).
Defined.

Lemma drain_snapshot_stored w item :
  In item (drain_snapshot w) -> In item (stored_queue w).
Proof.
  unfold drain_snapshot, prioritized. intros H.
  eapply Permutation_in in H;
    [|apply Permutation_sym, Array_sort_perm].
  apply deduplicated_most_recent in H as [H _].
  unfold cleanedUp in H. now apply filter_In in H.
Qed.

Lemma drain_loop_retrying env :
  queue_store_works env ->
  forall l,
    (forall item, In item l -> shouldRetryItem item = true) ->
    forall syncedItems failedItems errors w,
      exists n,
        result (forEachM (SyncService.drainItem env) l
                  (syncedItems, failedItems, errors)) w
        = Ok (n, failedItems, errors)
        /\ ((forall tr table type data,
               api_write env tr table type data <> None) ->
            n = syncedItems).
Proof.
  intros Hq. induction l as [|x l IH]; intros Hl s f e w;
    cbn [forEachM].
  - exists s. split; auto.
  - assert (shouldRetryItem x = true) as Hx by (apply Hl; now left).
    assert (forall item, In item l -> shouldRetryItem item = true) as Hl'
      by (intros; apply Hl; now right).
    pose proof (@drainItem_run env Hq x s f e w) as Hstep.
    rewrite Hx in Hstep. cbv zeta in Hstep.
    destruct (api_write env (trace w) (q_table x) (q_type x) (q_data x))
      as [err|] eqn:Ew.
    + unfold result. rewrite (@bind_Ok _ _ _ _ _ _ _ Hstep).
      apply (IH Hl').
    + unfold result. rewrite (@bind_Ok _ _ _ _ _ _ _ Hstep).
      destruct (IH Hl' (S s) f e
                  (exec (OfflineStorage.removeFromQueue env (q_id x))
                     (emit (ApiWrite (q_table x) (q_type x) (q_data x)) w)))
        as (n & Hn & _).
      exists n. split; [exact Hn|].
      intros Hdown. now destruct (Hdown _ _ _ _ Ew).
Qed.

(** X13: when the storage never rejects a read or a write of the queue
    blob, and while every stored item still has retries left, a drain
    reports [success] with no failed item and no error message, whatever
    the remote interface answers; if the remote interface rejects every
    write, the report is success with nothing synced. *)
Theorem drain_reports_success_while_retrying :
  forall env w,
    queue_store_works env ->
    (forall item, In item (stored_queue w) -> shouldRetryItem item = true) ->
    exists n,
      result (SyncService.syncOfflineQueue env) w
      = Ok (mkResult true n 0 [])
      /\ ((forall tr table type data,
             api_write env tr table type data <> None) ->
          n = 0).
Proof.
  intros env w Hq Hr.
  destruct (@drain_loop_retrying env Hq (drain_snapshot w)
              (fun item H => Hr item (drain_snapshot_stored w item H))
              0 0 [] (drain_start w)) as (n & Hn & Hdown).
  exists n. split; [|exact Hdown].
  unfold result in *. rewrite syncOfflineQueue_loop by assumption.
  destruct (forEachM _ _ _ _) as [o w']. simpl in *. now subst o.
Qed.

Lemma drain_reports_success_while_retrying_witness :
  result (SyncService.syncOfflineQueue remote_down)
    (world_with_queue [update_A_x; update_B])
  = Ok (mkResult true 0 0 []).
Proof.
  destruct (@drain_reports_success_while_retrying remote_down
              (world_with_queue [update_A_x; update_B]))
    as (n & Hn & Hdown).
  - split; intros tr; reflexivity.
  - intros item [<-|[<-|[]]]; reflexivity.
  - rewrite Hn. rewrite Hdown; [reflexivity|discriminate].
Defined.

(** ** The retry count *)

Section RetryBound.
Variable env : Env.

Lemma bound_emit e w : queue_within_bound w -> queue_within_bound (emit e w).
Proof. exact (fun H => H). Qed.

Lemma bound_seed n w :
  queue_within_bound w -> queue_within_bound (with_seed n w).
Proof. exact (fun H => H). Qed.

Lemma bound_write k (v : option (Blob k)) w :
  not_queue_key k = true -> queue_within_bound w ->
  queue_within_bound (with_disk (write k v (disk w)) w).
Proof. destruct k; simpl; intros Hk H; try discriminate; exact H. Qed.

Lemma bound_setItem_queue q :
  Forall within_retry_bound q ->
  preserves queue_within_bound (OfflineStorage.setItem env QUEUE_KEY q).
Proof.
  intros Hq w Hw. unfold exec, OfflineStorage.setItem.
  destruct (setItem_fault env (trace w) QUEUE_KEY); simpl; auto.
Qed.

(** A method that reads the queue and then goes on with what it read. *)
Lemma bound_with_queue A (g : list OfflineQueueItem -> M A) :
  (forall q, Forall within_retry_bound q ->
             preserves queue_within_bound (g q)) ->
  preserves queue_within_bound
    (queue <- OfflineStorage.getQueue env ;; g queue).
Proof.
  intros Hg w Hw. unfold exec, bind. rewrite getQueue_run.
  apply Hg; auto.
  destruct (getItem_fault env (trace w) QUEUE_KEY); [constructor|exact Hw].
Qed.

Lemma bound_getQueue :
  preserves queue_within_bound (OfflineStorage.getQueue env).
Proof. intros w Hw. unfold exec. now rewrite getQueue_run. Qed.

Lemma bound_addToQueue t o d p :
  preserves queue_within_bound (OfflineStorage.addToQueue env t o d p).
Proof.
  unfold OfflineStorage.addToQueue.
  apply preserves_try_catch; [|intros e w Hw; exact Hw].
  apply bound_with_queue. intros q Hq w Hw.
  unfold exec, bind, Date_now, Math_random. simpl.
  apply (@bound_setItem_queue _); [|exact Hw].
  apply Forall_app. split; auto. repeat constructor.
Qed.

Lemma bound_removeFromQueue i :
  preserves queue_within_bound (OfflineStorage.removeFromQueue env i).
Proof.
  unfold OfflineStorage.removeFromQueue.
  apply preserves_try_catch; [|intros e w Hw; exact Hw].
  apply bound_with_queue. intros q Hq.
  apply bound_setItem_queue. apply Forall_forall. intros x Hx.
  apply filter_In in Hx as [Hx _]. revert x Hx. now apply Forall_forall.
Qed.

Lemma bound_updateQueueItem i n :
  n <= MAX_RETRY_COUNT ->
  preserves queue_within_bound
    (OfflineStorage.updateQueueItem env i (OfflineStorage.set_retryCount n)).
Proof.
  intros Hn. unfold OfflineStorage.updateQueueItem.
  apply preserves_try_catch; [|intros e w Hw; exact Hw].
  apply bound_with_queue. intros q Hq.
  destruct (replace_first _ _ q) as [q'|] eqn:E; [|intros w Hw; exact Hw].
  apply bound_setItem_queue. apply Forall_forall. intros y Hy.
  destruct (@replace_first_In _ _ _ _ _ _ E Hy) as [H|(x & _ & ->)].
  - clear Hy. revert y H. now apply Forall_forall.
  - exact Hn.
Qed.

Lemma bound_cleanupOldQueueItems h :
  preserves queue_within_bound (OfflineStorage.cleanupOldQueueItems env h).
Proof.
  unfold OfflineStorage.cleanupOldQueueItems.
  apply preserves_try_catch; [|intros e w Hw; exact Hw].
  apply bound_with_queue. intros q Hq w Hw.
  unfold exec, bind, Date_now.
  apply (@bound_setItem_queue _); [|exact Hw].
  apply Forall_forall. intros x Hx. unfold cleanedUp in Hx.
  apply filter_In in Hx as [Hx _]. revert x Hx. now apply Forall_forall.
Qed.

Lemma bound_deduplicateQueue :
  preserves queue_within_bound (OfflineStorage.deduplicateQueue env).
Proof.
  unfold OfflineStorage.deduplicateQueue.
  apply preserves_try_catch; [|intros e w Hw; exact Hw].
  apply bound_with_queue. intros q Hq.
  apply bound_setItem_queue. apply Forall_forall. intros x Hx.
  apply deduplicated_most_recent in Hx as [Hx _].
  revert x Hx. now apply Forall_forall.
Qed.

Lemma bound_clearQueue :
  preserves queue_within_bound (OfflineStorage.clearQueue env).
Proof.
  intros w Hw.
  unfold exec, OfflineStorage.clearQueue, try_catch, OfflineStorage.removeItem.
  destruct (removeItem_fault env (trace w) QUEUE_KEY); simpl; auto.
  constructor.
Qed.

Lemma bound_ApiService_write t o d :
  preserves queue_within_bound (SyncService.ApiService_write env t o d).
Proof.
  intros w Hw. unfold exec, SyncService.ApiService_write.
  now destruct (api_write env (trace w) t o d).
Qed.

Lemma bound_drainItem item t :
  preserves queue_within_bound (SyncService.drainItem env item t).
Proof.
  destruct t as [[s f] e]. unfold SyncService.drainItem.
  apply preserves_try_catch.
  - rewrite processQueueItem_run.
    apply preserves_bind; [apply bound_ApiService_write|intros _].
    apply preserves_bind; [apply bound_removeFromQueue|].
    intros _ w Hw; exact Hw.
  - intros err. destruct (shouldRetryItem item) eqn:E;
      [|intros w Hw; exact Hw].
    apply preserves_bind; [|intros _ w Hw; exact Hw].
    apply bound_updateQueueItem.
    unfold shouldRetryItem in E. apply Nat.ltb_lt in E. lia.
Qed.

Lemma bound_retryItem item t :
  preserves queue_within_bound (SyncService.retryItem env item t).
Proof.
  destruct t as [[s f] e]. unfold SyncService.retryItem.
  apply preserves_try_catch; [|intros err w Hw; exact Hw].
  rewrite processQueueItem_run.
  apply preserves_bind; [apply bound_ApiService_write|intros _].
  apply preserves_bind; [apply bound_removeFromQueue|].
  intros _ w Hw; exact Hw.
Qed.

Lemma bound_syncOfflineQueue :
  preserves queue_within_bound (SyncService.syncOfflineQueue env).
Proof.
  unfold SyncService.syncOfflineQueue.
  apply preserves_bind; [apply bound_cleanupOldQueueItems|intros _].
  apply preserves_bind; [apply bound_deduplicateQueue|intros _].
  apply preserves_bind.
  { apply bound_with_queue. intros q _ w Hw; exact Hw. }
  intros queue. apply preserves_bind.
  { apply bound_with_queue. intros q _ w Hw; exact Hw. }
  intros _. apply preserves_bind; [|intros t w Hw; exact Hw].
  apply preserves_forEachM. apply bound_drainItem.
Qed.

Lemma bound_syncFromServer :
  preserves queue_within_bound (SyncService.syncFromServer env).
Proof.
  apply preserves_syncFromServer
    with (quiet := any_event) (writable := not_queue_key);
    auto using bound_emit, bound_write; repeat split.
Qed.

Lemma bound_performSync :
  preserves queue_within_bound (SyncService.performSync env).
Proof.
  unfold SyncService.performSync.
  apply preserves_try_catch; [|intros e w Hw; exact Hw].
  apply preserves_bind; [apply bound_syncOfflineQueue|intros ?].
  apply preserves_try_catch; [|intros e w Hw; exact Hw].
  apply preserves_bind; [apply bound_syncFromServer|].
  intros ? w Hw; exact Hw.
Qed.

Lemma bound_setSyncStatus s :
  preserves queue_within_bound (OfflineStorage.setSyncStatus env s).
Proof.
  apply preserves_setSyncStatus
    with (quiet := any_event) (writable := not_queue_key);
    auto using bound_emit, bound_write; repeat split.
Qed.

Lemma bound_modify_emit e :
  preserves queue_within_bound (modify (emit e)).
Proof. intros w Hw. exact Hw. Qed.

Lemma bound_syncCycle :
  preserves queue_within_bound (SyncService.syncCycle env).
Proof.
  unfold SyncService.syncCycle, SyncService.uiStore_setLoading,
    SyncService.uiStore_showToast.
  apply preserves_finally; [|intros w Hw; exact Hw].
  apply preserves_try_catch.
  - apply preserves_bind; [apply bound_modify_emit|intros _].
    apply preserves_bind; [apply bound_performSync|intros r].
    apply preserves_bind; [intros w Hw; exact Hw|intros now].
    apply preserves_bind; [apply bound_setSyncStatus|intros _].
    apply preserves_bind; [apply bound_modify_emit|intros _].
    apply preserves_bind; [|intros _ w Hw; exact Hw].
    destruct (success r); [apply bound_modify_emit|].
    destruct (Nat.ltb 0 (failedItems r)); [apply bound_modify_emit|].
    intros w Hw; exact Hw.
  - intros e.
    apply preserves_bind; [apply bound_modify_emit|intros _].
    apply preserves_bind; [apply bound_modify_emit|intros _].
    intros w Hw; exact Hw.
Qed.

Lemma bound_syncAll :
  preserves queue_within_bound (SyncService.syncAll env).
Proof.
  intros w Hw. unfold exec, SyncService.syncAll, bind, get_world.
  destruct (syncInProgress w); [exact Hw|].
  destruct (negb (isOnline w)); [exact Hw|].
  unfold modify. apply bound_syncCycle. exact Hw.
Qed.

Lemma bound_queueOperation t o d :
  preserves queue_within_bound (SyncService.queueOperation env t o d).
Proof.
  intros w Hw. unfold exec, SyncService.queueOperation, bind, get_world.
  destruct (isOnline w).
  - revert w Hw. apply preserves_try_catch.
    + rewrite processQueueItem_run. apply bound_ApiService_write.
    + intros e. apply preserves_bind; [apply bound_addToQueue|].
      intros _ w Hw; exact Hw.
  - now apply bound_addToQueue.
Qed.

Lemma bound_clearOfflineData :
  preserves queue_within_bound (SyncService.clearOfflineData env).
Proof.
  unfold SyncService.clearOfflineData.
  apply preserves_bind; [|intros _; apply bound_clearQueue].
  apply preserves_clearAllCache
    with (quiet := any_event) (writable := not_queue_key);
    auto using bound_emit, bound_write.
  intros [] H; try (now destruct H); repeat split.
Qed.

Lemma bound_getCachedData t :
  preserves queue_within_bound (SyncService.getCachedData env t).
Proof.
  intros w Hw. unfold exec, SyncService.getCachedData, bind, get_world.
  destruct (isOnline w); [exact Hw|].
  destruct t; unfold OfflineStorage.getCachedProducts,
    OfflineStorage.getCachedSales, OfflineStorage.getCachedSellers,
    try_catch, OfflineStorage.getItem;
    match goal with
    | |- context [getItem_fault env ?tr ?k] =>
        destruct (getItem_fault env tr k)
    end; exact Hw.
Qed.

Lemma bound_retryFailedOperations :
  preserves queue_within_bound (SyncService.retryFailedOperations env).
Proof.
  unfold SyncService.retryFailedOperations, OfflineStorage.getFailedItems.
  apply preserves_bind.
  { apply bound_with_queue. intros q _ w Hw; exact Hw. }
  intros l. apply preserves_bind; [|intros t w Hw; exact Hw].
  apply preserves_forEachM. apply bound_retryItem.
Qed.
End RetryBound.

(** X14: no call of the service takes the retry count of a stored item
    beyond [MAX_RETRY_COUNT]: if every stored item is within the bound
    before a call, every stored item is within it afterwards. *)
Theorem retry_count_stays_within_bound :
  forall env c w,
    (forall item, In item (stored_queue w) ->
                  q_retryCount item <= MAX_RETRY_COUNT) ->
    forall item,
      In item (stored_queue (run env c w)) ->
      q_retryCount item <= MAX_RETRY_COUNT.
Proof.
  intros env c w H.
  apply Forall_forall. apply Forall_forall in H.
  change (queue_within_bound (run env c w)).
  change (queue_within_bound w) in H.
  destruct c; simpl.
  - exact H.
  - unfold exec, SyncService.checkOnlineStatus.
    now destruct (netInfo env (trace w)) as [[? ?]|].
  - now apply bound_syncAll.
  - now apply bound_queueOperation.
  - now apply bound_getCachedData.
  - unfold exec, SyncService.getSyncStatus, OfflineStorage.getSyncStatus,
      try_catch, OfflineStorage.getItem.
    now destruct (getItem_fault env (trace w) SYNC_STATUS_KEY).
  - now apply bound_syncAll.
  - now apply bound_clearOfflineData.
  - unfold exec, SyncService.getPendingOperationsCount, bind.
    now rewrite getQueue_run.
  - now apply bound_retryFailedOperations.
Qed.

(** Three failed drains take an item from 0 to the bound; the fourth leaves
    it there. *)
Lemma retry_count_stays_within_bound_witness :
  map q_retryCount
    (stored_queue (drains remote_down 3 (world_with_queue [update_A_x])))
  = [3]
  /\ q_retryCount (OfflineStorage.set_retryCount 3 update_A_x)
     <= MAX_RETRY_COUNT.
Proof.
  split; [reflexivity|].
  apply (@retry_count_stays_within_bound remote_down call_syncAll
           (drains remote_down 3 (world_with_queue [update_A_x]))).
  - vm_compute. intros item [<-|[]]. simpl. lia.
  - vm_compute. now left.
Defined.

(** ** The remote writes of a drain and of a retry *)

Section WritesSent.
Variable env : Env.
Hypothesis queue_works : queue_store_works env.

Lemma writes_removeFromQueue i w :
  writes_sent (exec (OfflineStorage.removeFromQueue env i) w) = writes_sent w.
Proof.
  apply (@preserves_removeFromQueue env
           (fun w' => writes_sent w' = writes_sent w)
           not_api_write any_key); auto.
  - intros e w' He H. unfold writes_sent in *. simpl.
    unfold not_api_write in He. apply negb_true_iff in He. now rewrite He.
  - repeat split.
Qed.

Lemma writes_updateQueueItem i u w :
  writes_sent (exec (OfflineStorage.updateQueueItem env i u) w)
  = writes_sent w.
Proof.
  apply (@preserves_updateQueueItem env
           (fun w' => writes_sent w' = writes_sent w)
           not_api_write any_key); auto.
  - intros e w' He H. unfold writes_sent in *. simpl.
    unfold not_api_write in He. apply negb_true_iff in He. now rewrite He.
  - repeat split.
Qed.

Lemma writes_drainItem item t w :
  writes_sent (exec (SyncService.drainItem env item t) w)
  = request_of item :: writes_sent w.
Proof.
  destruct t as [[s f] e]. unfold exec. rewrite drainItem_run by assumption.
  cbv zeta.
  destruct (api_write env (trace w) (q_table item) (q_type item) (q_data item));
    [destruct (shouldRetryItem item)|]; cbn [snd].
  - now rewrite writes_updateQueueItem.
  - reflexivity.
  - now rewrite writes_removeFromQueue.
Qed.

Lemma retryItem_run item syncedItems failedItemsCount errors w :
  SyncService.retryItem env item (syncedItems, failedItemsCount, errors) w
  = let w1 := emit (request_of item) w in
    match api_write env (trace w) (q_table item) (q_type item) (q_data item)
    with
    | None =>
        (Ok (S syncedItems, failedItemsCount, errors),
         exec (OfflineStorage.removeFromQueue env (q_id item)) w1)
    | Some error =>
        (Ok (syncedItems, S failedItemsCount,
             errors ++ [("Failed to retry " ++ OpType_str (q_type item)
                         ++ " " ++ Table_str (q_table item) ++ ": "
                         ++ message_or error "Unknown error")%string]),
         w1)
    end.
Proof.
  destruct queue_works as [Hg Hs].
  unfold SyncService.retryItem, try_catch.
  unfold bind at 1. rewrite processQueueItem_run.
  unfold SyncService.ApiService_write, request_of.
  destruct (api_write env (trace w) (q_table item) (q_type item) (q_data item))
    as [e|]; cbv zeta; [reflexivity|].
  unfold bind, exec.
  pose proof (@removeFromQueue_returns env Hs (q_id item)
                (emit (ApiWrite (q_table item) (q_type item) (q_data item)) w))
    as Hu.
  unfold result in Hu.
  destruct (OfflineStorage.removeFromQueue env _ _) as [o w']. simpl in *.
  now subst o.
Qed.

Lemma drain_loop_writes l :
  forall t w,
    writes_sent (exec (forEachM (SyncService.drainItem env) l t) w)
    = rev (map request_of l) ++ writes_sent w.
Proof.
  induction l as [|x l IH]; intros t w; cbn [forEachM map rev].
  - reflexivity.
  - destruct (@drainItem_returns env (proj2 queue_works) x t w) as [t' Ht].
    unfold result in Ht.
    assert (SyncService.drainItem env x t w
            = (Ok t', exec (SyncService.drainItem env x t) w)) as Hstep.
    { unfold exec. destruct (SyncService.drainItem env x t w); simpl in *.
      now subst. }
    rewrite (@exec_bind_Ok _ _ _ _ _ _ _ Hstep), IH, writes_drainItem.
    now rewrite <- app_assoc.
Qed.

Lemma retry_loop l :
  forall syncedItems failedItemsCount errors w,
    exists s f e,
      result (forEachM (SyncService.retryItem env) l
                (syncedItems, failedItemsCount, errors)) w = Ok (s, f, e)
      /\ s + f = syncedItems + failedItemsCount + List.length l
      /\ (failedItemsCount <= f)
      /\ writes_sent
           (exec (forEachM (SyncService.retryItem env) l
                    (syncedItems, failedItemsCount, errors)) w)
         = rev (map request_of l) ++ writes_sent w
      /\ forall y,
           In y (stored_queue
                   (exec (forEachM (SyncService.retryItem env) l
                            (syncedItems, failedItemsCount, errors)) w)) ->
           In y (stored_queue w).
Proof.
  destruct queue_works as [Hg Hs].
  induction l as [|x l IH]; intros s0 f0 e0 w; cbn [forEachM map rev].
  - exists s0, f0, e0. repeat split; auto; simpl; lia.
  - pose proof (retryItem_run x s0 f0 e0 w) as Hstep. cbv zeta in Hstep.
    destruct (api_write env (trace w) (q_table x) (q_type x) (q_data x))
      as [err|].
    + unfold result.
      rewrite (@exec_bind_Ok _ _ _ _ _ _ _ Hstep),
        (@bind_Ok _ _ _ _ _ _ _ Hstep).
      destruct (IH s0 (S f0) (e0 ++ [("Failed to retry "
                                       ++ OpType_str (q_type x)
                                       ++ " " ++ Table_str (q_table x) ++ ": "
                                       ++ message_or err "Unknown error")%string])
                  (emit (request_of x) w))
        as (s & f & e & Hr & Hsum & Hle & Hw & Hq).
      exists s, f, e. unfold result in Hr. repeat split; auto.
      * simpl. lia.
      * lia.
      * rewrite Hw. unfold writes_sent. simpl. now rewrite <- app_assoc.
    + unfold result.
      rewrite (@exec_bind_Ok _ _ _ _ _ _ _ Hstep),
        (@bind_Ok _ _ _ _ _ _ _ Hstep).
      destruct (IH (S s0) f0 e0
                  (exec (OfflineStorage.removeFromQueue env (q_id x))
                     (emit (request_of x) w)))
        as (s & f & e & Hr & Hsum & Hle & Hw & Hq).
      exists s, f, e. unfold result in Hr. repeat split; auto.
      * simpl. lia.
      * rewrite Hw, writes_removeFromQueue. unfold writes_sent. simpl.
        now rewrite <- app_assoc.
      * intros y Hy. apply Hq in Hy.
        rewrite removeFromQueue_stored in Hy by assumption.
        now apply filter_In in Hy.
Qed.
End WritesSent.

(** X15: when the queue blob can be read and written, a drain sends the
    write of each item of its snapshot exactly once, in the order of the
    snapshot, whatever the remote interface answers and whatever the retry
    counts are. *)
Theorem drain_sends_snapshot_in_order :
  forall env w,
    queue_store_works env ->
    writes_sent (exec (SyncService.syncOfflineQueue env) w)
    = rev (map request_of (drain_snapshot w)) ++ writes_sent w.
Proof.
  intros env w Hq.
  pose proof (@drain_loop_writes env Hq (drain_snapshot w) (0, 0, [])
                (drain_start w)) as H.
  unfold exec in *. rewrite syncOfflineQueue_loop by assumption.
  destruct (forEachM _ _ _ _) as [o w']. exact H.
Qed.

Lemma drain_sends_snapshot_in_order_witness :
  writes_sent
    (exec (SyncService.syncOfflineQueue remote_down)
       (world_with_queue [low_item; critical_item; normal_item]))
  = [request_of low_item; request_of normal_item; request_of critical_item].
Proof.
  apply (@drain_sends_snapshot_in_order remote_down
           (world_with_queue [low_item; critical_item; normal_item])).
  split; intros tr; reflexivity.
Defined.

(** X16: [retryFailedOperations] sends the exhausted items of the stored
    queue, each once and in queue order, and nothing else; it counts every
    one of them as synced or as failed; and it only removes items: what is
    stored afterwards was stored before, retry count included. *)
Theorem retryFailedOperations_sends_exhausted :
  forall env w,
    queue_store_works env ->
    exists r,
      result (SyncService.retryFailedOperations env) w = Ok r
      /\ syncedItems r + failedItems r
         = List.length (filter exhausted (stored_queue w))
      /\ success r = Nat.eqb (failedItems r) 0
      /\ writes_sent (exec (SyncService.retryFailedOperations env) w)
         = rev (map request_of (filter exhausted (stored_queue w)))
           ++ writes_sent w
      /\ forall item,
           In item (stored_queue
                      (exec (SyncService.retryFailedOperations env) w)) ->
           In item (stored_queue w).
Proof.
  intros env w Hq.
  destruct (@retry_loop env Hq (filter exhausted (stored_queue w)) 0 0 [] w)
    as (s & f & e & Hr & Hsum & _ & Hw & Hin).
  assert (OfflineStorage.getFailedItems env w
          = (Ok (filter exhausted (stored_queue w)), w)) as Hf.
  { unfold OfflineStorage.getFailedItems, bind.
    rewrite getQueue_run, (proj1 Hq). reflexivity. }
  exists (SyncService.result_of (s, f, e)).
  unfold result, SyncService.retryFailedOperations in *.
  rewrite (@exec_bind_Ok _ _ _ _ _ _ _ Hf), (@bind_Ok _ _ _ _ _ _ _ Hf).
  rewrite exec_bind_ret.
  unfold bind. destruct (forEachM _ _ _ _) as [o w'] eqn:E.
  simpl in Hr. subst o. simpl.
  unfold exec in *. rewrite E in *. simpl in *.
  repeat split; auto.
Qed.

Lemma retryFailedOperations_sends_exhausted_witness :
  exists r,
    result (SyncService.retryFailedOperations remote_down)
      (world_with_queue [update_B; exhausted_A]) = Ok r
    /\ syncedItems r + failedItems r = 1
    /\ writes_sent
         (exec (SyncService.retryFailedOperations remote_down)
            (world_with_queue [update_B; exhausted_A]))
       = [request_of exhausted_A].
Proof.
  destruct (@retryFailedOperations_sends_exhausted remote_down
              (world_with_queue [update_B; exhausted_A]))
    as (r & Hr & Hsum & _ & Hw & _).
  - split; intros tr; reflexivity.
  - exists r. repeat split; assumption.
Defined.

(** ** The pull *)

Lemma pullBlock_tally what (pull : M nat) syncedItems failedItems errors w :
  exists s f e,
    SyncService.pullBlock what pull (syncedItems, failedItems, errors) w
    = (Ok (s, f, e), exec pull w)
    /\ failedItems <= f <= S failedItems
    /\ List.length e + failedItems = List.length errors + f
    /\ (forall m, In m errors -> In m e)
    /\ (forall err, result pull w = Throw err ->
          f = S failedItems
          /\ In ("Failed to sync " ++ what ++ ": "
                 ++ message_or err "Unknown error")%string e).
Proof.
  unfold SyncService.pullBlock, try_catch, bind, exec, result, ret.
  destruct (pull w) as [[n|err] w']; simpl.
  - exists (syncedItems + n), failedItems, errors.
    split; [reflexivity|]. split; [lia|]. split; [lia|].
    split; [auto|discriminate].
  - exists syncedItems, (S failedItems),
      (errors ++ [("Failed to sync " ++ what ++ ": "
                   ++ message_or err "Unknown error")%string]).
    rewrite length_app. simpl.
    split; [reflexivity|]. split; [lia|]. split; [lia|]. split.
    + intros m Hm. apply in_or_app. now left.
    + intros err' [= <-]. split; [reflexivity|].
      apply in_or_app. right. now left.
Qed.

Section PullSteps.
Variable env : Env.

(** The world after a pull is the one the four [try] blocks leave in turn. *)
Lemma syncFromServer_steps w :
  exec (SyncService.syncFromServer env) w
  = exec (fetch env all_categories)
      (exec (fetch env all_sellers)
         (exec (fetch env all_sales)
            (exec (fetch env all_products) w))).
Proof.
  unfold SyncService.syncFromServer.
  destruct (pullBlock_tally "products" (fetch env all_products) 0 0 [] w)
    as (s1 & f1 & e1 & H1 & _).
  rewrite (@exec_bind_Ok _ _ _ _ _ _ _ H1).
  destruct (pullBlock_tally "sales" (fetch env all_sales) s1 f1 e1
              (exec (fetch env all_products) w))
    as (s2 & f2 & e2 & H2 & _).
  rewrite (@exec_bind_Ok _ _ _ _ _ _ _ H2).
  destruct (pullBlock_tally "sellers" (fetch env all_sellers) s2 f2 e2
              (exec (fetch env all_sales) (exec (fetch env all_products) w)))
    as (s3 & f3 & e3 & H3 & _).
  rewrite (@exec_bind_Ok _ _ _ _ _ _ _ H3).
  destruct (pullBlock_tally "categories" (fetch env all_categories) s3 f3 e3
              (exec (fetch env all_sellers)
                 (exec (fetch env all_sales)
                    (exec (fetch env all_products) w))))
    as (s4 & f4 & e4 & H4 & _).
  rewrite (@exec_bind_Ok _ _ _ _ _ _ _ H4). reflexivity.
Qed.

(** What a pull reports, from what its four blocks did. *)
Lemma syncFromServer_report w :
  exists r,
    result (SyncService.syncFromServer env) w = Ok r
    /\ failedItems r <= 4
    /\ List.length (errors r) = failedItems r
    /\ success r = Nat.eqb (failedItems r) 0
    /\ forall c err,
         (forall w', result (fetch env c) w' = Throw err) ->
         0 < failedItems r
         /\ In ("Failed to sync " ++ collection_name c ++ ": "
                ++ message_or err "Unknown error")%string (errors r).
Proof.
  unfold SyncService.syncFromServer, result.
  destruct (pullBlock_tally "products" (fetch env all_products) 0 0 [] w)
    as (s1 & f1 & e1 & H1 & L1 & N1 & I1 & T1).
  rewrite (@bind_Ok _ _ _ _ _ _ _ H1).
  destruct (pullBlock_tally "sales" (fetch env all_sales) s1 f1 e1
              (exec (fetch env all_products) w))
    as (s2 & f2 & e2 & H2 & L2 & N2 & I2 & T2).
  rewrite (@bind_Ok _ _ _ _ _ _ _ H2).
  destruct (pullBlock_tally "sellers" (fetch env all_sellers) s2 f2 e2
              (exec (fetch env all_sales) (exec (fetch env all_products) w)))
    as (s3 & f3 & e3 & H3 & L3 & N3 & I3 & T3).
  rewrite (@bind_Ok _ _ _ _ _ _ _ H3).
  destruct (pullBlock_tally "categories" (fetch env all_categories) s3 f3 e3
              (exec (fetch env all_sellers)
                 (exec (fetch env all_sales)
                    (exec (fetch env all_products) w))))
    as (s4 & f4 & e4 & H4 & L4 & N4 & I4 & T4).
  rewrite (@bind_Ok _ _ _ _ _ _ _ H4).
  exists (mkResult (Nat.eqb f4 0) s4 f4 e4). simpl in *.
  repeat split; auto; try lia.
  - destruct c.
    + destruct (T1 err (H _)). lia.
    + destruct (T2 err (H _)). lia.
    + destruct (T3 err (H _)). lia.
    + destruct (T4 err (H _)). lia.
  - destruct c; simpl.
    + destruct (T1 err (H _)). auto.
    + destruct (T2 err (H _)). auto.
    + destruct (T3 err (H _)). auto.
    + destruct (T4 err (H _)). auto.
Qed.

(** A block changes nothing that survives a remote read and a write to the
    block's own cache. *)
Lemma preserves_fetch (I : World -> Prop) quiet writable c :
  (forall e w, quiet e = true -> I w -> I (emit e w)) ->
  (forall k (v : option (Blob k)) w,
      writable k = true -> I w -> I (with_disk (write k v (disk w)) w)) ->
  quiet (ApiGetAll c) = true ->
  free quiet writable (key_of c) ->
  preserves I (fetch env c).
Proof.
  intros I_emit I_write Hq Hfree.
  assert (forall A (a : A), preserves I (ret a)) as Hret
    by (intros A a w Hw; exact Hw).
  destruct c; unfold fetch;
    (apply preserves_bind;
     [apply preserves_Service_getAll with (quiet := quiet); auto|intros rows]);
    (apply preserves_bind; [|intros; apply Hret]).
  - apply preserves_syncProductsWithConflictResolution
      with (quiet := quiet) (writable := writable); auto.
  - apply preserves_syncSalesWithConflictResolution
      with (quiet := quiet) (writable := writable); auto.
  - apply preserves_cacheSellers
      with (quiet := quiet) (writable := writable); auto.
  - apply preserves_cacheCategories
      with (quiet := quiet) (writable := writable); auto.
Qed.

Lemma reads_fetch c w :
  reads_sent (exec (fetch env c) w) = ApiGetAll c :: reads_sent w.
Proof.
  assert (forall e w', not_api_read e = true ->
            reads_sent w' = ApiGetAll c :: reads_sent w ->
            reads_sent (emit e w') = ApiGetAll c :: reads_sent w) as I_emit.
  { intros e w' He H. unfold reads_sent in *. simpl.
    unfold not_api_read in He. apply negb_true_iff in He. now rewrite He. }
  destruct c; unfold fetch, exec, bind at 1, SyncService.Service_getAll;
    match goal with
    | |- context [api_getAll env (trace w) ?c'] =>
        destruct (api_getAll env (trace w) c') as [e|rows]
    end;
    try reflexivity;
    match goal with
    | |- reads_sent (snd ((?m ;; ret ?n) ?w1)) = ?rhs =>
        change (reads_sent (exec (m ;; ret n) w1) = rhs);
        rewrite exec_bind_ret
    end.
  - apply (@preserves_syncProductsWithConflictResolution env
             (fun w' => reads_sent w' = ApiGetAll all_products :: reads_sent w)
             not_api_read any_key I_emit); auto; repeat split.
  - apply (@preserves_syncSalesWithConflictResolution env
             (fun w' => reads_sent w' = ApiGetAll all_sales :: reads_sent w)
             not_api_read any_key I_emit); auto; repeat split.
  - apply (@preserves_cacheSellers env
             (fun w' => reads_sent w' = ApiGetAll all_sellers :: reads_sent w)
             not_api_read any_key I_emit); auto; repeat split.
  - apply (@preserves_cacheCategories env
             (fun w' => reads_sent w' = ApiGetAll all_categories :: reads_sent w)
             not_api_read any_key I_emit); auto; repeat split.
Qed.
End PullSteps.

(** X17: [syncFromServer] never throws and always asks for all four
    collections, in the order products, sales, sellers, categories: a block
    that fails does not stop the next.  It reports at most four failures,
    one message for each, and success exactly when nothing failed. *)
Theorem syncFromServer_requests_every_collection :
  forall env w,
    exists r,
      result (SyncService.syncFromServer env) w = Ok r
      /\ failedItems r <= 4
      /\ List.length (errors r) = failedItems r
      /\ success r = Nat.eqb (failedItems r) 0
      /\ reads_sent (exec (SyncService.syncFromServer env) w)
         = [ApiGetAll all_categories; ApiGetAll all_sellers;
            ApiGetAll all_sales; ApiGetAll all_products] ++ reads_sent w.
Proof.
  intros env w.
  destruct (syncFromServer_report env w) as (r & Hr & H4 & Hl & Hs & _).
  exists r. repeat split; auto.
  rewrite syncFromServer_steps. now rewrite !reads_fetch.
Qed.

Section FetchSteps.
Variable env : Env.

Lemma slot_of_write c k (v : option (Blob k)) d :
  not_key_of c k = true -> slot_of c (write k v d) = slot_of c d.
Proof. destruct c, k; simpl; intros H; try discriminate; reflexivity. Qed.

Lemma fetch_other c c' w :
  Collection_eqb c c' = false ->
  slot_of c (disk (exec (fetch env c') w)) = slot_of c (disk w)
  /\ clock (exec (fetch env c') w) = clock w.
Proof.
  intros Hne.
  apply (@preserves_fetch env
           (fun w' => slot_of c (disk w') = slot_of c (disk w)
                      /\ clock w' = clock w)
           any_event (not_key_of c) c'); auto.
  - intros k v w' Hk [Hs Hc]. split; [|exact Hc].
    simpl. now rewrite slot_of_write.
  - destruct c, c'; try discriminate; repeat split.
Qed.

Lemma fetch_other_slot c c' w :
  Collection_eqb c c' = false ->
  slot_of c (disk (exec (fetch env c') w)) = slot_of c (disk w).
Proof. intros H. now apply fetch_other. Qed.

Lemma fetch_clock c w : clock (exec (fetch env c) w) = clock w.
Proof.
  destruct c;
    [apply (fetch_other all_sales all_products)
    |apply (fetch_other all_products all_sales)
    |apply (fetch_other all_products all_sellers)
    |apply (fetch_other all_products all_categories)]; reflexivity.
Qed.

Lemma fetch_failed c w e :
  api_getAll env (trace w) c = inl e ->
  fetch env c w = (Throw e, emit (ApiGetAll c) w).
Proof.
  intros H.
  destruct c; unfold fetch, bind at 1, SyncService.Service_getAll;
    now rewrite H.
Qed.

Lemma fetch_ok c w rows :
  api_getAll env (trace w) c = inr rows ->
  (forall tr, setItem_fault env tr (key_of c) = None) ->
  (forall tr, getItem_fault env tr (key_of c) = None) ->
  slot_of c (disk (exec (fetch env c) w))
  = Some (mkCached (merged c (cached_rows (slot_of c) w) rows) (clock w) 1).
Proof.
  intros Ha Hs Hg.
  destruct c; unfold exec, fetch, bind at 1, SyncService.Service_getAll;
    rewrite Ha; simpl in Hs, Hg.
  - unfold SyncService.syncProductsWithConflictResolution, bind.
    rewrite getCachedProducts_run, cacheProducts_run, Hs. reflexivity.
  - unfold SyncService.syncSalesWithConflictResolution, bind.
    rewrite getCachedSales_run, cacheSales_run, Hs, Hg. reflexivity.
  - unfold OfflineStorage.cacheSellers, try_catch, bind, Date_now,
      OfflineStorage.setItem.
    rewrite Hs. reflexivity.
  - unfold OfflineStorage.cacheCategories, try_catch, bind, Date_now,
      OfflineStorage.setItem.
    rewrite Hs. reflexivity.
Qed.

(** The cache of a collection after a pull, when its own block got rows and
    could store them. *)
Lemma syncFromServer_slot c w rows :
  (forall tr, api_getAll env tr c = inr rows) ->
  (forall tr, setItem_fault env tr (key_of c) = None) ->
  (forall tr, getItem_fault env tr (key_of c) = None) ->
  slot_of c (disk (exec (SyncService.syncFromServer env) w))
  = Some (mkCached (merged c (cached_rows (slot_of c) w) rows) (clock w) 1).
Proof.
  intros Ha Hs Hg. rewrite syncFromServer_steps.
  destruct c;
    rewrite ?fetch_other_slot by reflexivity;
    rewrite (@fetch_ok _ _ rows) by auto;
    unfold cached_rows;
    rewrite ?fetch_other_slot by reflexivity;
    rewrite ?fetch_clock;
    reflexivity.
Qed.
End FetchSteps.

(** X18: a collection whose fetch is rejected keeps the cache it had: the
    pull leaves that cache as it was, reports failure, and names the collection
    and the error in its messages. *)
Theorem failed_fetch_keeps_cache :
  forall env w c e,
    (forall tr, api_getAll env tr c = inl e) ->
    slot_of c (disk (exec (SyncService.syncFromServer env) w))
    = slot_of c (disk w)
    /\ exists r,
         result (SyncService.syncFromServer env) w = Ok r
         /\ success r = false
         /\ In ("Failed to sync " ++ collection_name c ++ ": "
                ++ message_or e "Unknown error")%string (errors r).
Proof.
  intros env w c e Ha. split.
  - rewrite syncFromServer_steps.
    assert (forall w', slot_of c (disk (exec (fetch env c) w'))
                       = slot_of c (disk w')) as Hown.
    { intros w'. unfold exec. now rewrite (@fetch_failed env c w' e). }
    destruct c;
      rewrite ?fetch_other_slot by reflexivity;
      rewrite Hown;
      rewrite ?fetch_other_slot by reflexivity;
      reflexivity.
  - destruct (syncFromServer_report env w) as (r & Hr & _ & _ & Hs & Hf).
    exists r. split; [exact Hr|].
    destruct (Hf c e) as [Hpos Hin].
    { intros w'. unfold result. now rewrite (@fetch_failed env c w' e). }
    split; [|exact Hin].
    rewrite Hs. apply Nat.eqb_neq. lia.
Qed.

Lemma failed_fetch_keeps_cache_witness :
  products_slot
    (disk (exec (SyncService.syncFromServer products_and_sales_down)
             (world_with_products [product_p1])))
  = Some (mkCached [product_p1] 3000 1).
Proof.
  apply (@failed_fetch_keeps_cache products_and_sales_down
           (world_with_products [product_p1]) all_products
           (ErrorObj "Network request failed")).
  intros tr. reflexivity.
Defined.

(** X19: a collection whose rows arrive and whose cache can be read and
    written is cached whatever happens to the other three collections: its
    cache then holds the rows the code merges for it (the server's rows; for
    sales, [resolvedSales] of the cached and the server's rows), stamped with
    the current time and version 1. *)
Theorem fetched_rows_are_cached :
  forall env w c rows,
    (forall tr, api_getAll env tr c = inr rows) ->
    (forall tr, setItem_fault env tr (key_of c) = None) ->
    (forall tr, getItem_fault env tr (key_of c) = None) ->
    slot_of c (disk (exec (SyncService.syncFromServer env) w))
    = Some (mkCached
              (match c with
               | all_sales => resolvedSales (cached_rows sales_slot w) rows
               | _ => rows
               end) (clock w) 1).
Proof.
  intros env w c rows Ha Hs Hg.
  rewrite (@syncFromServer_slot env c w rows) by assumption.
  now destruct c.
Qed.

Lemma fetched_rows_are_cached_witness :
  sellers_slot
    (disk (exec (SyncService.syncFromServer products_and_sales_down)
             (boot empty_storage 5000)))
  = Some (mkCached [temp_seller] 5000 1).
Proof.
  apply (@fetched_rows_are_cached products_and_sales_down
           (boot empty_storage 5000) all_sellers [temp_seller]);
    intros tr; reflexivity.
Defined.

Lemma of_entries_In V (l : list (string * V)) :
  forall m k v,
    In (k, v) (fold_left (fun m kv => JsMap.set (fst kv) (snd kv) m) l m) ->
    In (k, v) m \/ In (k, v) l.
Proof.
  assert (forall (m : JsMap.t V) k0 v0 k v,
             In (k, v) (JsMap.set k0 v0 m) ->
             In (k, v) m \/ (k, v) = (k0, v0)) as Hset.
  { induction m as [|[k' v'] m IH]; simpl; intros k0 v0 k v.
    - intros [H|[]]; auto.
    - destruct (String.eqb_spec k0 k'); simpl.
      + intros [H|H]; auto. inversion H; subst. auto.
      + intros [H|H]; auto. destruct (IH _ _ _ _ H); auto. }
  induction l as [|[k0 v0] l IH]; simpl; intros m k v H; auto.
  apply IH in H as [H|H]; auto.
  apply Hset in H as [H|H]; auto.
Qed.

Lemma resolvedSales_In localSales serverSales sale :
  In sale (resolvedSales localSales serverSales) ->
  In sale serverSales
  \/ (In sale localSales /\ pending_local_create sale = true).
Proof.
  unfold resolvedSales. intros H. apply in_app_or in H as [H|H];
    apply filter_In in H as [H Hp]; auto.
Qed.

Lemma resolvedSales_server_row localSales serverSales sale :
  In sale serverSales ->
  (forall l, In l localSales -> r_id l = r_id sale ->
             pending_local_create l = false) ->
  In sale (resolvedSales localSales serverSales).
Proof.
  intros Hin Hno. unfold resolvedSales. apply in_or_app. left.
  apply filter_In. split; [exact Hin|].
  destruct (JsMap.get (r_id sale) _) as [l|] eqn:E; [|reflexivity].
  apply JsMapFacts.get_In in E. unfold JsMap.of_entries in E.
  apply of_entries_In in E as [[]|E].
  apply in_map_iff in E as (l' & [= Hid <-] & Hl).
  specialize (Hno _ Hl Hid). unfold pending_local_create in Hno.
  now rewrite andb_comm, Hno.
Qed.

(** X20: when the server's sales arrive and the sales cache can be read and
    written, the sales cache after a pull holds nothing but rows the server
    sent and pending local creates that were cached before; and it holds
    every row the server sent whose id is not the id of a pending local
    create. *)
Theorem pull_sales_cache_content :
  forall env w rows,
    (forall tr, api_getAll env tr all_sales = inr rows) ->
    (forall tr, setItem_fault env tr SALES_CACHE_KEY = None) ->
    (forall tr, getItem_fault env tr SALES_CACHE_KEY = None) ->
    let after :=
      cached_rows sales_slot (exec (SyncService.syncFromServer env) w) in
    (forall sale,
        In sale after ->
        In sale rows
        \/ (In sale (cached_rows sales_slot w)
            /\ pending_local_create sale = true))
    /\ (forall sale,
          In sale rows ->
          (forall l, In l (cached_rows sales_slot w) ->
                     r_id l = r_id sale -> pending_local_create l = false) ->
          In sale after).
Proof.
  intros env w rows Ha Hs Hg after. subst after.
  pose proof (@syncFromServer_slot env all_sales w rows Ha Hs Hg) as H.
  cbn [slot_of merged] in H.
  assert (cached_rows sales_slot (exec (SyncService.syncFromServer env) w)
          = resolvedSales (cached_rows sales_slot w) rows) as ->
    by (unfold cached_rows at 1; now rewrite H).
  split.
  - intros sale. apply resolvedSales_In.
  - intros sale. apply resolvedSales_server_row.
Qed.

Lemma pull_sales_cache_content_witness :
  In server_sale
    (cached_rows sales_slot
       (exec (SyncService.syncFromServer server_lists_p1)
          (world_with_sales [temp_sale]))).
Proof.
  apply (@pull_sales_cache_content server_lists_p1
           (world_with_sales [temp_sale]) [server_sale]);
    try (intros tr; reflexivity).
  - now left.
  - intros l [<-|[]]. discriminate.
Defined.

(** ** A whole cycle *)

Lemma performSync_isOnline env w :
  isOnline (exec (SyncService.performSync env) w) = isOnline w.
Proof.
  apply preserves_performSync
    with (I := fun w' => isOnline w' = isOnline w)
         (quiet := any_event) (writable := any_key).
  all: auto; repeat split.
Qed.

Lemma performSync_run env w :
  exists r,
    SyncService.performSync env w
    = (Ok r, exec (SyncService.performSync env) w).
Proof.
  destruct (performSync_returns env w) as [r Hr]. exists r.
  unfold result, exec in *.
  destruct (SyncService.performSync env w) as [o w']. simpl in *.
  now subst o.
Qed.

(** X21: [syncAll] never throws and always gives the guard back: the
    [syncInProgress] flag is afterwards what it was before the call, the
    [isOnline] flag is untouched, and the loading indicator is never left
    switched on by the call. *)
Theorem syncAll_releases_guard :
  forall env w,
    exists r,
      result (SyncService.syncAll env) w = Ok r
      /\ syncInProgress (exec (SyncService.syncAll env) w) = syncInProgress w
      /\ isOnline (exec (SyncService.syncAll env) w) = isOnline w
      /\ (loading (trace (exec (SyncService.syncAll env) w)) = Some true ->
          loading (trace w) = Some true).
Proof.
  intros env w. destruct (syncInProgress w) eqn:Hp.
  { exists SyncService.already_in_progress.
    unfold result, exec, SyncService.syncAll, bind, get_world.
    rewrite Hp. simpl. auto. }
  destruct (isOnline w) eqn:Ho.
  2: { exists SyncService.device_offline.
       unfold result, exec, SyncService.syncAll, bind, get_world.
       rewrite Hp, Ho. simpl. auto. }
  unfold result, exec. rewrite (syncAll_enters env w Hp Ho).
  destruct (performSync_run env (cycle_start w)) as [r Hrun].
  pose proof (performSync_isOnline env (cycle_start w)) as Hon.
  rewrite (syncCycle_run env (with_syncInProgress true w) Hrun).
  destruct (setItem_fault env _ SYNC_STATUS_KEY) as [e|].
  - eexists. split; [reflexivity|]. simpl. split; [reflexivity|].
    split; [|discriminate].
    rewrite Hon. exact Ho.
  - exists r. split; [reflexivity|]. simpl. split; [reflexivity|].
    unfold toast_of.
    destruct (success r); [|destruct (Nat.ltb 0 (failedItems r))]; simpl;
      (split; [rewrite Hon; exact Ho|discriminate]).
Qed.

Section HappyPath.
Variable env : Env.
Variable rows : Collection -> list Row.
Hypothesis store_works : storage_works env.
Hypothesis accepts : remote_accepts env.
Hypothesis lists : forall tr c, api_getAll env tr c = inr (rows c).

Lemma fetch_returns c w :
  fetch env c w = (Ok (List.length (rows c)), exec (fetch env c) w).
Proof.
  assert (forall tr k, setItem_fault env tr k = None) as Hs
    by (intros tr k; apply store_works).
  destruct c; unfold exec, fetch, bind at 1 3, SyncService.Service_getAll;
    rewrite lists.
  - unfold SyncService.syncProductsWithConflictResolution, bind.
    rewrite getCachedProducts_run, cacheProducts_run, Hs. reflexivity.
  - unfold SyncService.syncSalesWithConflictResolution, bind.
    rewrite getCachedSales_run, cacheSales_run, Hs. reflexivity.
  - unfold OfflineStorage.cacheSellers, try_catch, bind, Date_now,
      OfflineStorage.setItem.
    rewrite Hs. reflexivity.
  - unfold OfflineStorage.cacheCategories, try_catch, bind, Date_now,
      OfflineStorage.setItem.
    rewrite Hs. reflexivity.
Qed.

Lemma pullBlock_returns what c syncedItems failedItems errors w :
  SyncService.pullBlock what (fetch env c) (syncedItems, failedItems, errors) w
  = (Ok (syncedItems + List.length (rows c), failedItems, errors),
     exec (fetch env c) w).
Proof.
  unfold SyncService.pullBlock, try_catch, bind. now rewrite fetch_returns.
Qed.

Lemma syncFromServer_returns w :
  SyncService.syncFromServer env w
  = (Ok (mkResult true
           (0 + List.length (rows all_products)
            + List.length (rows all_sales)
            + List.length (rows all_sellers)
            + List.length (rows all_categories)) 0 []),
     exec (SyncService.syncFromServer env) w).
Proof.
  rewrite syncFromServer_steps. unfold SyncService.syncFromServer.
  rewrite (@bind_Ok _ _ _ _ _ _ _
             (pullBlock_returns "products" all_products 0 0 [] w)).
  rewrite (@bind_Ok _ _ _ _ _ _ _
             (pullBlock_returns "sales" all_sales _ 0 [] _)).
  rewrite (@bind_Ok _ _ _ _ _ _ _
             (pullBlock_returns "sellers" all_sellers _ 0 [] _)).
  rewrite (@bind_Ok _ _ _ _ _ _ _
             (pullBlock_returns "categories" all_categories _ 0 [] _)).
  reflexivity.
Qed.

Lemma syncOfflineQueue_returns w :
  SyncService.syncOfflineQueue env w
  = (Ok (mkResult true (List.length (drain_snapshot w)) 0 []),
     exec (SyncService.syncOfflineQueue env) w)
  /\ stored_queue (exec (SyncService.syncOfflineQueue env) w) = [].
Proof.
  pose proof (storage_works_queue store_works) as Hq.
  destruct (@drain_loop_accepted env Hq accepts (drain_snapshot w) 0 0 []
              (drain_start w)) as [Hr Hs].
  unfold result, exec in *. rewrite syncOfflineQueue_loop by assumption.
  destruct (forEachM _ _ _ _) as [o w']. simpl in *. subst o.
  split; [reflexivity|].
  apply no_member_nil. intros y Hy. apply Hs in Hy as [Hy Hne].
  apply (Hne y); [|reflexivity].
  unfold drain_snapshot, prioritized.
  eapply Permutation_in; [apply Array_sort_perm|exact Hy].
Qed.

Lemma syncFromServer_queue w :
  stored_queue (exec (SyncService.syncFromServer env) w) = stored_queue w.
Proof.
  apply preserves_syncFromServer
    with (I := fun w' => stored_queue w' = stored_queue w)
         (quiet := any_event) (writable := not_queue_key).
  all: auto; try (repeat split; reflexivity).
  intros k v w' Hk H. rewrite <- H. now destruct k.
Qed.

Lemma performSync_clock w :
  clock (exec (SyncService.performSync env) w) = clock w.
Proof.
  apply preserves_performSync
    with (I := fun w' => clock w' = clock w)
         (quiet := any_event) (writable := any_key).
  all: auto; repeat split.
Qed.

Lemma performSync_happy w :
  SyncService.performSync env w
  = (Ok (mkResult true
           (0 + List.length (drain_snapshot w)
            + (0 + List.length (rows all_products)
               + List.length (rows all_sales)
               + List.length (rows all_sellers)
               + List.length (rows all_categories))) 0 []),
     exec (SyncService.performSync env) w)
  /\ stored_queue (exec (SyncService.performSync env) w) = [].
Proof.
  destruct (syncOfflineQueue_returns w) as [Hd Hq].
  pose proof (syncFromServer_returns
                (exec (SyncService.syncOfflineQueue env) w)) as Hp.
  assert (SyncService.performSync env w
          = (Ok (mkResult true
                   (0 + List.length (drain_snapshot w)
                    + (0 + List.length (rows all_products)
                       + List.length (rows all_sales)
                       + List.length (rows all_sellers)
                       + List.length (rows all_categories))) 0 []),
             exec (SyncService.syncFromServer env)
               (exec (SyncService.syncOfflineQueue env) w))) as Hrun.
  { unfold SyncService.performSync, try_catch at 1.
    rewrite (@bind_Ok _ _ _ _ _ _ _ Hd). unfold try_catch.
    rewrite (@bind_Ok _ _ _ _ _ _ _ Hp). reflexivity. }
  assert (exec (SyncService.performSync env) w
          = exec (SyncService.syncFromServer env)
              (exec (SyncService.syncOfflineQueue env) w)) as ->
    by (unfold exec at 1; now rewrite Hrun).
  split; [exact Hrun|]. now rewrite syncFromServer_queue.
Qed.
End HappyPath.

(** X22: when storage works, the remote interface accepts every write and
    every collection can be fetched, a [syncAll] that enters its cycle
    reports success with every drained item and every fetched row counted
    and nothing failed, leaves the stored queue empty, and persists a status
    with the current time and no pending item. *)
Theorem syncAll_succeeds :
  forall env rows w,
    syncInProgress w = false ->
    isOnline w = true ->
    storage_works env ->
    remote_accepts env ->
    (forall tr c, api_getAll env tr c = inr (rows c)) ->
    result (SyncService.syncAll env) w
    = Ok (mkResult true
            (List.length (drain_snapshot w)
             + (List.length (rows all_products)
                + List.length (rows all_sales)
                + List.length (rows all_sellers)
                + List.length (rows all_categories))) 0 [])
    /\ stored_queue (exec (SyncService.syncAll env) w) = []
    /\ status_slot (disk (exec (SyncService.syncAll env) w))
       = Some (mkStatus (clock w) true 0).
Proof.
  intros env rows w Hp Ho Hst Hacc Hrows.
  destruct (@performSync_happy env rows Hst Hacc Hrows (cycle_start w))
    as [Hrun Hq].
  pose proof (performSync_clock env (cycle_start w)) as Hc.
  unfold result, exec. rewrite (syncAll_enters env w Hp Ho).
  rewrite (syncCycle_run env (with_syncInProgress true w) Hrun).
  destruct (Hst (trace (exec (SyncService.performSync env) (cycle_start w)))
              SYNC_STATUS_KEY) as (_ & -> & _).
  simpl. split; [|split].
  - f_equal.
  - exact Hq.
  - now rewrite Hc.
Qed.

Lemma syncAll_succeeds_witness :
  result (SyncService.syncAll server_lists_p1)
    (world_with_queue [update_A_x; update_B])
  = Ok (mkResult true 4 0 [])
  /\ stored_queue
       (exec (SyncService.syncAll server_lists_p1)
          (world_with_queue [update_A_x; update_B])) = []
  /\ status_slot
       (disk (exec (SyncService.syncAll server_lists_p1)
                (world_with_queue [update_A_x; update_B])))
     = Some (mkStatus 5000 true 0).
Proof.
  apply (@syncAll_succeeds server_lists_p1 rows_of_server_lists_p1
           (world_with_queue [update_A_x; update_B])); try reflexivity.
  - intros tr k. repeat split.
  - intros tr table type data. reflexivity.
  - intros tr []; reflexivity.
Defined.

(** ** Entry points *)

Lemma queueOperation_online_run env w table type data :
  isOnline w = true ->
  SyncService.queueOperation env table type data w
  = match api_write env (trace w) table type data with
    | None => (Ok tt, emit (ApiWrite table type data) w)
    | Some e =>
        match OfflineStorage.addToQueue env table type data None
                (emit (ApiWrite table type data) w) with
        | (Ok _, w') => (Throw e, w')
        | (Throw e', w') => (Throw e', w')
        end
    end.
Proof.
  intros Ho. unfold SyncService.queueOperation, bind at 1, get_world.
  rewrite Ho. unfold try_catch. rewrite processQueueItem_run.
  unfold SyncService.ApiService_write.
  destruct (api_write env (trace w) table type data) as [e|]; [|reflexivity].
  unfold bind, throw.
  now destruct (OfflineStorage.addToQueue env table type data None _)
    as [[[]|e'] w'].
Qed.

(** X23: while the service takes itself to be online, [queueOperation]
    sends the write at once.  If the remote interface accepts it, nothing is
    stored; if it rejects it and the queue blob can be read and written, the
    operation is appended to the stored queue as one new item with
    [retryCount] 0 and priority ['normal'], and the remote error is thrown
    to the caller. *)
Theorem queueOperation_queues_what_fails :
  forall env w table type data,
    isOnline w = true ->
    getItem_fault env (ApiWrite table type data :: trace w) QUEUE_KEY = None ->
    setItem_fault env (ApiWrite table type data :: trace w) QUEUE_KEY = None ->
    let after := exec (SyncService.queueOperation env table type data) w in
    writes_sent after = ApiWrite table type data :: writes_sent w
    /\ match api_write env (trace w) table type data with
       | None =>
           result (SyncService.queueOperation env table type data) w = Ok tt
           /\ disk after = disk w
       | Some e =>
           result (SyncService.queueOperation env table type data) w = Throw e
           /\ exists item,
                stored_queue after = stored_queue w ++ [item]
                /\ q_table item = table /\ q_type item = type
                /\ q_data item = data /\ q_timestamp item = clock w
                /\ q_retryCount item = 0 /\ q_priority item = Some normal
       end.
Proof.
  intros env w table type data Ho Hg Hs after. subst after.
  unfold result, exec. rewrite (@queueOperation_online_run env w table type data Ho).
  destruct (api_write env (trace w) table type data) as [e|];
    [|now simpl].
  unfold OfflineStorage.addToQueue, try_catch, bind.
  rewrite getQueue_run. simpl. rewrite Hg.
  unfold OfflineStorage.setItem. simpl. rewrite Hs. simpl.
  split; [reflexivity|]. split; [reflexivity|].
  eexists. repeat split.
Qed.

Lemma queueOperation_queues_what_fails_witness :
  result (SyncService.queueOperation remote_down products delete
            (mkPayload (Some "p1") None ""))
    (boot empty_storage 4000)
  = Throw (ErrorObj "Network request failed")
  /\ List.length
       (stored_queue
          (exec (SyncService.queueOperation remote_down products delete
                   (mkPayload (Some "p1") None ""))
             (boot empty_storage 4000))) = 1.
Proof.
  destruct (@queueOperation_queues_what_fails remote_down
              (boot empty_storage 4000) products delete
              (mkPayload (Some "p1") None "") eq_refl eq_refl eq_refl)
    as (_ & Hr & item & Hq & _).
  split; [exact Hr|]. rewrite Hq. reflexivity.
Defined.

(** X24: when the remote interface rejects the write and storage then
    rejects the write of the queue, [queueOperation] throws the storage error
    in place of the remote one, and the operation is not queued: nothing is
    stored of it. *)
Theorem queueOperation_loses_unqueued_operation :
  forall env w table type data e e',
    isOnline w = true ->
    api_write env (trace w) table type data = Some e ->
    setItem_fault env (ApiWrite table type data :: trace w) QUEUE_KEY
    = Some e' ->
    result (SyncService.queueOperation env table type data) w = Throw e'
    /\ disk (exec (SyncService.queueOperation env table type data) w)
       = disk w.
Proof.
  intros env w table type data e e' Ho Ha Hs.
  unfold result, exec. rewrite (@queueOperation_online_run env w table type data Ho), Ha.
  unfold OfflineStorage.addToQueue, try_catch, bind.
  rewrite getQueue_run. simpl.
  unfold OfflineStorage.setItem. simpl. rewrite Hs. simpl. auto.
Qed.

Lemma queueOperation_loses_unqueued_operation_witness :
  result (SyncService.queueOperation remote_down_queue_unwritable
            sales create (mkPayload None None "total=50"))
    (boot empty_storage 4000)
  = Throw (ErrorObj "database or disk is full")
  /\ disk (exec (SyncService.queueOperation remote_down_queue_unwritable
                   sales create (mkPayload None None "total=50"))
             (boot empty_storage 4000))
     = empty_storage.
Proof.
  apply (@queueOperation_loses_unqueued_operation
           remote_down_queue_unwritable (boot empty_storage 4000)
           sales create (mkPayload None None "total=50")
           (ErrorObj "Network request failed")
           (ErrorObj "database or disk is full") eq_refl eq_refl eq_refl).
Defined.

(** X25: in every state the service can reach, [getCachedData] returns the
    empty list and touches nothing, whatever the caches hold: the service
    never takes itself to be offline, and online it answers with no rows. *)
Theorem getCachedData_returns_nothing :
  forall env w table,
    reachable env w ->
    SyncService.getCachedData env table w = (Ok [], w).
Proof.
  intros env w table Hr.
  unfold SyncService.getCachedData, bind, get_world.
  now rewrite (reachable_isOnline Hr).
Qed.

Lemma getCachedData_returns_nothing_witness :
  cached_rows products_slot (world_with_products [product_p1]) = [product_p1]
  /\ SyncService.getCachedData calm_env products
       (world_with_products [product_p1])
     = (Ok [], world_with_products [product_p1]).
Proof.
  split; [reflexivity|].
  apply (@getCachedData_returns_nothing calm_env
           (world_with_products [product_p1]) products).
  apply reach_boot.
Defined.

(** X26: [clearOfflineData] either returns, and then every stored blob is
    gone, or throws, and then the stored queue is exactly what it was (while
    caches may already have been removed). *)
Theorem clearOfflineData_all_or_queue_kept :
  forall env w,
    match result (SyncService.clearOfflineData env) w with
    | Ok _ =>
        disk (exec (SyncService.clearOfflineData env) w) = empty_storage
    | Throw _ =>
        queue_slot (disk (exec (SyncService.clearOfflineData env) w))
        = queue_slot (disk w)
    end.
Proof.
  intros env w.
  unfold result, exec, SyncService.clearOfflineData, bind,
    OfflineStorage.clearAllCache, OfflineStorage.clearQueue, try_catch,
    Promise_all, OfflineStorage.removeItem, ret, throw.
  repeat match goal with
         | |- context [removeItem_fault env ?tr ?k] =>
             destruct (removeItem_fault env tr k); simpl
         end; reflexivity.
Qed.

(** ** Statistics and cache expiry *)

Lemma get_bumps (f : OfflineQueueItem -> string) queue :
  forall m k,
    JsMap.get k
      (fold_left (fun m item => OfflineStorage.bump (f item) m) queue m)
    = let c := count_where (fun item => String.eqb (f item) k) queue in
      if Nat.eqb c 0 then JsMap.get k m
      else Some (c + match JsMap.get k m with Some n => n | None => 0 end).
Proof.
  unfold count_where.
  induction queue as [|x queue IH]; intros m k; simpl; auto.
  rewrite IH. unfold OfflineStorage.bump.
  destruct (String.eqb_spec (f x) k) as [->|Hne]; simpl.
  - rewrite JsMapFacts.get_set_same.
    destruct (Nat.eqb (List.length _) 0) eqn:E.
    + apply Nat.eqb_eq in E. rewrite E. f_equal. lia.
    + f_equal. lia.
  - now rewrite JsMapFacts.get_set_other.
Qed.

Lemma stats_fold queue :
  forall init,
    let stats :=
      fold_left
        (fun stats item =>
           mkStats (qs_total stats)
             (OfflineStorage.bump
                (Priority_str (priority_or_normal (q_priority item)))
                (qs_byPriority stats))
             (OfflineStorage.bump (OpType_str (q_type item))
                (qs_byType stats))
             (OfflineStorage.bump (Table_str (q_table item))
                (qs_byTable stats))
             (qs_oldestItem stats) (qs_failedItems stats))
        queue init in
    qs_total stats = qs_total init
    /\ qs_oldestItem stats = qs_oldestItem init
    /\ qs_failedItems stats = qs_failedItems init
    /\ qs_byPriority stats
       = fold_left
           (fun m item =>
              OfflineStorage.bump
                (Priority_str (priority_or_normal (q_priority item))) m)
           queue (qs_byPriority init)
    /\ qs_byType stats
       = fold_left
           (fun m item => OfflineStorage.bump (OpType_str (q_type item)) m)
           queue (qs_byType init)
    /\ qs_byTable stats
       = fold_left
           (fun m item => OfflineStorage.bump (Table_str (q_table item)) m)
           queue (qs_byTable init).
Proof.
  induction queue as [|x queue IH]; intros init.
  - repeat split.
  - cbn [fold_left]. cbv zeta in IH |- *.
    match goal with
    | |- context [fold_left _ queue ?init'] =>
        destruct (IH init') as (Ht & Ho & Hf & Hp & Hy & Hb)
    end.
    rewrite Ht, Ho, Hf, Hp, Hy, Hb. repeat split.
Qed.

Lemma Math_min_least x xs :
  In (OfflineStorage.Math_min x xs) (x :: xs)
  /\ forall y, In y (x :: xs) -> (OfflineStorage.Math_min x xs <= y)%Z.
Proof.
  unfold OfflineStorage.Math_min. revert x.
  induction xs as [|z xs IH]; intros x; simpl.
  - split; auto. intros y [<-|[]]. lia.
  - destruct (IH (Z.min x z)) as [Hin Hle]. split.
    + destruct Hin as [H|H]; [|auto].
      rewrite <- H. destruct (Z.min_spec x z) as [[_ ->]|[_ ->]]; auto.
    + intros y [<-|[<-|Hy]].
      * etransitivity; [apply Hle; now left|]. lia.
      * etransitivity; [apply Hle; now left|]. lia.
      * apply Hle. now right.
Qed.

(** X27: when the queue blob can be read, [getQueueStats] reads it without
    changing anything and reports the number of stored items; under each
    priority, type and table the number of stored items that have it (an
    item without priority counting as ['normal']), and no entry for one that
    no item has; the number of exhausted items; and as the oldest item the
    least stored timestamp, or nothing for an empty queue. *)
Theorem getQueueStats_counts :
  forall env w,
    getItem_fault env (trace w) QUEUE_KEY = None ->
    exists stats,
      OfflineStorage.getQueueStats env w = (Ok stats, w)
      /\ qs_total stats = List.length (stored_queue w)
      /\ (forall p,
            JsMap.get (Priority_str p) (qs_byPriority stats)
            = counted (count_where (has_priority p) (stored_queue w)))
      /\ (forall o,
            JsMap.get (OpType_str o) (qs_byType stats)
            = counted (count_where (has_type o) (stored_queue w)))
      /\ (forall t,
            JsMap.get (Table_str t) (qs_byTable stats)
            = counted (count_where (has_table t) (stored_queue w)))
      /\ qs_failedItems stats = count_where exhausted (stored_queue w)
      /\ match qs_oldestItem stats with
         | None => stored_queue w = []
         | Some oldest =>
             In oldest (map q_timestamp (stored_queue w))
             /\ forall item, In item (stored_queue w) ->
                             (oldest <= q_timestamp item)%Z
         end.
Proof.
  intros env w Hg.
  unfold OfflineStorage.getQueueStats, OfflineStorage.getFailedItems, bind.
  rewrite getQueue_run, Hg. cbn beta iota.
  rewrite getQueue_run, Hg. unfold ret. cbn beta iota.
  eexists. split; [reflexivity|].
  match goal with
  | |- context [fold_left ?step ?q ?init] =>
      destruct (stats_fold q init) as (Ht & Ho & Hf & Hp & Hy & Hb)
  end.
  rewrite Ht, Ho, Hf, Hp, Hy, Hb. cbn [qs_total qs_oldestItem qs_failedItems
    qs_byPriority qs_byType qs_byTable].
  split; [reflexivity|].
  split; [|split; [|split; [|split; [reflexivity|]]]].
  - intros p. rewrite get_bumps. cbv zeta. unfold counted, count_where.
    rewrite (filter_ext _ (has_priority p)).
    + destruct (Nat.eqb _ 0); [reflexivity|]. f_equal. simpl. lia.
    + intros item. unfold has_priority.
      now destruct (priority_or_normal (q_priority item)), p.
  - intros o. rewrite get_bumps. cbv zeta. unfold counted, count_where.
    rewrite (filter_ext _ (has_type o)).
    + destruct (Nat.eqb _ 0); [reflexivity|]. f_equal. simpl. lia.
    + intros item. unfold has_type. now destruct (q_type item), o.
  - intros t. rewrite get_bumps. cbv zeta. unfold counted, count_where.
    rewrite (filter_ext _ (has_table t)).
    + destruct (Nat.eqb _ 0); [reflexivity|]. f_equal. simpl. lia.
    + intros item. unfold has_table. now destruct (q_table item), t.
  - destruct (stored_queue w) as [|x q]; [reflexivity|].
    cbn [map].
    destruct (Math_min_least (q_timestamp x) (map q_timestamp q))
      as [Hin Hle].
    split; [exact Hin|].
    intros item Hitem. apply Hle.
    change (In (q_timestamp item) (map q_timestamp (x :: q))).
    now apply in_map.
Qed.

Lemma getQueueStats_counts_witness :
  exists stats,
    OfflineStorage.getQueueStats calm_env
      (world_with_queue [low_item; update_B; twin_of_B; exhausted_A])
    = (Ok stats,
       world_with_queue [low_item; update_B; twin_of_B; exhausted_A])
    /\ qs_total stats = 4
    /\ JsMap.get "normal" (qs_byPriority stats) = Some 3
    /\ JsMap.get "critical" (qs_byPriority stats) = None
    /\ qs_failedItems stats = 1
    /\ qs_oldestItem stats = Some 1000%Z.
Proof.
  destruct (@getQueueStats_counts calm_env
              (world_with_queue [low_item; update_B; twin_of_B; exhausted_A])
              eq_refl)
    as (stats & Hrun & Ht & Hp & _ & _ & Hf & _).
  exists stats. split; [exact Hrun|]. split; [exact Ht|].
  split; [exact (Hp normal)|]. split; [exact (Hp critical)|].
  split; [exact Hf|].
  now inversion Hrun.
Defined.

(** X28: when storage works, [cleanupOldCache] removes exactly the caches
    whose [lastUpdated] is earlier than [daysOld] days before now, keeps a
    cache stamped exactly at the cut-off, and leaves the queue and the sync
    status alone. *)
Theorem cleanupOldCache_removes_stale :
  forall env w daysOld,
    storage_works env ->
    let after := exec (OfflineStorage.cleanupOldCache env daysOld) w in
    result (OfflineStorage.cleanupOldCache env daysOld) w = Ok tt
    /\ (forall c,
          slot_of c (disk after)
          = match slot_of c (disk w) with
            | Some cache =>
                if (cd_lastUpdated cache <? cache_cutoff w daysOld)%Z
                then None else Some cache
            | None => None
            end)
    /\ queue_slot (disk after) = queue_slot (disk w)
    /\ status_slot (disk after) = status_slot (disk w).
Proof.
  intros env w daysOld Hst after. subst after.
  assert (forall tr k, getItem_fault env tr k = None) as Hg
    by (intros tr k; apply Hst).
  assert (forall tr k, removeItem_fault env tr k = None) as Hr
    by (intros tr k; apply Hst).
  unfold result, exec, OfflineStorage.cleanupOldCache,
    OfflineStorage.getCachedProducts, OfflineStorage.getCachedSales,
    OfflineStorage.getCachedSellers, OfflineStorage.getCachedCategories.
  unfold try_catch, bind, Date_now, OfflineStorage.getItem,
    OfflineStorage.removeItem, ret, cache_cutoff, OfflineStorage.is_stale.
  repeat (cbn beta iota; rewrite Hg). cbn beta iota. cbn [read].
  destruct (products_slot (disk w)) as [p|] eqn:Ep;
    destruct (sales_slot (disk w)) as [s|] eqn:Es;
    destruct (sellers_slot (disk w)) as [l|] eqn:El;
    destruct (categories_slot (disk w)) as [c|] eqn:Ec;
    repeat match goal with
           | |- context [(?a <? ?b)%Z] => destruct (a <? b)%Z eqn:?
           end;
    rewrite ?Hr; cbn; rewrite ?Hr; cbn; rewrite ?Hr; cbn; rewrite ?Hr; cbn;
    (split; [reflexivity|]);
    (split;
     [intros []; cbn; rewrite ?Ep, ?Es, ?El, ?Ec;
      repeat match goal with
             | H : (_ <? _)%Z = _ |- _ => rewrite ?H; clear H
             end; reflexivity|]);
    split; reflexivity.
Qed.

Lemma cleanupOldCache_removes_stale_witness :
  products_slot
    (disk (exec (OfflineStorage.cleanupOldCache calm_env 7)
             world_with_old_products)) = None
  /\ sellers_slot
       (disk (exec (OfflineStorage.cleanupOldCache calm_env 7)
                world_with_old_products))
     = Some (mkCached [temp_seller] 864000000 1).
Proof.
  destruct (@cleanupOldCache_removes_stale calm_env world_with_old_products 7
              calm_env_storage_works) as (_ & H & _).
  split; [exact (H all_products)|exact (H all_sellers)].
Defined.

(** ** Background sync *)

Lemma syncAll_run env w :
  exists r,
    SyncService.syncAll env w = (Ok r, exec (SyncService.syncAll env) w).
Proof.
  unfold exec.
  destruct (syncInProgress w) eqn:Hp.
  { exists SyncService.already_in_progress.
    unfold SyncService.syncAll, bind, get_world. now rewrite Hp. }
  destruct (isOnline w) eqn:Ho.
  2: { exists SyncService.device_offline.
       unfold SyncService.syncAll, bind, get_world. now rewrite Hp, Ho. }
  rewrite (syncAll_enters env w Hp Ho).
  destruct (performSync_run env (cycle_start w)) as [r Hrun].
  rewrite (syncCycle_run env (with_syncInProgress true w) Hrun).
  destruct (setItem_fault env _ SYNC_STATUS_KEY); eexists; reflexivity.
Qed.

Lemma getPendingOperationsCount_run env w :
  getItem_fault env (trace w) QUEUE_KEY = None ->
  SyncService.getPendingOperationsCount env w
  = (Ok (List.length (stored_queue w)), w).
Proof.
  intros Hg. unfold SyncService.getPendingOperationsCount, bind.
  now rewrite getQueue_run, Hg.
Qed.

Lemma getSyncStatus_run env w :
  getItem_fault env (trace w) SYNC_STATUS_KEY = None ->
  OfflineStorage.getSyncStatus env w = (Ok (status_slot (disk w)), w).
Proof.
  intros Hg.
  unfold OfflineStorage.getSyncStatus, try_catch, OfflineStorage.getItem.
  now rewrite Hg.
Qed.

(** X29: when the queue and the status can be read, the background task
    runs [syncAll] exactly when an item is stored or the persisted status is
    more than 30 minutes old, and then answers [NewData] or [Failed] as
    [syncAll] reports success or not; otherwise it answers [NoData] and
    touches nothing.  A device that has no persisted status and an empty
    queue is therefore never synced by the background task. *)
Theorem backgroundTask_decides :
  forall env w,
    getItem_fault env (trace w) QUEUE_KEY = None ->
    getItem_fault env (trace w) SYNC_STATUS_KEY = None ->
    if Nat.ltb 0 (List.length (stored_queue w)) || background_due w
    then
      exists r,
        SyncService.syncAll env w
        = (Ok r, exec (SyncService.syncAll env) w)
        /\ BackgroundSyncService.backgroundTask env w
           = (Ok (outcome_of r), exec (SyncService.syncAll env) w)
    else BackgroundSyncService.backgroundTask env w = (Ok NoData, w).
Proof.
  intros env w Hq Hs.
  unfold BackgroundSyncService.backgroundTask, try_catch.
  rewrite (@bind_Ok _ _ _ _ _ _ _ (getPendingOperationsCount_run env w Hq)).
  rewrite (@bind_Ok _ _ _ _ _ _ _ (getSyncStatus_run env w Hs)).
  unfold background_due.
  destruct (syncAll_run env w) as [r Hr].
  destruct (Nat.ltb 0 (List.length (stored_queue w))); cbn [orb].
  - exists r. split; [exact Hr|].
    unfold bind at 1, ret at 1. cbn [negb].
    rewrite (@bind_Ok _ _ _ _ _ _ _ Hr). unfold outcome_of.
    now destruct (success r).
  - destruct (status_slot (disk w)) as [s|].
    + assert ((now <- Date_now ;;
               ret (now - lastSync s >? 30 * 60 * 1000)%Z) w
              = (Ok (clock w - lastSync s >? 30 * 60 * 1000)%Z, w)) as Hdue
        by reflexivity.
      rewrite (@bind_Ok _ _ _ _ _ _ _ Hdue).
      destruct (clock w - lastSync s >? 30 * 60 * 1000)%Z; cbn [negb].
      * exists r. split; [exact Hr|].
        rewrite (@bind_Ok _ _ _ _ _ _ _ Hr). unfold outcome_of.
        now destruct (success r).
      * reflexivity.
    + reflexivity.
Qed.

Lemma backgroundTask_decides_witness :
  BackgroundSyncService.backgroundTask remote_down (boot empty_storage 5000)
  = (Ok NoData, boot empty_storage 5000).
Proof.
  apply (@backgroundTask_decides remote_down (boot empty_storage 5000)
           eq_refl eq_refl).
Defined.

(** X30: [smartSync] never throws.  When the queue and the status can be
    read, it does nothing if the network check says offline; otherwise it
    runs [syncAll] exactly when an item is stored, or no status is persisted,
    or the persisted status is more than 2 hours old. *)
Theorem smartSync_decides :
  forall env w,
    getItem_fault env (trace w) QUEUE_KEY = None ->
    getItem_fault env (trace w) SYNC_STATUS_KEY = None ->
    result (BackgroundSyncService.smartSync env) w = Ok tt
    /\ exec (BackgroundSyncService.smartSync env) w
       = match result (SyncService.checkOnlineStatus env) w with
         | Ok true =>
             if Nat.ltb 0 (List.length (stored_queue w)) || smart_stale w
             then exec (SyncService.syncAll env) w
             else w
         | _ => w
         end.
Proof.
  intros env w Hq Hs.
  assert (exists online,
             SyncService.checkOnlineStatus env w = (Ok online, w)) as [b Hb].
  { unfold SyncService.checkOnlineStatus.
    destruct (netInfo env (trace w)) as [[? ?]|]; eauto. }
  destruct (syncAll_run env w) as [r Hr].
  unfold result at 2. rewrite Hb. cbn [fst].
  unfold result, exec at 1, BackgroundSyncService.smartSync, try_catch.
  rewrite (@bind_Ok _ _ _ _ _ _ _ Hb).
  rewrite (@bind_Ok _ _ _ _ _ _ _ (getPendingOperationsCount_run env w Hq)).
  destruct b; cbn [negb]; [|split; reflexivity].
  unfold smart_stale.
  destruct (Nat.ltb 0 (List.length (stored_queue w))); cbn [orb].
  - rewrite (@bind_Ok _ _ _ _ _ _ _ Hr). split; reflexivity.
  - rewrite (@bind_Ok _ _ _ _ _ _ _ (getSyncStatus_run env w Hs)).
    destruct (status_slot (disk w)) as [s|].
    + assert ((now <- Date_now ;;
               ret (now - lastSync s >? 2 * 60 * 60 * 1000)%Z) w
              = (Ok (clock w - lastSync s >? 2 * 60 * 60 * 1000)%Z, w))
        as Hdue by reflexivity.
      rewrite (@bind_Ok _ _ _ _ _ _ _ Hdue).
      destruct (clock w - lastSync s >? 2 * 60 * 60 * 1000)%Z.
      * rewrite (@bind_Ok _ _ _ _ _ _ _ Hr). split; reflexivity.
      * split; reflexivity.
    + assert (@ret bool true w = (Ok true, w)) as Hdue by reflexivity.
      rewrite (@bind_Ok _ _ _ _ _ _ _ Hdue).
      rewrite (@bind_Ok _ _ _ _ _ _ _ Hr). split; reflexivity.
Qed.

(** With the network check answering offline, a queued update stays where
    it is. *)
Lemma smartSync_decides_witness :
  exec (BackgroundSyncService.smartSync remote_down)
    (world_with_queue [update_A_x])
  = world_with_queue [update_A_x].
Proof.
  apply (@smartSync_decides remote_down (world_with_queue [update_A_x])
           eq_refl eq_refl).
Defined.
